(** * Audio streaming over a data channel: sender, reconnection, decoder, playback

    A shallow embedding of the streaming pipeline of the repository:

    - [Sender]      server/index.js             (dataChannel.onopen, sendChunk,
                                                 onerror, onclose, onstatechange)
    - [Connection]  hooks/useWebRTCConnection   (handleReconnect, connect,
                                                 disconnect, the handlers)
    - [Decoder]     hooks/useAudioDecoder.js    (addChunk, tryDecode, reset)
                    utils/bufferEstimation
    - [Playback]    hooks/useAudioPlayback      (play, pause, stop, onEnded,
                                                 getCurrentPlaybackPosition)
                    hooks/effects/*.js          (useAutoStartPlayback,
                                                 useBufferReplacement)
    - [ContextManager]  utils/AudioContextManager
    - [Indicator]   components/BufferingIndicator.jsx
    - [Messages]    utils/webrtcHandlers        (handleJsonMessage)
    - [App]         hooks/useAudioStream.js and hooks/handlers
                                                (handlePlay, handleStop, retry,
                                                 the callbacks and effects)

    JavaScript numbers that hold byte counts, indices and milliseconds are
    integers in the source and are modelled in [Z].  Durations and clock
    readings (seconds) are IEEE doubles in the source.  The state keeps
    each as the rational [Q] it denotes.  Where the program takes a
    decision on the outcome of arithmetic that rounds (the 99% test of the
    end signal, the growth tests of the buffer replacement), that
    arithmetic is done in [Double], operation by operation as the source
    writes it; elsewhere the exact value stands for the rounded one.
    Callbacks that the event loop runs later (timers, promise continuations)
    are explicit events of a step function. *)

From Stdlib Require Import String ZArith QArith Qround Qminmax List Bool Lia.
From Stdlib Require Import Init.Byte SpecFloat.
Import ListNotations.

Local Open Scope Z_scope.

(** ** Results of fallible JavaScript code: a value or a thrown exception *)

Inductive result (A : Type) : Type :=
| Ok (a : A)
| Throw (msg : string).
Arguments Ok {A} a.
Arguments Throw {A} msg.

Definition bind {A B : Type} (r : result A) (k : A -> result B) : result B :=
  match r with
  | Ok a => k a
  | Throw m => Throw m
  end.

Notation "x <- r ;; k" := (bind r (fun x => k))
  (at level 61, r at next level, right associativity).

(** Raw binary data: a [Buffer] or an [ArrayBuffer]. *)
Definition bytes := list byte.

(** ** JavaScript helpers *)

(** [Buffer.prototype.slice(start, end)] for [0 <= start]: the bytes at
    positions [start <= p < end], cut at the end of the buffer. *)
Definition slice {A : Type} (buf : list A) (start end_ : Z) : list A :=
  firstn (Z.to_nat (end_ - start)) (skipn (Z.to_nat start) buf).

(** The list without its element number [i] (from 0). *)
Definition without {A : Type} (i : nat) (l : list A) : list A :=
  firstn i l ++ skipn (S i) l.

(** [Math.ceil(a / b)] on the exact quotient. *)
Definition Math_ceil_div (a b : Z) : Z :=
  Qceiling (inject_Z a / inject_Z b).

(** Strict comparison of rationals as a boolean ([x < y] in the source). *)
Definition Qltb (x y : Q) : bool := negb (Qle_bool y x).

(** ** The numbers of JavaScript: IEEE 754 binary64

    Values are [spec_float]s of precision 53 and maximal exponent 1024;
    the operations round to nearest, ties to even. *)

Module Double.

Definition prec : Z := 53.
Definition emax : Z := 1024.

Definition double : Type := spec_float.

Definition add (x y : double) : double := SFadd prec emax x y.
Definition sub (x y : double) : double := SFsub prec emax x y.
Definition mul (x y : double) : double := SFmul prec emax x y.
Definition div (x y : double) : double := SFdiv prec emax x y.

(** [x < y] and [x <= y]; both are false when an operand is NaN. *)
Definition ltb (x y : double) : bool := SFltb x y.
Definition leb (x y : double) : bool := SFleb x y.

(** The double nearest to [m * 2 ^ e]. *)
Definition of_binary (m e : Z) : double := binary_normalize prec emax m e false.

Definition of_Z (z : Z) : double := of_binary z 0.

Definition is_power_of_2 (p : positive) : bool :=
  Zpos p =? 2 ^ Z.log2 (Zpos p).

(** The double a rational stands for: the rational itself when it is a
    double, and the nearest double for any [n / 2 ^ k].  For another
    fraction of integers that are doubles themselves it is the quotient
    as the division rounds it, which is also what a decimal literal of the
    source denotes ([0.99] is [of_Q (99 # 100)]). *)
Definition of_Q (q : Q) : double :=
  if is_power_of_2 (Qden q)
  then of_binary (Qnum q) (- Z.log2 (Zpos (Qden q)))
  else div (of_Z (Qnum q)) (of_Z (Zpos (Qden q))).

Definition is_nan (x : double) : bool :=
  match x with S754_nan => true | _ => false end.

(** [Math.min(x, y)]: NaN when an operand is NaN, and [-0] below [+0]. *)
Definition min (x y : double) : double :=
  if is_nan x || is_nan y then S754_nan
  else if ltb x y then x
  else if ltb y x then y
  else match x with
       | S754_zero true => x
       | _ => y
       end.

End Double.

(** ** Web Audio objects *)

(** [AudioContext.state] *)
Inductive context_state := Running | Suspended | Closed.

Record AudioContext : Type := { state : context_state }.

(** A decoded unit: what [decodeAudioData] resolves to. *)
Record AudioBuffer : Type := { duration : Q }.

(** [config.bufferThresholdSeconds] of config.js. *)
Definition bufferThresholdSeconds : Q := 10.

(** * The chunk sender (server/index.js) *)

Module Sender.

Definition CHUNK_SIZE : Z := 64 * 1024.

(** The flow-control mark of [sendChunk]: [256 * 1024]. *)
Definition HIGH_WATER_MARK : Z := 256 * 1024.

(** Delay of the pacing timer: [setTimeout(sendChunk, 50)]. *)
Definition SEND_INTERVAL : Z := 50.

(** What [dataChannel.send] is given: a JSON text or a raw chunk. *)
Inductive message : Type :=
| MsgMetadata (totalSize totalChunks chunkSize : Z)
| MsgComplete
| MsgError (text : string)
| MsgChunk (payload : bytes).

Inductive ready_state := RsConnecting | RsOpen | RsClosing | RsClosed.
Inductive connection_state :=
  CsNew | CsConnecting | CsConnected | CsDisconnected | CsFailed | CsClosed.

(** What the handler reads from the platform when it runs. *)
Record env : Type := {
  readyState : ready_state;            (* dataChannel.readyState *)
  connectionState : connection_state;  (* peerConnection.connectionState *)
  bufferedAmount : Z;                  (* dataChannel.bufferedAmount *)
  sendThrows : bool                    (* dataChannel.send raises *)
}.

(** A timer armed by [setTimeout]. *)
Record timer : Type := { timer_id : nat; timer_delay : Z }.

(** The variables of one [ondatachannel] closure, and the channel's side. *)
Record session : Type := {
  streamingActive : bool;
  chunkTimeoutId : option nat;
  chunkIndex : Z;
  (* platform side *)
  armed : option timer;      (* the pending timer, if any *)
  nextTimerId : nat;
  sent : list message;       (* messages accepted by dataChannel.send *)
  channelClosed : bool       (* dataChannel.close() was called *)
}.

Definition initial : session :=
  {| streamingActive := true; chunkTimeoutId := None; chunkIndex := 0;
     armed := None; nextTimerId := 1; sent := []; channelClosed := false |}.

Definition set_active (b : bool) (s : session) : session :=
  {| streamingActive := b; chunkTimeoutId := chunkTimeoutId s;
     chunkIndex := chunkIndex s; armed := armed s;
     nextTimerId := nextTimerId s; sent := sent s;
     channelClosed := channelClosed s |}.

Definition set_chunkIndex (i : Z) (s : session) : session :=
  {| streamingActive := streamingActive s; chunkTimeoutId := chunkTimeoutId s;
     chunkIndex := i; armed := armed s;
     nextTimerId := nextTimerId s; sent := sent s;
     channelClosed := channelClosed s |}.

(** How the run of a handler ends: it returns, or an exception leaves it;
    either way with the session as the run left it. *)
Inductive completion : Type :=
| Returns (s : session)
| Throws (msg : string) (s : session).

Definition final (c : completion) : session :=
  match c with
  | Returns s => s
  | Throws _ s => s
  end.

(** [dataChannel.send(m)] *)
Definition dc_send (e : env) (m : message) (s : session) : completion :=
  if sendThrows e then Throws "send failed" s
  else Returns {| streamingActive := streamingActive s;
                  chunkTimeoutId := chunkTimeoutId s;
                  chunkIndex := chunkIndex s; armed := armed s;
                  nextTimerId := nextTimerId s; sent := sent s ++ [m];
                  channelClosed := channelClosed s |}.

(** [dataChannel.close()] *)
Definition dc_close (s : session) : session :=
  {| streamingActive := streamingActive s; chunkTimeoutId := chunkTimeoutId s;
     chunkIndex := chunkIndex s; armed := armed s;
     nextTimerId := nextTimerId s; sent := sent s;
     channelClosed := true |}.

(** [chunkTimeoutId = setTimeout(sendChunk, delay)] *)
Definition set_timeout (delay : Z) (s : session) : session :=
  {| streamingActive := streamingActive s;
     chunkTimeoutId := Some (nextTimerId s);
     chunkIndex := chunkIndex s;
     armed := Some {| timer_id := nextTimerId s; timer_delay := delay |};
     nextTimerId := S (nextTimerId s); sent := sent s;
     channelClosed := channelClosed s |}.

(** [if (chunkTimeoutId) { clearTimeout(chunkTimeoutId); chunkTimeoutId = null; }] *)
Definition clear_timeout (s : session) : session :=
  match chunkTimeoutId s with
  | None => s
  | Some id =>
      {| streamingActive := streamingActive s; chunkTimeoutId := None;
         chunkIndex := chunkIndex s;
         armed := match armed s with
                  | Some t => if Nat.eqb (timer_id t) id then None else Some t
                  | None => None
                  end;
         nextTimerId := nextTimerId s; sent := sent s;
         channelClosed := channelClosed s |}
  end.

Definition not_open (r : ready_state) : bool :=
  match r with RsOpen => false | _ => true end.

Definition connection_down (c : connection_state) : bool :=
  match c with CsFailed | CsDisconnected | CsClosed => true | _ => false end.

Section Asset.

(** [audioBuffer = readFileSync(audioPath)] *)
Variable audioBuffer : bytes.

Definition byteLength : Z := Z.of_nat (List.length audioBuffer).

(** [totalChunks = Math.ceil(audioBuffer.length / CHUNK_SIZE)] *)
Definition totalChunks : Z := Math_ceil_div byteLength CHUNK_SIZE.

(** The [chunk] computed by [sendChunk] when the cursor is [i]. *)
Definition chunkAt (i : Z) : bytes :=
  let start := i * CHUNK_SIZE in
  let end_ := Z.min (start + CHUNK_SIZE) byteLength in
  slice audioBuffer start end_.

(** One call of [sendChunk]. *)
Definition sendChunk (e : env) (s : session) : completion :=
  if negb (streamingActive s) || not_open (readyState e)
     || connection_down (connectionState e)
  then Returns (clear_timeout s)
  else if totalChunks <=? chunkIndex s
  then
    match dc_send e MsgComplete s with
    | Returns s' => Returns (set_active false s')
    | Throws msg s' => Throws msg s'
    end
  else
    let chunk := chunkAt (chunkIndex s) in
    let after_send : session + session :=   (* inl: go on; inr: return *)
      if bufferedAmount e <? HIGH_WATER_MARK then
        match dc_send e (MsgChunk chunk) s with
        | Returns s' => inl (set_chunkIndex (chunkIndex s' + 1) s')
        | Throws _ s' => inr (set_active false s')
        end
      else inl s in
    match after_send with
    | inr s' => Returns s'
    | inl s' =>
        if (chunkIndex s' <? totalChunks) && streamingActive s'
        then Returns (set_timeout SEND_INTERVAL s')
        else Returns s'
    end.

End Asset.

(** Outcome of the file-system calls of [dataChannel.onopen]. *)
Inductive file_outcome : Type :=
| FileMissing                 (* statSync throws *)
| FileUnreadable (msg : string)  (* readFileSync throws *)
| FileRead (audioBuffer : bytes).

(** The outer [catch] of [dataChannel.onopen]. *)
Definition onopen_catch (e : env) (msg : string) (s : session) : session :=
  let s1 := clear_timeout (set_active false s) in
  let s2 := final (dc_send e (MsgError msg) s1) in   (* its own try/catch *)
  dc_close s2.

(** [dataChannel.onopen] *)
Definition onopen (f : file_outcome) (e : env) (s : session) : session :=
  match f with
  | FileMissing =>
      match dc_send e (MsgError "Audio file not found") s with
      | Returns s' => dc_close s'
      | Throws msg s' => onopen_catch e msg s'
      end
  | FileUnreadable m => onopen_catch e m s
  | FileRead audioBuffer =>
      match dc_send e (MsgMetadata (byteLength audioBuffer)
                                   (totalChunks audioBuffer) CHUNK_SIZE) s with
      | Throws msg s' => onopen_catch e msg s'
      | Returns s1 =>
          match sendChunk audioBuffer e (set_chunkIndex 0 s1) with
          | Returns s' => s'
          | Throws msg s' => onopen_catch e msg s'
          end
      end
  end.

(** [dataChannel.onerror], and the body shared with [onclose] and
    [onstatechange]. *)
Definition onerror (s : session) : session :=
  clear_timeout (set_active false s).

Definition onclose (s : session) : session := onerror s.

Definition onstatechange (e : env) (s : session) : session :=
  if not_open (readyState e) then onerror s else s.

(** What can happen to a session after [onopen]. *)
Inductive event : Type :=
| TimerFires (e : env)      (* the pacing delay elapsed *)
| ChannelError
| ChannelClose
| StateChange (e : env).

(** The timer callback: it runs only when a timer is armed.  An exception
    that escapes [sendChunk] here is uncaught; the session stays as the
    call left it. *)
Definition timer_fires (audioBuffer : bytes) (e : env) (s : session) : session :=
  match armed s with
  | None => s
  | Some _ =>
      let s0 := {| streamingActive := streamingActive s;
                   chunkTimeoutId := chunkTimeoutId s;
                   chunkIndex := chunkIndex s; armed := None;
                   nextTimerId := nextTimerId s; sent := sent s;
                   channelClosed := channelClosed s |} in
      final (sendChunk audioBuffer e s0)
  end.

Definition handle (audioBuffer : bytes) (ev : event) (s : session) : session :=
  match ev with
  | TimerFires e => timer_fires audioBuffer e s
  | ChannelError => onerror s
  | ChannelClose => onclose s
  | StateChange e => onstatechange e s
  end.

Definition run (audioBuffer : bytes) (evs : list event) (s : session) : session :=
  fold_left (fun s ev => handle audioBuffer ev s) evs s.

(** The whole life of a channel whose file was read: [onopen], then events. *)
Definition stream (audioBuffer : bytes) (e0 : env) (evs : list event) : session :=
  run audioBuffer evs (onopen (FileRead audioBuffer) e0 initial).

(** An environment in which nothing interrupts the stream. *)
Definition steady (e : env) : Prop :=
  readyState e = RsOpen /\ connection_down (connectionState e) = false
  /\ sendThrows e = false.

(** Events of an uninterrupted stream: only timer callbacks, all steady. *)
Definition uninterrupted (ev : event) : Prop :=
  match ev with
  | TimerFires e => steady e
  | _ => False
  end.

Definition gauge_below (e : env) : bool := bufferedAmount e <? HIGH_WATER_MARK.

(** The number of [sendChunk] calls that found the gauge below the mark. *)
Fixpoint sends_allowed (evs : list event) : nat :=
  match evs with
  | [] => 0
  | TimerFires e :: evs' =>
      (if gauge_below e then 1 else 0) + sends_allowed evs'
  | _ :: evs' => sends_allowed evs'
  end%nat.

(** All the chunks of the asset, in index order. *)
Definition chunks (audioBuffer : bytes) : list bytes :=
  map (fun i => chunkAt audioBuffer (Z.of_nat i))
      (seq 0 (Z.to_nat (totalChunks audioBuffer))).

(** An open channel with nothing queued. *)
Definition idle_env : env :=
  {| readyState := RsOpen; connectionState := CsConnected;
     bufferedAmount := 0; sendThrows := false |}.

(** ** Notions used to state the sender's properties *)

(** The chunk messages of indices [0 .. k-1]. *)
Definition chunk_messages (buf : bytes) (k : nat) : list message :=
  map (fun i => MsgChunk (chunkAt buf (Z.of_nat i))) (seq 0 k).

(** The session of an uninterrupted stream after [k] chunks went out. *)
Definition after_chunks (buf : bytes) (k : nat) (s : session) : Prop :=
  Z.of_nat k <= totalChunks buf
  /\ streamingActive s = true
  /\ chunkIndex s = Z.of_nat k
  /\ sent s = MsgMetadata (byteLength buf) (totalChunks buf) CHUNK_SIZE
              :: chunk_messages buf k
  /\ channelClosed s = false
  /\ (if Z.of_nat k <? totalChunks buf
      then exists id,
          armed s = Some {| timer_id := id; timer_delay := SEND_INTERVAL |}
          /\ chunkTimeoutId s = Some id
      else armed s = None).

(** The cursor after one more [sendChunk] call in environment [e]. *)
Definition advance (buf : bytes) (k : nat) (e : env) : nat :=
  if (Z.of_nat k <? totalChunks buf) && gauge_below e then S k else k.

Ltac session_fields :=
  cbn [streamingActive chunkTimeoutId chunkIndex armed nextTimerId sent
       channelClosed set_timeout set_active set_chunkIndex initial].

(** The cursor of an uninterrupted stream, followed along its events. *)
Fixpoint cursor_after (buf : bytes) (k : nat) (evs : list event) : nat :=
  match evs with
  | [] => k
  | TimerFires e :: evs' => cursor_after buf (advance buf k e) evs'
  | _ :: evs' => cursor_after buf k evs'
  end.

(** A three-byte asset, and a channel whose gauge is above the mark. *)
Definition abc : bytes := ["a"%byte; "b"%byte; "c"%byte].

(** The 200000-byte asset of the end-to-end scenario. *)
Definition asset_200000 : bytes := repeat "000"%byte (Z.to_nat 200000).

(** The binary payloads among the messages sent, in sending order. *)
Definition payloads (l : list message) : list bytes :=
  flat_map (fun m => match m with MsgChunk c => [c] | _ => [] end) l.

(** The payloads sent are the chunks below the cursor, in index order. *)
Definition in_order (buf : bytes) (s : session) : Prop :=
  0 <= chunkIndex s <= totalChunks buf
  /\ payloads (sent s) = firstn (Z.to_nat (chunkIndex s)) (chunks buf).

Definition busy_env : env :=
  {| readyState := RsOpen; connectionState := CsConnected;
     bufferedAmount := 300000; sendThrows := false |}.

End Sender.

(** * The connection lifecycle (hooks/useWebRTCConnection) *)

Module Connection.

(** [config.maxReconnectAttempts] of config.js. *)
Record config : Type := { maxReconnectAttempts : Z }.

Definition default_config : config := {| maxReconnectAttempts := 3 |}.

(** [RTCPeerConnection.connectionState] *)
Inductive pc_state :=
  PcNew | PcConnecting | PcConnected | PcDisconnected | PcFailed | PcClosed.

Definition is_connected (p : option pc_state) : bool :=
  match p with Some PcConnected => true | _ => false end.

(** A timer [setTimeout] has set: the id it returned (ids are positive,
    so that the test [if (reconnectTimeoutRef.current)] asks whether the
    ref holds one) and its delay. *)
Record retry_timer : Type := { retry_id : nat; retry_delay : Z }.

(** The React state and refs of the hook, with what it asked of the
    platform: the timers that are set and have neither fired nor been
    cleared, the delays handed to [setTimeout] and the messages handed to
    [onError], all oldest first. *)
Record conn : Type := {
  isConnected : bool;
  isConnecting : bool;
  peerConnection : option pc_state;   (* peerConnectionRef.current *)
  dataChannel : bool;                 (* dataChannelRef.current is set *)
  reconnectAttempt : Z;               (* reconnectAttemptRef.current *)
  reconnectTimeout : option retry_timer;
                                      (* reconnectTimeoutRef.current: the
                                         timer set last, until cleanup()
                                         takes it out of the ref *)
  pendingTimers : list retry_timer;   (* set, not fired, not cleared *)
  manualDisconnect : bool;            (* manualDisconnectRef.current *)
  sessionIsAuto : bool;               (* isAuto of the connect() whose
                                         handlers are installed *)
  scheduled : list Z;
  errors : list string
}.

Definition fresh : conn :=
  {| isConnected := false; isConnecting := false; peerConnection := None;
     dataChannel := false; reconnectAttempt := 0; reconnectTimeout := None;
     pendingTimers := [];
     manualDisconnect := false; sessionIsAuto := false;
     scheduled := []; errors := [] |}.

(** [onError?.(msg)] *)
Definition onError (msg : string) (c : conn) : conn :=
  {| isConnected := isConnected c; isConnecting := isConnecting c;
     peerConnection := peerConnection c; dataChannel := dataChannel c;
     reconnectAttempt := reconnectAttempt c;
     reconnectTimeout := reconnectTimeout c;
     pendingTimers := pendingTimers c;
     manualDisconnect := manualDisconnect c; sessionIsAuto := sessionIsAuto c;
     scheduled := scheduled c; errors := errors c ++ [msg] |}.

(** [setIsConnected(a); setIsConnecting(b)] *)
Definition set_flags (a b : bool) (c : conn) : conn :=
  {| isConnected := a; isConnecting := b;
     peerConnection := peerConnection c; dataChannel := dataChannel c;
     reconnectAttempt := reconnectAttempt c;
     reconnectTimeout := reconnectTimeout c;
     pendingTimers := pendingTimers c;
     manualDisconnect := manualDisconnect c; sessionIsAuto := sessionIsAuto c;
     scheduled := scheduled c; errors := errors c |}.

Definition set_manualDisconnect (b : bool) (c : conn) : conn :=
  {| isConnected := isConnected c; isConnecting := isConnecting c;
     peerConnection := peerConnection c; dataChannel := dataChannel c;
     reconnectAttempt := reconnectAttempt c;
     reconnectTimeout := reconnectTimeout c;
     pendingTimers := pendingTimers c;
     manualDisconnect := b; sessionIsAuto := sessionIsAuto c;
     scheduled := scheduled c; errors := errors c |}.

(** [clearTimeout(id)]: the timer with that id, if it is still pending,
    will not fire; the other timers are not touched. *)
Definition clearTimeout (id : nat) (timers : list retry_timer)
  : list retry_timer :=
  filter (fun t => negb (Nat.eqb (retry_id t) id)) timers.

(** [cleanup]: clear the timer the ref holds and empty the ref, close and
    drop channel and connection. *)
Definition cleanup (c : conn) : conn :=
  {| isConnected := isConnected c; isConnecting := isConnecting c;
     peerConnection := None; dataChannel := false;
     reconnectAttempt := reconnectAttempt c;
     reconnectTimeout := None;
     pendingTimers := match reconnectTimeout c with
                      | Some t => clearTimeout (retry_id t) (pendingTimers c)
                      | None => pendingTimers c
                      end;
     manualDisconnect := manualDisconnect c; sessionIsAuto := sessionIsAuto c;
     scheduled := scheduled c; errors := errors c |}.

(** [Math.min(1000 * Math.pow(2, attempt - 1), 5000)], for [attempt >= 1]. *)
Definition backoff_delay (attempt : Z) : Z :=
  Z.min (1000 * 2 ^ (attempt - 1)) 5000.

Section WithConfig.

Variable cfg : config.

(** [handleReconnect(isAuto)].  The new timer's id replaces the one in
    the ref; a timer the ref held before is not cleared and stays
    pending. *)
Definition handleReconnect (isAuto : bool) (c : conn) : conn :=
  if manualDisconnect c then c
  else
    let shouldRetry := reconnectAttempt c <? maxReconnectAttempts cfg in
    if shouldRetry && isAuto then
      let attempt := reconnectAttempt c + 1 in
      let delay := backoff_delay attempt in
      let timer := {| retry_id := S (List.length (scheduled c));
                      retry_delay := delay |} in
      {| isConnected := isConnected c; isConnecting := isConnecting c;
         peerConnection := peerConnection c; dataChannel := dataChannel c;
         reconnectAttempt := attempt;
         reconnectTimeout := Some timer;
         pendingTimers := pendingTimers c ++ [timer];
         manualDisconnect := manualDisconnect c;
         sessionIsAuto := sessionIsAuto c;
         scheduled := scheduled c ++ [delay]; errors := errors c |}
    else c.

(** [if (reconnectAttemptRef.current >= config.maxReconnectAttempts) onError?.(msg)] *)
Definition error_if_exhausted (msg : string) (c : conn) : conn :=
  if maxReconnectAttempts cfg <=? reconnectAttempt c then onError msg c else c.

(** [connect(options)] up to its first [await]: a new peer connection and
    data channel with their handlers installed. *)
Definition connect (isAuto : bool) (c : conn) : conn :=
  if is_connected (peerConnection c) then c
  else
    let c1 := cleanup (set_flags false true (set_manualDisconnect false c)) in
    {| isConnected := isConnected c1; isConnecting := isConnecting c1;
       peerConnection := Some PcNew; dataChannel := true;
       reconnectAttempt := reconnectAttempt c1;
       reconnectTimeout := reconnectTimeout c1;
     pendingTimers := pendingTimers c1;
       manualDisconnect := manualDisconnect c1; sessionIsAuto := isAuto;
       scheduled := scheduled c1; errors := errors c1 |}.

(** The [catch] of [connect]: offer, signalling request or answer failed. *)
Definition connect_catch (c : conn) : conn :=
  error_if_exhausted "Failed to connect to server. Please try again."
    (handleReconnect (sessionIsAuto c) (set_flags false false c)).

Definition set_pc_state (p : pc_state) (c : conn) : conn :=
  {| isConnected := isConnected c; isConnecting := isConnecting c;
     peerConnection := match peerConnection c with
                       | Some _ => Some p
                       | None => None
                       end;
     dataChannel := dataChannel c;
     reconnectAttempt := reconnectAttempt c;
     reconnectTimeout := reconnectTimeout c;
     pendingTimers := pendingTimers c;
     manualDisconnect := manualDisconnect c; sessionIsAuto := sessionIsAuto c;
     scheduled := scheduled c; errors := errors c |}.

(** [peerConnection.onconnectionstatechange], the connection having moved
    to state [p]. *)
Definition onconnectionstatechange (p : pc_state) (c : conn) : conn :=
  let c := set_pc_state p c in
  match p with
  | PcConnected => c
  | PcDisconnected | PcFailed =>
      error_if_exhausted "Connection lost. Please try again."
        (handleReconnect (sessionIsAuto c) (set_flags false false c))
  | PcClosed =>
      let c1 := set_flags false false c in
      if negb (manualDisconnect c1) then
        error_if_exhausted "Unable to connect. Is the server running?"
          (handleReconnect (sessionIsAuto c1) c1)
      else c1
  | PcNew | PcConnecting => c
  end.

(** [dataChannel.onopen] *)
Definition dataChannel_onopen (c : conn) : conn :=
  let c1 := set_flags true false c in
  {| isConnected := isConnected c1; isConnecting := isConnecting c1;
     peerConnection := peerConnection c1; dataChannel := dataChannel c1;
     reconnectAttempt := 0;
     reconnectTimeout := reconnectTimeout c1;
     pendingTimers := pendingTimers c1;
     manualDisconnect := manualDisconnect c1;
     sessionIsAuto := sessionIsAuto c1;
     scheduled := scheduled c1; errors := errors c1 |}.

(** [dataChannel.onerror] *)
Definition dataChannel_onerror (c : conn) : conn :=
  error_if_exhausted "Data channel error. Please try again."
    (handleReconnect (sessionIsAuto c)
       (set_flags false (isConnecting c) c)).

(** [disconnect()] *)
Definition disconnect (c : conn) : conn :=
  set_flags false false (cleanup (set_manualDisconnect true c)).


Definition is_pending (id : nat) (c : conn) : bool :=
  existsb (fun t => Nat.eqb (retry_id t) id) (pendingTimers c).

(** A pending timer fires: it is pending no longer, and its callback runs
    [connect({ isAuto: true })].  Firing does not touch the ref.  A timer
    that was cleared, or has fired already, does not fire. *)
Definition pending_timer_fires (id : nat) (c : conn) : conn :=
  if is_pending id c then
    connect true
      {| isConnected := isConnected c; isConnecting := isConnecting c;
         peerConnection := peerConnection c; dataChannel := dataChannel c;
         reconnectAttempt := reconnectAttempt c;
         reconnectTimeout := reconnectTimeout c;
         pendingTimers := clearTimeout id (pendingTimers c);
         manualDisconnect := manualDisconnect c;
         sessionIsAuto := sessionIsAuto c;
         scheduled := scheduled c; errors := errors c |}
  else c.

(** The timer the ref holds fires. *)
Definition retry_timer_fires (c : conn) : conn :=
  match reconnectTimeout c with
  | None => c
  | Some t => pending_timer_fires (retry_id t) c
  end.

(** What happens to the hook: calls of [connect] and [disconnect], the
    failure of a [connect] under way, the events of the peer connection
    and the data channel, and timers firing: the one the ref holds, or
    any pending one, by its id. *)
Inductive conn_event : Type :=
| Connect (isAuto : bool)
| ConnectFails
| ConnectionState (p : pc_state)
| DataChannelOpen
| DataChannelError
| RetryTimerFires
| TimerFires (id : nat)
| Disconnect.

Definition react (ev : conn_event) (c : conn) : conn :=
  match ev with
  | Connect isAuto => connect isAuto c
  | ConnectFails => connect_catch c
  | ConnectionState p => onconnectionstatechange p c
  | DataChannelOpen => dataChannel_onopen c
  | DataChannelError => dataChannel_onerror c
  | RetryTimerFires => retry_timer_fires c
  | TimerFires id => pending_timer_fires id c
  | Disconnect => disconnect c
  end.

Definition lifecycle (evs : list conn_event) (c : conn) : conn :=
  fold_left (fun c ev => react ev c) evs c.

End WithConfig.

(** An auto-triggered session whose connection fails, is retried when the
    timer fires, and fails again: [n] failures in a row. *)
Fixpoint failures (n : nat) : list conn_event :=
  match n with
  | O => []
  | S O => [ConnectionState PcFailed]
  | S n' => ConnectionState PcFailed :: RetryTimerFires :: failures n'
  end.

End Connection.

(** * The progressive decoder (hooks/useAudioDecoder.js) *)

Module Decoder.

(** [estimateBufferedDuration] of utils/bufferEstimation. *)
Definition estimateBufferedDuration (totalBytes : Z) : Q :=
  inject_Z totalBytes / inject_Z (12 * 1024).

(** [accumulateChunks] of utils/bufferEstimation: the chunks copied one
    after the other into one buffer, and the sum of their sizes. *)
Definition accumulateChunks (chunks : list bytes) : bytes * Z :=
  let totalLength :=
    fold_left (fun sum chunk => sum + Z.of_nat (List.length chunk)) chunks 0 in
  (List.concat chunks, totalLength).

(** The refs and state of the hook.  [inFlight] holds the calls of
    [tryDecode] that are suspended at [decodeAudioData], oldest first:
    for each the copy of the buffer it submitted and its local
    [currentBufferSize]. *)
Record decoder : Type := {
  bufferedSeconds : Q;
  rawChunks : list bytes;
  accumulatedBuffer : option bytes;
  decodedBuffers : list AudioBuffer;
  isDecoding : bool;
  lastDecodedBytes : Z;
  audioContext : option AudioContext;      (* audioContextRef.current *)
  inFlight : list (bytes * Z)
}.

Definition empty_decoder : decoder :=
  {| bufferedSeconds := 0; rawChunks := []; accumulatedBuffer := None;
     decodedBuffers := []; isDecoding := false; lastDecodedBytes := 0;
     audioContext := None; inFlight := [] |}.

(** What [await ensureContextReady()] gives. *)
Inductive ensure_outcome :=
| ContextReady (ctx : AudioContext)
| EnsureThrows.

(** What [await decodeAudioData(...)] gives. *)
Inductive decode_outcome :=
| Decoded (audioBuffer : AudioBuffer)
| DecodeFails (msg : string).

(** Where a call of [tryDecode] stands once its synchronous part is over. *)
Inductive began := ReturnedNull | Submitted.

Definition set_audioContext (ctx : AudioContext) (d : decoder) : decoder :=
  {| bufferedSeconds := bufferedSeconds d; rawChunks := rawChunks d;
     accumulatedBuffer := accumulatedBuffer d;
     decodedBuffers := decodedBuffers d; isDecoding := isDecoding d;
     lastDecodedBytes := lastDecodedBytes d;
     audioContext := Some ctx; inFlight := inFlight d |}.

Definition is_some {A : Type} (o : option A) : bool :=
  match o with Some _ => true | None => false end.

Definition is_empty {A : Type} (l : list A) : bool :=
  match l with [] => true | _ => false end.

(** [tryDecode(forceMode)] from its guard
    [if (!audioContextRef.current || !accumulatedBufferRef.current ||
    isDecodingRef.current)] up to the call of [decodeAudioData]. *)
Definition tryDecode_submit (forceMode : bool) (d : decoder)
  : decoder * began :=
  match audioContext d, accumulatedBuffer d, isDecoding d with
  | Some _, Some buffer, false =>
      let currentBufferSize := Z.of_nat (List.length buffer) in
      let hasGrown :=
        Qltb (inject_Z (lastDecodedBytes d) * (12 # 10))
             (inject_Z currentBufferSize) in
      let shouldDecode :=
        forceMode || is_empty (decodedBuffers d) || hasGrown in
      if negb shouldDecode then (d, ReturnedNull)
      else
        ({| bufferedSeconds := bufferedSeconds d;
            rawChunks := rawChunks d;
            accumulatedBuffer := accumulatedBuffer d;
            decodedBuffers := decodedBuffers d;
            isDecoding := true;
            lastDecodedBytes := lastDecodedBytes d;
            audioContext := audioContext d;
            inFlight := inFlight d ++ [(buffer, currentBufferSize)] |},
         Submitted)
  | _, _, _ => (d, ReturnedNull)
  end.

(** [tryDecode(forceMode)] up to the call of [decodeAudioData].
    [ensure] is what [ensureContextReady], when the hook was given one,
    answers if it is awaited.  The call is taken at the instant it resumes
    from that [await]: the guard that follows reads the refs only then. *)
Definition tryDecode_begin (forceMode : bool) (ensure : option ensure_outcome)
           (d : decoder) : decoder * began :=
  if negb (is_some (audioContext d)) && is_some (accumulatedBuffer d) then
    match ensure with
    | Some (ContextReady ctx) =>
        tryDecode_submit forceMode (set_audioContext ctx d)
    | Some EnsureThrows => (d, ReturnedNull)
    | None => (d, ReturnedNull)
    end
  else tryDecode_submit forceMode d.

(** [decodeAudioData] as the [try] block sees it. *)
Definition decodeAudioData (o : decode_outcome) : result AudioBuffer :=
  match o with
  | Decoded audioBuffer => Ok audioBuffer
  | DecodeFails msg => Throw msg
  end.

(** The rest of a call of [tryDecode], run when its [decodeAudioData]
    settles: the end of the [try] block, the [catch] and the [finally].
    [i] tells which of the suspended calls it is.  The second component
    is what the call gives its caller. *)
Definition tryDecode_finish (i : nat) (o : decode_outcome) (d : decoder)
  : decoder * result (option AudioBuffer) :=
  match nth_error (inFlight d) i with
  | None => (d, Ok None)
  | Some (_, currentBufferSize) =>
      let tried : result (decoder * option AudioBuffer) :=
        audioBuffer <- decodeAudioData o ;;
        Ok ({| bufferedSeconds := duration audioBuffer;
               rawChunks := rawChunks d;
               accumulatedBuffer := accumulatedBuffer d;
               decodedBuffers := [audioBuffer];
               isDecoding := isDecoding d;
               lastDecodedBytes := currentBufferSize;
               audioContext := audioContext d;
               inFlight := inFlight d |}, Some audioBuffer) in
      let caught : decoder * option AudioBuffer :=
        match tried with
        | Ok dv => dv
        | Throw _ => (d, None)
        end in
      let d1 := fst caught in
      ({| bufferedSeconds := bufferedSeconds d1; rawChunks := rawChunks d1;
          accumulatedBuffer := accumulatedBuffer d1;
          decodedBuffers := decodedBuffers d1;
          isDecoding := false;
          lastDecodedBytes := lastDecodedBytes d1;
          audioContext := audioContext d1;
          inFlight := without i (inFlight d1) |}, Ok (snd caught))
  end.

(** [rawChunksRef.current.push(arrayBuffer)] *)
Definition push_chunk (arrayBuffer : bytes) (d : decoder) : decoder :=
  {| bufferedSeconds := bufferedSeconds d;
     rawChunks := rawChunks d ++ [arrayBuffer];
     accumulatedBuffer := accumulatedBuffer d;
     decodedBuffers := decodedBuffers d; isDecoding := isDecoding d;
     lastDecodedBytes := lastDecodedBytes d;
     audioContext := audioContext d; inFlight := inFlight d |}.

(** [performAccumulation()] *)
Definition performAccumulation (d : decoder) : decoder * Z :=
  let '(buffer, totalBytes) := accumulateChunks (rawChunks d) in
  ({| bufferedSeconds := bufferedSeconds d; rawChunks := rawChunks d;
      accumulatedBuffer := Some buffer;
      decodedBuffers := decodedBuffers d; isDecoding := isDecoding d;
      lastDecodedBytes := lastDecodedBytes d;
      audioContext := audioContext d; inFlight := inFlight d |}, totalBytes).

(** [setBufferedSeconds(seconds)] *)
Definition setBufferedSeconds (seconds : Q) (d : decoder) : decoder :=
  {| bufferedSeconds := seconds; rawChunks := rawChunks d;
     accumulatedBuffer := accumulatedBuffer d;
     decodedBuffers := decodedBuffers d; isDecoding := isDecoding d;
     lastDecodedBytes := lastDecodedBytes d;
     audioContext := audioContext d; inFlight := inFlight d |}.

(** [addChunk(arrayBuffer)] up to its [await tryDecode()]. *)
Definition addChunk (arrayBuffer : bytes) (ensure : option ensure_outcome)
           (d : decoder) : decoder :=
  let '(d1, totalBytes) := performAccumulation (push_chunk arrayBuffer d) in
  let estimatedDuration := estimateBufferedDuration totalBytes in
  let d2 := if is_empty (decodedBuffers d1)
            then setBufferedSeconds estimatedDuration d1 else d1 in
  let shouldAttemptDecode :=
    Qle_bool bufferThresholdSeconds estimatedDuration
    || (negb (is_empty (decodedBuffers d2))
        && Qltb (inject_Z (lastDecodedBytes d2) * (12 # 10))
                (inject_Z totalBytes)) in
  if shouldAttemptDecode && negb (isDecoding d2)
  then fst (tryDecode_begin false ensure d2)
  else d2.

(** [reset()]: it clears the refs; a call of [tryDecode] that is suspended
    stays so. *)
Definition reset (d : decoder) : decoder :=
  {| bufferedSeconds := 0; rawChunks := []; accumulatedBuffer := None;
     decodedBuffers := []; isDecoding := false; lastDecodedBytes := 0;
     audioContext := audioContext d; inFlight := inFlight d |}.

(** [getDecodedBuffer()] and [hasDecodedBuffer()] *)
Definition getDecodedBuffer (d : decoder) : option AudioBuffer :=
  hd_error (decodedBuffers d).

Definition hasDecodedBuffer (d : decoder) : bool :=
  negb (is_empty (decodedBuffers d)).

(** What happens to the decoder: chunks arrive, callers ask for a decode,
    a decode settles, the decoder is reset. *)
Inductive decoder_event : Type :=
| AddChunk (arrayBuffer : bytes) (ensure : option ensure_outcome)
| TryDecode (forceMode : bool) (ensure : option ensure_outcome)
| DecodeSettles (i : nat) (o : decode_outcome)
| Reset.

Definition step (ev : decoder_event) (d : decoder) : decoder :=
  match ev with
  | AddChunk arrayBuffer ensure => addChunk arrayBuffer ensure d
  | TryDecode forceMode ensure => fst (tryDecode_begin forceMode ensure d)
  | DecodeSettles i o => fst (tryDecode_finish i o d)
  | Reset => reset d
  end.

Definition events_from (d : decoder) (evs : list decoder_event) : decoder :=
  fold_left (fun d ev => step ev d) evs d.

(** The decoder after the events [evs], counted from the mounting of the
    hook. *)
Definition after_events (evs : list decoder_event) : decoder :=
  events_from empty_decoder evs.

Definition is_reset (ev : decoder_event) : bool :=
  match ev with Reset => true | _ => false end.

(** A session: the events between two resets. *)
Definition one_session (evs : list decoder_event) : Prop :=
  Forall (fun ev => is_reset ev = false) evs.

(** What every history keeps. *)
Definition well_formed (d : decoder) : Prop :=
  0 <= lastDecodedBytes d
  /\ (forall buffer, accumulatedBuffer d = Some buffer ->
                     buffer = List.concat (rawChunks d))
  /\ (forall snapshot currentBufferSize,
         In (snapshot, currentBufferSize) (inFlight d) ->
         currentBufferSize = Z.of_nat (List.length snapshot))
  /\ (isDecoding d = true -> inFlight d <> []).

(** What holds throughout a session that began with no decode in
    flight. *)
Definition consistent (d : decoder) : Prop :=
  let size := Z.of_nat (List.length (List.concat (rawChunks d))) in
  0 <= lastDecodedBytes d <= size
  /\ (forall buffer, accumulatedBuffer d = Some buffer ->
                     buffer = List.concat (rawChunks d))
  /\ (forall snapshot currentBufferSize,
         In (snapshot, currentBufferSize) (inFlight d) ->
         currentBufferSize = Z.of_nat (List.length snapshot)
         /\ lastDecodedBytes d <= currentBufferSize <= size
         /\ isDecoding d = true)
  /\ (List.length (inFlight d) <= 1)%nat
  /\ (isDecoding d = true -> inFlight d <> []).

(** ** Sample histories *)

Definition decoded_3s : AudioBuffer := {| duration := 3 |}.

Definition decoded_1s : AudioBuffer := {| duration := 1 |}.

Definition running : option ensure_outcome :=
  Some (ContextReady {| state := Running |}).

Definition awaiting_decode : list decoder_event :=
  [AddChunk ["a"%byte; "b"%byte; "c"%byte] None;
   TryDecode true running].

(** Three bytes are submitted for decoding; the decoder is reset before
    the decode settles; in the session that follows, the decode settles,
    one byte arrives and a decode is forced (as the [complete] message
    does). *)
Definition reset_in_flight : list decoder_event :=
  awaiting_decode
  ++ [Reset;
      DecodeSettles 0 (Decoded decoded_3s);
      AddChunk ["x"%byte] None;
      TryDecode true None].

End Decoder.

(** * Playback (hooks/useAudioPlayback and hooks/effects) *)

Module Playback.

Local Open Scope Q_scope.

(** An [AudioBufferSourceNode]: which node it is, and the buffer it plays. *)
Record source : Type := { source_id : nat; source_buffer : AudioBuffer }.

(** The React state and the refs of [useAudioPlayback].  [context] is
    [contextManagerRef.current.context]; [nextSourceId] numbers the nodes
    [createBufferSource] hands out. *)
Record playback : Type := {
  isPlaying : bool;
  isPaused : bool;
  isBuffering : bool;
  context : option AudioContext;
  sourceNode : option source;          (* sourceNodeRef.current *)
  startTime : Q;                       (* startTimeRef.current *)
  pausedTime : Q;                      (* pausedTimeRef.current *)
  playbackOffset : Q;                  (* playbackOffsetRef.current *)
  hasUserGesture : bool;               (* hasUserGestureRef.current *)
  currentBufferDuration : Q;           (* currentBufferDurationRef.current *)
  nextSourceId : nat
}.

Definition mounted : playback :=
  {| isPlaying := false; isPaused := false; isBuffering := false;
     context := None; sourceNode := None;
     startTime := 0; pausedTime := 0; playbackOffset := 0;
     hasUserGesture := false; currentBufferDuration := 0;
     nextSourceId := 0 |}.

(** The states of the playback coordinator. *)
Inductive phase := Idle | Buffering | Playing | Paused.

Definition phase_of (p : playback) : phase :=
  if isPlaying p then Playing
  else if isPaused p then Paused
  else if isBuffering p then Buffering
  else Idle.

(** [setIsBuffering(b)] *)
Definition setIsBuffering (b : bool) (p : playback) : playback :=
  {| isPlaying := isPlaying p; isPaused := isPaused p; isBuffering := b;
     context := context p; sourceNode := sourceNode p;
     startTime := startTime p; pausedTime := pausedTime p;
     playbackOffset := playbackOffset p;
     hasUserGesture := hasUserGesture p;
     currentBufferDuration := currentBufferDuration p;
     nextSourceId := nextSourceId p |}.

(** [markUserGesture()], and the listener of [setupGestureTracking] *)
Definition markUserGesture (p : playback) : playback :=
  {| isPlaying := isPlaying p; isPaused := isPaused p;
     isBuffering := isBuffering p;
     context := context p; sourceNode := sourceNode p;
     startTime := startTime p; pausedTime := pausedTime p;
     playbackOffset := playbackOffset p;
     hasUserGesture := true;
     currentBufferDuration := currentBufferDuration p;
     nextSourceId := nextSourceId p |}.

Definition set_context (c : option AudioContext) (p : playback) : playback :=
  {| isPlaying := isPlaying p; isPaused := isPaused p;
     isBuffering := isBuffering p;
     context := c; sourceNode := sourceNode p;
     startTime := startTime p; pausedTime := pausedTime p;
     playbackOffset := playbackOffset p;
     hasUserGesture := hasUserGesture p;
     currentBufferDuration := currentBufferDuration p;
     nextSourceId := nextSourceId p |}.

(** [AudioContextManager.ensureContext]: a closed context is dropped, a
    missing one created, a suspended one resumed (the resume is taken to
    succeed). *)
Definition ensureContext (p : playback) : playback :=
  let kept :=
    match context p with
    | Some {| state := Closed |} => None
    | c => c
    end in
  let ctx :=
    match kept with
    | Some c => c
    | None => {| state := Running |}
    end in
  let ctx :=
    match ctx with
    | {| state := Suspended |} => {| state := Running |}
    | c => c
    end in
  set_context (Some ctx) p.

(** [AudioContextManager.suspend] *)
Definition suspend (p : playback) : playback :=
  match context p with
  | Some {| state := Running |} => set_context (Some {| state := Suspended |}) p
  | _ => p
  end.

(** [pausedTimeRef.current || 0] *)
Definition or_zero (x : Q) : Q := if Qeq_bool x 0 then 0 else x.

(** [play(audioBuffer, resumeOffset)]; [now] is [ctx.currentTime] when the
    body runs after [await ensureContext()]. *)
Definition play (audioBuffer : option AudioBuffer) (resumeOffset : option Q)
           (now : Q) (p : playback) : playback * bool :=
  match audioBuffer with
  | None => (p, false)
  | Some audioBuffer =>
      let p := ensureContext p in
      let currentOffset :=
        match resumeOffset, sourceNode p with
        | Some offset, _ => offset
        | None, Some _ =>
            let elapsed := now - startTime p in
            playbackOffset p + elapsed
        | None, None => or_zero (pausedTime p)
        end in
      let source :=
        {| source_id := nextSourceId p; source_buffer := audioBuffer |} in
      ({| isPlaying := true; isPaused := false; isBuffering := false;
          context := context p; sourceNode := Some source;
          startTime := now; pausedTime := pausedTime p;
          playbackOffset := currentOffset;
          hasUserGesture := hasUserGesture p;
          currentBufferDuration := duration audioBuffer;
          nextSourceId := S (nextSourceId p) |}, true)
  end.

(** What the two terminating branches of [onEnded] do. *)
Definition end_playback (p : playback) : playback :=
  {| isPlaying := false; isPaused := isPaused p;
     isBuffering := isBuffering p;
     context := context p; sourceNode := None;
     startTime := startTime p; pausedTime := pausedTime p;
     playbackOffset := 0;
     hasUserGesture := hasUserGesture p;
     currentBufferDuration := 0;
     nextSourceId := nextSourceId p |}.

Definition is_source (s : source) (o : option source) : bool :=
  match o with
  | Some s' => Nat.eqb (source_id s') (source_id s)
  | None => false
  end.

(** The [onEnded] callback that [play] gave to [source]; [now] is
    [ctx.currentTime], read only when there is a context.  The position,
    99% of the duration and their comparison are computed in doubles. *)
Definition onEnded (source : source) (now : Q) (p : playback) : playback :=
  if is_source source (sourceNode p) then
    match context p with
    | Some _ =>
        let elapsed :=
          Double.sub (Double.of_Q now) (Double.of_Q (startTime p)) in
        let currentPosition :=
          Double.add (Double.of_Q (playbackOffset p)) elapsed in
        let bufferDuration := Double.of_Q (currentBufferDuration p) in
        if Double.leb (Double.mul bufferDuration (Double.of_Q (99 # 100)))
                      currentPosition
        then end_playback p
        else p
    | None => end_playback p
    end
  else p.

(** [pause()] *)
Definition pause (now : Q) (p : playback) : playback :=
  match sourceNode p, context p with
  | Some _, Some _ =>
      {| isPlaying := false; isPaused := true; isBuffering := isBuffering p;
         context := context p; sourceNode := None;
         startTime := startTime p; pausedTime := now - startTime p;
         playbackOffset := playbackOffset p;
         hasUserGesture := hasUserGesture p;
         currentBufferDuration := currentBufferDuration p;
         nextSourceId := nextSourceId p |}
  | _, _ => p
  end.

(** [stop()] *)
Definition stop (p : playback) : playback :=
  let p := suspend p in
  {| isPlaying := false; isPaused := false; isBuffering := isBuffering p;
     context := context p; sourceNode := None;
     startTime := 0; pausedTime := 0; playbackOffset := 0;
     hasUserGesture := hasUserGesture p;
     currentBufferDuration := 0;
     nextSourceId := nextSourceId p |}.

(** The clean-up of the hook when the component goes away: the source is
    stopped but stays in its ref, the context is closed and dropped. *)
Definition unmount (p : playback) : playback := set_context None p.

(** [getCurrentPlaybackPosition()] *)
Definition getCurrentPlaybackPosition (now : Q) (p : playback) : Q :=
  match sourceNode p, context p with
  | Some _, Some _ =>
      let elapsed := now - startTime p in
      let position := playbackOffset p + elapsed in
      Qmin position (currentBufferDuration p)
  | _, _ => 0
  end.

(** ** hooks/effects/useAutoStartPlayback.js

    An effect runs after the render whose state is [p]: the values named
    in the source ([isBuffering], [isPlaying], [isPaused]) are those of
    that render, the functions read the refs. *)

(** [shouldAutoStart] of the first effect. *)
Definition shouldAutoStart (d : Decoder.decoder) (p : playback) : bool :=
  isBuffering p
  && Qle_bool bufferThresholdSeconds (Decoder.bufferedSeconds d)
  && negb (isPlaying p) && negb (isPaused p)
  && hasUserGesture p && Decoder.hasDecodedBuffer d.

(** The first effect: start playing once buffering is over.  The effect
    is taken together with the [play] it starts. *)
Definition autoStart_effect (now : Q) (d : Decoder.decoder) (p : playback)
  : playback :=
  if shouldAutoStart d p then
    let p1 := setIsBuffering false p in
    match Decoder.getDecodedBuffer d with
    | Some buffer => fst (play (Some buffer) None now p1)
    | None => p1
    end
  else p.

(** The second effect: "Clear buffering state when we have enough audio".
    [render] is the state of the render, [p] the state the effect finds. *)
Definition clearBuffering_effect (render : playback) (d : Decoder.decoder)
           (p : playback) : playback :=
  if Qle_bool bufferThresholdSeconds (Decoder.bufferedSeconds d)
     && isBuffering render && negb (isPlaying render)
  then
    if negb (hasUserGesture p) then setIsBuffering false p else p
  else p.

Definition useAutoStartPlayback (now : Q) (d : Decoder.decoder) (p : playback)
  : playback :=
  clearBuffering_effect p d (autoStart_effect now d p).

(** ** hooks/effects/useBufferReplacement.js *)

(** [getCurrentPlaybackPosition()] as the platform computes it: the sum
    and the difference round, [Math.min] does not. *)
Definition currentPosition (now : Q) (p : playback) : Double.double :=
  match sourceNode p, context p with
  | Some _, Some _ =>
      let elapsed :=
        Double.sub (Double.of_Q now) (Double.of_Q (startTime p)) in
      let position := Double.add (Double.of_Q (playbackOffset p)) elapsed in
      Double.min position (Double.of_Q (currentBufferDuration p))
  | _, _ => Double.of_Z 0
  end.

(** [hasNewContent] of the effect, with [last] for
    [lastBufferDurationRef.current]. *)
Definition hasNewContent (last currentDuration : Double.double) : bool :=
  Double.ltb (Double.mul last (Double.of_Q (11 # 10))) currentDuration.

(** [shouldReplace] of the effect. *)
Definition shouldReplace (last currentDuration currentPosition : Double.double)
  : bool :=
  let remainingContent := Double.sub currentDuration currentPosition in
  Double.ltb (Double.of_Z 5) remainingContent
  || (Double.ltb (Double.mul last (Double.of_Q (11 # 10))) currentDuration
      && Double.ltb (Double.add last (Double.of_Z 2)) currentDuration).

(** What the first effect decides: the buffer to start playing, if any.
    The clock is read at [now]. *)
Definition replacement_due (now : Q) (d : Decoder.decoder) (last : Q)
           (p : playback) : option AudioBuffer :=
  if negb (isPlaying p) then None
  else
    match Decoder.getDecodedBuffer d with
    | None => None
    | Some currentBuffer =>
        let currentDuration := Double.of_Q (duration currentBuffer) in
        if hasNewContent (Double.of_Q last) currentDuration then
          if shouldReplace (Double.of_Q last) currentDuration
                           (currentPosition now p)
          then Some currentBuffer
          else None
        else None
    end.

(** The first effect, taken together with the [play] it starts; it gives
    the playback state and the new value of
    [lastBufferDurationRef.current].  The clock is read once, at [now],
    for the position and for the restart. *)
Definition replacement_effect (now : Q) (d : Decoder.decoder) (last : Q)
           (p : playback) : playback * Q :=
  match replacement_due now d last p with
  | Some currentBuffer =>
      (fst (play (Some currentBuffer) None now p), duration currentBuffer)
  | None => (p, last)
  end.

(** Both effects: the second resets the tracking when playback is off. *)
Definition useBufferReplacement (now : Q) (d : Decoder.decoder) (last : Q)
           (p : playback) : playback * Q :=
  let '(p1, last1) := replacement_effect now d last p in
  (p1, if negb (isPlaying p) then 0 else last1).

(** The states the operations of the hook lead to. *)
Inductive reachable : playback -> Prop :=
| reach_initial : reachable mounted
| reach_play (p : playback) (audioBuffer : option AudioBuffer)
             (resumeOffset : option Q) (now : Q) :
    reachable p -> reachable (fst (play audioBuffer resumeOffset now p))
| reach_pause (p : playback) (now : Q) :
    reachable p -> reachable (pause now p)
| reach_stop (p : playback) : reachable p -> reachable (stop p)
| reach_ended (p : playback) (s : source) (now : Q) :
    reachable p -> reachable (onEnded s now p)
| reach_buffering (p : playback) (b : bool) :
    reachable p -> reachable (setIsBuffering b p)
| reach_gesture (p : playback) : reachable p -> reachable (markUserGesture p)
| reach_context (p : playback) : reachable p -> reachable (ensureContext p)
| reach_unmount (p : playback) : reachable p -> reachable (unmount p).

(** The states the hook is in while it is mounted: those its operations
    lead to before the clean-up. *)
Inductive live : playback -> Prop :=
| live_initial : live mounted
| live_play (p : playback) (audioBuffer : option AudioBuffer)
            (resumeOffset : option Q) (now : Q) :
    live p -> live (fst (play audioBuffer resumeOffset now p))
| live_pause (p : playback) (now : Q) : live p -> live (pause now p)
| live_stop (p : playback) : live p -> live (stop p)
| live_ended (p : playback) (s : source) (now : Q) :
    live p -> live (onEnded s now p)
| live_buffering (p : playback) (b : bool) :
    live p -> live (setIsBuffering b p)
| live_gesture (p : playback) : live p -> live (markUserGesture p)
| live_context (p : playback) : live p -> live (ensureContext p).

(** The active source plays the buffer whose duration is tracked. *)
Definition source_tracked (p : playback) : Prop :=
  forall s : source,
    sourceNode p = Some s ->
    currentBufferDuration p = duration (source_buffer s)
    /\ (source_id s < nextSourceId p)%nat.

(** ** Sample states *)

Definition unit_of (seconds : Q) : AudioBuffer := {| duration := seconds |}.

(** A decoder whose one decoded unit lasts [seconds]. *)
Definition decoded (seconds : Q) : Decoder.decoder :=
  Decoder.after_events
    [Decoder.AddChunk ["a"%byte; "b"%byte; "c"%byte] None;
     Decoder.TryDecode true Decoder.running;
     Decoder.DecodeSettles 0 (Decoder.Decoded (unit_of seconds))].

(** The double 7.7, which is a little above 77/10, and the double next
    above it, which is [7 * 1.1] as the multiplication rounds it. *)
Definition double_7_7 : Q := 8669429282688205 # 1125899906842624.
Definition double_7_times_1_1 : Q := 8669429282688206 # 1125899906842624.

(** A unit of 8 seconds started from its beginning when the clock read 100. *)
Definition playing_8s : playback :=
  fst (play (Some (unit_of 8)) None 100 (markUserGesture mounted)).

(** The same unit started when the clock read 0. *)
Definition from_0_8s : playback :=
  fst (play (Some (unit_of 8)) None 0 (markUserGesture mounted)).

Definition source_8s : source :=
  {| source_id := 0; source_buffer := unit_of 8 |}.

End Playback.

(** * More of the chunk sender: how a stream stops *)

Module SenderExt.
Import Sender.

(** Events after which [sendChunk] is not scheduled again: the handlers
    that cancel the stream, and a timer callback that finds the channel not
    open, the connection down, or whose send of a chunk throws. *)
Definition halts (ev : event) : bool :=
  match ev with
  | ChannelError => true
  | ChannelClose => true
  | StateChange e => not_open (readyState e)
  | TimerFires e =>
      not_open (readyState e) || connection_down (connectionState e)
      || (sendThrows e && gauge_below e)
  end.

(** What holds of the pending timer of a session streaming [buf]. *)
Definition timer_sound (buf : bytes) (s : session) : Prop :=
  forall t : timer,
    armed s = Some t ->
    chunkTimeoutId s = Some (timer_id t)
    /\ timer_delay t = SEND_INTERVAL
    /\ streamingActive s = true
    /\ 0 <= chunkIndex s < totalChunks buf.

(** A channel on which [send] throws. *)
Definition broken_env : env :=
  {| readyState := RsOpen; connectionState := CsConnected;
     bufferedAmount := 0; sendThrows := true |}.

End SenderExt.

(** * More of the connection lifecycle: what bounds its retries *)

Module ConnectionExt.
Import Connection.

(** A delay the backoff may produce: between one and five seconds. *)
Definition in_backoff_range (d : Z) : Prop := 1000 <= d <= 5000.

(** Events other than a call [connect({ isAuto: true })] from outside. *)
Definition not_auto_connect (ev : conn_event) : Prop :=
  ev <> Connect true.

(** Events other than a call of [connect]. *)
Definition not_connect (ev : conn_event) : Prop :=
  forall isAuto : bool, ev <> Connect isAuto.

(** What every lifecycle keeps. *)
Definition bounded (cfg : config) (c : conn) : Prop :=
  0 <= reconnectAttempt c <= maxReconnectAttempts cfg
  /\ Forall in_backoff_range (scheduled c)
  /\ (forall t : retry_timer,
        reconnectTimeout c = Some t -> in_backoff_range (retry_delay t))
  /\ Forall (fun t => in_backoff_range (retry_delay t)) (pendingTimers c).


(** What a hook keeps as long as [connect] is only called with
    [isAuto: false]. *)
Definition manual_quiet (c : conn) : Prop :=
  sessionIsAuto c = false /\ reconnectAttempt c = 0
  /\ scheduled c = [] /\ reconnectTimeout c = None
  /\ pendingTimers c = [] /\ errors c = [].

(** What a hook keeps after [disconnect()] until [connect] is called,
    when no timer is left pending. *)
Definition disconnected_quiet (delays : list Z) (c : conn) : Prop :=
  manualDisconnect c = true /\ reconnectTimeout c = None
  /\ pendingTimers c = [] /\ scheduled c = delays.

(** A timer is left over when it is pending and the ref holds another
    timer or none: [cleanup] does not clear it. *)
Definition left_over (t : retry_timer) (c : conn) : Prop :=
  In t (pendingTimers c)
  /\ forall held : retry_timer,
       reconnectTimeout c = Some held -> retry_id held <> retry_id t.

End ConnectionExt.

(** * Control messages on the client (utils/webrtcHandlers) *)

Module Messages.

(** What [JSON.parse] builds. *)
#[warnings="-register-all"]
Inductive json : Type :=
| JNull
| JBool (b : bool)
| JNumber (q : Q)
| JString (s : string)
| JArray (items : list json)
| JObject (fields : list (string * json)).

Fixpoint assoc (key : string) (fields : list (string * json)) : option json :=
  match fields with
  | [] => None
  | (k, v) :: rest => if String.eqb k key then Some v else assoc key rest
  end.

(** [value.key]: reading a property of [null] throws; an object gives the
    field, or [undefined]; the other values have neither a [type] nor a
    [message] property. *)
Definition get (key : string) (value : json) : result (option json) :=
  match value with
  | JNull => Throw "Cannot read properties of null"
  | JObject fields => Ok (assoc key fields)
  | _ => Ok None
  end.

(** Whether [x || y] takes [x]. *)
Definition truthy (value : option json) : bool :=
  match value with
  | None => false
  | Some JNull => false
  | Some (JBool b) => b
  | Some (JNumber q) => negb (Qeq_bool q 0)
  | Some (JString s) => negb (String.eqb s EmptyString)
  | Some (JArray _) => true
  | Some (JObject _) => true
  end.

(** A callback handed to the handler: left out, or given, and then it
    returns or throws when called. *)
Inductive callback := Absent | Given (throws : bool).

Record callbacks : Type := {
  onMetadata : callback;
  onError : callback;
  onComplete : callback
}.

(** What the handler did, in order. *)
Inductive action : Type :=
| MetadataCalled (message : json)
| ErrorCalled (text : json)
| CompleteCalled
| ChannelClosed.

(** [callback?.(...)]: nothing when left out; the call, and whether the
    handler goes on after it. *)
Definition invoke (cb : callback) (a : action) : list action * bool :=
  match cb with
  | Absent => ([], true)
  | Given throws => ([a], negb throws)
  end.

Definition is_type (name : string) (t : option json) : bool :=
  match t with
  | Some (JString s) => String.eqb s name
  | _ => false
  end.

Section Parser.

(** [JSON.parse], which the platform provides. *)
Variable JSON_parse : string -> result json.

(** [handleJsonMessage(data, callbacks, dataChannel)]; [hasChannel] tells
    whether a data channel was passed.  It gives what the handler did and
    what it returned. *)
Definition handleJsonMessage (data : string) (cbs : callbacks)
           (hasChannel : bool) : list action * bool :=
  match JSON_parse data with
  | Throw _ => ([], false)
  | Ok message =>
      match get "type" message with
      | Throw _ => ([], false)
      | Ok type =>
          if is_type "metadata" type then
            invoke (onMetadata cbs) (MetadataCalled message)
          else if is_type "error" type then
            let text :=
              match get "message" message with
              | Ok (Some m) =>
                  if truthy (Some m) then m
                  else JString "An error occurred while streaming"
              | _ => JString "An error occurred while streaming"
              end in
            let '(done, went_on) := invoke (onError cbs) (ErrorCalled text) in
            if went_on
            then (done ++ (if hasChannel then [ChannelClosed] else []), true)
            else (done, false)
          else if is_type "complete" type then
            invoke (onComplete cbs) CompleteCalled
          else ([], true)
      end
  end.

End Parser.

Definition is_call (a : action) : bool :=
  match a with
  | ChannelClosed => false
  | _ => true
  end.

(** Callbacks that are all given and return. *)
Definition plain_callbacks : callbacks :=
  {| onMetadata := Given false; onError := Given false;
     onComplete := Given false |}.

End Messages.

(** * More of the decoder: accumulation and decode triggers *)

Module DecoderExt.
Import Decoder.

(** The chunks received since the last reset, in arrival order. *)
Definition chunks_of (evs : list decoder_event) : list bytes :=
  fold_left (fun chunks ev =>
               match ev with
               | AddChunk arrayBuffer _ => chunks ++ [arrayBuffer]
               | Reset => []
               | _ => chunks
               end) evs [].

(** The size at which the estimate reaches the buffering threshold:
    10 seconds at 12 KiB per second. *)
Definition THRESHOLD_BYTES : Z := 10 * (12 * 1024).

(** The bytes accumulated once [arrayBuffer] has been added. *)
Definition bytes_with (arrayBuffer : bytes) (d : decoder) : Z :=
  Z.of_nat (List.length (List.concat (rawChunks d ++ [arrayBuffer]))).

(** Three bytes are submitted for decoding; the decoder is reset before
    the decode settles; one byte arrives and a decode is forced. *)
Definition second_decode : list decoder_event :=
  awaiting_decode ++ [Reset; AddChunk ["x"%byte] None; TryDecode true None].

End DecoderExt.

(** * More of playback: what its states have in common *)

Module PlaybackExt.
Import Playback.

(** The playing flag and the source ref agree, and playing excludes
    paused. *)
Definition coherent (p : playback) : Prop :=
  (isPlaying p = true <-> sourceNode p <> None)
  /\ (isPlaying p = true -> isPaused p = false).

End PlaybackExt.

(** * The audio context manager (utils/AudioContextManager) *)

Module ContextManager.

(** An [AudioContext]: which one it is, and its state. *)
Record context : Type := { ctx_id : nat; ctx_state : context_state }.

(** [this.context], and how many contexts were constructed so far. *)
Record manager : Type := { current : option context; constructed : nat }.

(** [new AudioContextManager()] *)
Definition new_manager : manager := {| current := None; constructed := 0 |}.

Definition is_closed (c : context) : bool :=
  match ctx_state c with Closed => true | _ => false end.

(** [ensureContext()].  The platform decides whether a context it
    constructs starts suspended (it does until the user has interacted)
    and whether [resume()] succeeds; a failed resume is caught and leaves
    the context suspended. *)
Definition ensureContext (starts_suspended resume_ok : bool) (m : manager)
  : manager * context :=
  let kept :=                           (* recreate context if closed *)
    match current m with
    | Some c => if is_closed c then None else Some c
    | None => None
    end in
  let '(c, n) :=                        (* create new context if needed *)
    match kept with
    | Some c => (c, constructed m)
    | None =>
        ({| ctx_id := constructed m;
            ctx_state := if starts_suspended then Suspended else Running |},
         S (constructed m))
    end in
  let c :=                              (* resume if suspended *)
    match ctx_state c with
    | Suspended =>
        if resume_ok then {| ctx_id := ctx_id c; ctx_state := Running |}
        else c
    | _ => c
    end in
  ({| current := Some c; constructed := n |}, c).

(** [getContext()] *)
Definition getContext (m : manager) : option context := current m.

(** [isReady()] *)
Definition isReady (m : manager) : bool :=
  match current m with
  | Some c => negb (is_closed c)
  | None => false
  end.

(** [suspend()] *)
Definition suspend (m : manager) : manager :=
  match current m with
  | Some {| ctx_id := i; ctx_state := Running |} =>
      {| current := Some {| ctx_id := i; ctx_state := Suspended |};
         constructed := constructed m |}
  | _ => m
  end.

(** [close()] *)
Definition close (m : manager) : manager :=
  match current m with
  | Some _ => {| current := None; constructed := constructed m |}
  | None => m
  end.

(** The calls of a manager's user, with what the platform answers. *)
Inductive call : Type :=
| Ensure (starts_suspended resume_ok : bool)
| Suspend
| Close.

Definition perform (k : call) (m : manager) : manager :=
  match k with
  | Ensure starts_suspended resume_ok =>
      fst (ensureContext starts_suspended resume_ok m)
  | Suspend => suspend m
  | Close => close m
  end.

Definition after_calls (ks : list call) : manager :=
  fold_left (fun m k => perform k m) ks new_manager.

End ContextManager.

(** * The buffering indicator (components/BufferingIndicator.jsx) *)

Module Indicator.

Local Open Scope Q_scope.

(** [progress] of the component: a percentage. *)
Definition progress (bufferedSeconds thresholdSeconds : Q) : Q :=
  Qmin ((bufferedSeconds / thresholdSeconds) * 100) 100.

End Indicator.

(** * The player as a whole (hooks/useAudioStream and its handlers) *)

Module App.
Import Playback.

(** The values of the render a handler was created in, which it still
    sees after its [await]s. *)
Record render : Type := {
  seen_isConnected : bool;
  seen_isConnecting : bool;
  seen_isPaused : bool;
  seen_bufferedSeconds : Q
}.

(** What is suspended and will go on later: [handlePlay] at
    [await ensureContextReady()] and at [await tryDecode(true)], [play] at
    [await ensureContext()], and the timeout that [retry] sets. *)
Inductive task : Type :=
| HandlePlay_ensured (seen : render)
| HandlePlay_decoded (seen : render)
| Play_ensured (audioBuffer : AudioBuffer)
| Retry_timeout.

(** The three hooks [useAudioStream] ties together ([useAudioPlayback],
    [useAudioDecoder], [useWebRTCConnection]), its own [error] state, the
    ref of [useBufferReplacement], whether [connect] has made a peer
    connection and a data channel yet, and the suspended tasks, oldest
    first. *)
Record app : Type := {
  audioPlayback : playback;
  audioDecoder : Decoder.decoder;
  webrtc : Connection.conn;
  error : option Messages.json;
  lastBufferDuration : Q;            (* lastBufferDurationRef.current *)
  hasConnection : bool;
  tasks : list task
}.

(** The hook once it is mounted: [useAudioStreamInit] has called
    [ensureContextReady()]. *)
Definition started : app :=
  {| audioPlayback := ensureContext mounted;
     audioDecoder := Decoder.empty_decoder;
     webrtc := Connection.fresh; error := None;
     lastBufferDuration := 0; hasConnection := false; tasks := [] |}.

Definition with_playback (p : playback) (a : app) : app :=
  {| audioPlayback := p; audioDecoder := audioDecoder a;
     webrtc := webrtc a; error := error a;
     lastBufferDuration := lastBufferDuration a;
     hasConnection := hasConnection a; tasks := tasks a |}.

Definition with_decoder (d : Decoder.decoder) (a : app) : app :=
  {| audioPlayback := audioPlayback a; audioDecoder := d;
     webrtc := webrtc a; error := error a;
     lastBufferDuration := lastBufferDuration a;
     hasConnection := hasConnection a; tasks := tasks a |}.



Definition with_lastBufferDuration (last : Q) (a : app) : app :=
  {| audioPlayback := audioPlayback a; audioDecoder := audioDecoder a;
     webrtc := webrtc a; error := error a;
     lastBufferDuration := last;
     hasConnection := hasConnection a; tasks := tasks a |}.

Definition with_tasks (ts : list task) (a : app) : app :=
  {| audioPlayback := audioPlayback a; audioDecoder := audioDecoder a;
     webrtc := webrtc a; error := error a;
     lastBufferDuration := lastBufferDuration a;
     hasConnection := hasConnection a; tasks := ts |}.

Definition suspend_task (t : task) (a : app) : app :=
  with_tasks (tasks a ++ [t]) a.

(** A call into the decoder, which may await [ensureContextReady()], that
    is the context manager of the playback hook; when it has (the decoder
    then holds the context), the manager has been asked. *)
Definition decoder_call
           (f : option Decoder.ensure_outcome -> Decoder.decoder
                -> Decoder.decoder) (a : app) : app :=
  let ready := ensureContext (audioPlayback a) in
  let ensure :=
    match context ready with
    | Some ctx => Some (Decoder.ContextReady ctx)
    | None => Some Decoder.EnsureThrows
    end in
  let d := f ensure (audioDecoder a) in
  let asked :=
    negb (Decoder.is_some (Decoder.audioContext (audioDecoder a)))
    && Decoder.is_some (Decoder.audioContext d) in
  with_decoder d (if asked then with_playback ready a else a).

(** [tryDecode(forceMode)] up to the call of [decodeAudioData]. *)
Definition tryDecode (forceMode : bool) (a : app) : app :=
  decoder_call (fun ensure d =>
                  fst (Decoder.tryDecode_begin forceMode ensure d)) a.




(** A call of [connect(options)], up to its first [await]. *)
Definition call_connect (isAuto : bool) (a : app) : app :=
  {| audioPlayback := audioPlayback a; audioDecoder := audioDecoder a;
     webrtc := Connection.connect isAuto (webrtc a); error := error a;
     lastBufferDuration := lastBufferDuration a;
     hasConnection := true; tasks := tasks a |}.

(** A call of [play(audioBuffer)], up to its [await ensureContext()]. *)
Definition call_play (audioBuffer : option AudioBuffer) (a : app) : app :=
  match audioBuffer with
  | None => a
  | Some buffer =>
      suspend_task (Play_ensured buffer)
        (with_playback (ensureContext (audioPlayback a)) a)
  end.

(** [handlePlay] from [const buffer = getDecodedBuffer()] on. *)
Definition handlePlay_decided (seen : render) (a : app) : app :=
  let buffer := Decoder.getDecodedBuffer (audioDecoder a) in
  if seen_isPaused seen then call_play buffer a
  else if Qle_bool bufferThresholdSeconds (seen_bufferedSeconds seen)
          && Decoder.is_some buffer
  then call_play buffer a
  else with_playback (setIsBuffering true (audioPlayback a)) a.

(** [handlePlay] after [await ensureContextReady()]. *)
Definition handlePlay_ensured (seen : render) (a : app) : app :=
  if negb (seen_isConnected seen) && negb (seen_isConnecting seen) then
    call_connect false
      (with_playback (setIsBuffering true (audioPlayback a)) a)
  else if negb (Decoder.hasDecodedBuffer (audioDecoder a))
          && Decoder.is_some (Decoder.accumulatedBuffer (audioDecoder a))
  then suspend_task (HandlePlay_decoded seen) (tryDecode true a)
  else handlePlay_decided seen a.



(** [handleStop]: [stop(); disconnect(); resetDecoder();
    setIsBuffering(false); setError(null)]. *)
Definition handleStop (a : app) : app :=
  {| audioPlayback := setIsBuffering false (stop (audioPlayback a));
     audioDecoder := Decoder.reset (audioDecoder a);
     webrtc := Connection.disconnect (webrtc a);
     error := None;
     lastBufferDuration := lastBufferDuration a;
     hasConnection := hasConnection a; tasks := tasks a |}.


(** A suspended task goes on; [now] is the clock when it does. *)
Definition resume (i : nat) (now : Q) (a : app) : app :=
  match nth_error (tasks a) i with
  | None => a
  | Some t =>
      let a1 := with_tasks (without i (tasks a)) a in
      match t with
      | HandlePlay_ensured seen => handlePlay_ensured seen a1
      | HandlePlay_decoded seen => handlePlay_decided seen a1
      | Play_ensured buffer =>
          with_playback
            (fst (play (Some buffer) None now (audioPlayback a1))) a1
      | Retry_timeout => call_connect false a1
      end
  end.







(** The effects of [useAudioStream] after a render, in the order the hook
    declares them; the values named in the source are those of the render,
    which is the state the effects find. *)
Definition effects (now : Q) (a : app) : app :=
  let seen := audioPlayback a in
  let d := audioDecoder a in
  let a1 :=                         (* useAutoStartPlayback, first effect *)
    if shouldAutoStart d seen
    then call_play (Decoder.getDecodedBuffer d)
           (with_playback (setIsBuffering false (audioPlayback a)) a)
    else a in
  let a2 :=                         (* useAutoStartPlayback, second effect *)
    with_playback (clearBuffering_effect seen d (audioPlayback a1)) a1 in
  let a3 :=                         (* useBufferReplacement, first effect *)
    match replacement_due now d (lastBufferDuration a2) (audioPlayback a2)
    with
    | Some buffer =>
        call_play (Some buffer) (with_lastBufferDuration (duration buffer) a2)
    | None => a2
    end in
  let a4 :=                         (* useBufferReplacement, second effect *)
    if negb (isPlaying seen) then with_lastBufferDuration 0 a3 else a3 in
  if Connection.isConnected (webrtc a)   (* auto-start buffering *)
     && negb (isPlaying seen) && negb (isPaused seen)
     && Qeq_bool (Decoder.bufferedSeconds d) 0
  then with_playback (setIsBuffering true (audioPlayback a4)) a4
  else a4.



Section Parser.

(** [JSON.parse], which the platform provides. *)
Variable JSON_parse : string -> result Messages.json.




End Parser.



End App.

(** * Facts about the chunk sender *)

Module SenderFacts.
Import Sender.

(** ** Chunk arithmetic *)

Lemma Math_ceil_div_pos (a b : Z) :
  0 < b -> Math_ceil_div a b = (a + b - 1) / b.
Proof.
  intros Hb. unfold Math_ceil_div, Qceiling, Qfloor.
  destruct b as [|p|p]; try lia.
  cbn. rewrite Z.mul_1_r.
  assert (Hp : 0 < Z.pos p) by lia.
  pose proof (Z.div_mod (- a) (Z.pos p) ltac:(lia)) as Hd.
  pose proof (Z.mod_pos_bound (- a) (Z.pos p) Hp) as Hm.
  apply Z.div_unique with (r := Z.pos p - 1 - (- a) mod Z.pos p); nia.
Qed.

Lemma totalChunks_eq (buf : bytes) :
  totalChunks buf = (byteLength buf + 65535) / 65536.
Proof.
  unfold totalChunks. rewrite Math_ceil_div_pos by (unfold CHUNK_SIZE; lia).
  unfold CHUNK_SIZE. f_equal. lia.
Qed.

Lemma byteLength_nonneg (buf : bytes) : 0 <= byteLength buf.
Proof. unfold byteLength. lia. Qed.

Lemma totalChunks_nonneg (buf : bytes) : 0 <= totalChunks buf.
Proof.
  rewrite totalChunks_eq. pose proof (byteLength_nonneg buf).
  apply Z.div_pos; lia.
Qed.

Lemma totalChunks_zero_iff (buf : bytes) : totalChunks buf = 0 <-> buf = [].
Proof.
  rewrite totalChunks_eq. unfold byteLength. split.
  - intros H. destruct buf as [|b buf]; [reflexivity|]. exfalso.
    cbn [List.length] in H.
    assert (1 <= (Z.of_nat (S (List.length buf)) + 65535) / 65536).
    { apply Z.div_le_lower_bound; lia. }
    lia.
  - intros ->. reflexivity.
Qed.

(** Chunk [i] starts inside the asset whenever [i] is a valid index. *)
Lemma chunk_start_in_range (buf : bytes) (i : Z) :
  0 <= i < totalChunks buf -> i * CHUNK_SIZE < byteLength buf.
Proof.
  rewrite totalChunks_eq. unfold CHUNK_SIZE. intros [H0 H1].
  pose proof (byteLength_nonneg buf).
  assert (i + 1 <= (byteLength buf + 65535) / 65536) as H2 by lia.
  pose proof (Z.mul_div_le (byteLength buf + 65535) 65536 ltac:(lia)).
  nia.
Qed.

Lemma length_slice {A : Type} (l : list A) (a b : Z) :
  0 <= a <= b -> b <= Z.of_nat (List.length l) ->
  Z.of_nat (List.length (slice l a b)) = b - a.
Proof.
  intros Hab Hb. unfold slice.
  rewrite length_firstn, length_skipn. lia.
Qed.

(** The size of chunk [i]: a full chunk, or what is left of the asset. *)
Lemma length_chunkAt (buf : bytes) (i : Z) :
  0 <= i < totalChunks buf ->
  Z.of_nat (List.length (chunkAt buf i))
  = Z.min CHUNK_SIZE (byteLength buf - i * CHUNK_SIZE).
Proof.
  intros Hi. pose proof (chunk_start_in_range buf i Hi) as Hs.
  unfold chunkAt. cbv zeta. rewrite length_slice.
  - lia.
  - unfold CHUNK_SIZE in *. lia.
  - unfold byteLength. lia.
Qed.


Lemma chunk_messages_S (buf : bytes) (k : nat) :
  chunk_messages buf (S k)
  = chunk_messages buf k ++ [MsgChunk (chunkAt buf (Z.of_nat k))].
Proof.
  unfold chunk_messages. rewrite seq_S, map_app. reflexivity.
Qed.

(** [sendChunk] in a steady environment, cursor inside the asset. *)
Lemma sendChunk_steady (buf : bytes) (e : env) (s : session) :
  steady e -> streamingActive s = true -> chunkIndex s < totalChunks buf ->
  sendChunk buf e s =
  Returns (if gauge_below e
      then
        let s1 := {| streamingActive := true;
                     chunkTimeoutId := chunkTimeoutId s;
                     chunkIndex := chunkIndex s + 1; armed := armed s;
                     nextTimerId := nextTimerId s;
                     sent := sent s ++ [MsgChunk (chunkAt buf (chunkIndex s))];
                     channelClosed := channelClosed s |} in
        if chunkIndex s + 1 <? totalChunks buf
        then set_timeout SEND_INTERVAL s1 else s1
      else set_timeout SEND_INTERVAL s).
Proof.
  intros (Hr & Hc & Ht) Ha Hi. unfold sendChunk, gauge_below, dc_send.
  rewrite Ha, Hr, Hc, Ht. cbn [negb orb not_open].
  destruct (totalChunks buf <=? chunkIndex s) eqn:E; [lia|].
  destruct (bufferedAmount e <? HIGH_WATER_MARK) eqn:G.
  - cbn [set_chunkIndex chunkIndex streamingActive chunkTimeoutId armed
         nextTimerId sent channelClosed].
    destruct (chunkIndex s + 1 <? totalChunks buf); reflexivity.
  - rewrite Ha. destruct (chunkIndex s <? totalChunks buf) eqn:E2; [|lia].
    reflexivity.
Qed.

Lemma timer_step (buf : bytes) (k : nat) (e : env) (s : session) :
  after_chunks buf k s -> steady e ->
  after_chunks buf (advance buf k e) (timer_fires buf e s).
Proof.
  intros (Hk & Ha & Hi & Hs & Hc & Harm) He. unfold advance, timer_fires.
  destruct (Z.of_nat k <? totalChunks buf) eqn:Ek.
  - destruct Harm as (id & Harm & Hid). rewrite Harm.
    rewrite sendChunk_steady; cbn [streamingActive chunkIndex]; auto; try lia.
    cbn [andb final]. destruct (gauge_below e).
    + cbn zeta. cbn [chunkTimeoutId chunkIndex armed nextTimerId sent
                     channelClosed].
      rewrite Hi, Hs, <- app_comm_cons, <- chunk_messages_S.
      replace (Z.of_nat k + 1) with (Z.of_nat (S k)) by lia.
      destruct (Z.of_nat (S k) <? totalChunks buf) eqn:E1;
        unfold after_chunks; session_fields; rewrite ?E1;
        repeat split; auto; try lia; eauto.
    + unfold after_chunks; session_fields; rewrite Ek;
      repeat split; auto; eauto.
  - rewrite Harm. cbn [andb].
    unfold after_chunks. rewrite Ek. repeat split; auto.
Qed.

(** After [onopen] on a non-empty asset, in a steady environment. *)
Lemma onopen_nonempty (buf : bytes) (e0 : env) :
  buf <> [] -> steady e0 ->
  after_chunks buf (advance buf 0 e0) (onopen (FileRead buf) e0 initial).
Proof.
  intros Hne He.
  assert (Ht : 0 < totalChunks buf).
  { pose proof (totalChunks_nonneg buf).
    assert (totalChunks buf <> 0) by (rewrite totalChunks_zero_iff; exact Hne).
    lia. }
  pose proof He as (Hr & Hc & Hth).
  unfold onopen, dc_send at 1. rewrite Hth.
  rewrite sendChunk_steady; cbn [streamingActive chunkIndex set_chunkIndex initial]; auto.
  unfold advance. replace (Z.of_nat 0 <? totalChunks buf) with true by (symmetry; apply Z.ltb_lt; lia).
  cbn [andb]. destruct (gauge_below e0).
  - cbn zeta. cbn [chunkTimeoutId chunkIndex armed nextTimerId sent
                   channelClosed app].
    change (0 + 1) with (Z.of_nat 1).
    destruct (Z.of_nat 1 <? totalChunks buf) eqn:E1;
      unfold after_chunks; session_fields; rewrite ?E1;
      repeat split; auto; try lia; eauto.
  - unfold after_chunks; session_fields. cbn [app].
    replace (Z.of_nat 0 <? totalChunks buf) with true by (symmetry; apply Z.ltb_lt; lia).
    repeat split; auto; try lia; eauto.
Qed.


Lemma run_uninterrupted (buf : bytes) (evs : list event) :
  Forall uninterrupted evs ->
  forall (k : nat) (s : session),
    after_chunks buf k s ->
    after_chunks buf (cursor_after buf k evs) (run buf evs s).
Proof.
  induction 1 as [|ev evs Hev _ IH]; intros k s Hs; [exact Hs|].
  destruct ev; cbn in Hev; try contradiction.
  cbn [run fold_left handle cursor_after].
  apply IH. apply timer_step; assumption.
Qed.

Lemma cursor_after_min (buf : bytes) (evs : list event) :
  forall k : nat,
    Z.of_nat k <= totalChunks buf ->
    cursor_after buf k evs
    = Nat.min (Z.to_nat (totalChunks buf)) (k + sends_allowed evs).
Proof.
  induction evs as [|ev evs IH]; intros k Hk.
  - cbn. lia.
  - destruct ev; cbn [cursor_after sends_allowed]; try (apply IH; exact Hk).
    unfold advance.
    destruct (Z.of_nat k <? totalChunks buf) eqn:Ek; cbn [andb].
    + destruct (gauge_below e); rewrite IH; lia.
    + rewrite IH by exact Hk.
      assert (Z.of_nat k = totalChunks buf) by lia.
      destruct (gauge_below e); lia.
Qed.

Lemma firstn_seq_le (k n : nat) :
  forall a : nat, (k <= n)%nat -> firstn k (seq a n) = seq a k.
Proof.
  revert n. induction k as [|k IH]; intros n a Hk; [reflexivity|].
  destruct n as [|n]; [lia|].
  cbn [seq firstn]. f_equal. apply IH. lia.
Qed.

Lemma firstn_chunks (buf : bytes) (k : nat) :
  Z.of_nat k <= totalChunks buf ->
  map MsgChunk (firstn k (chunks buf)) = chunk_messages buf k.
Proof.
  intros Hk. unfold chunks, chunk_messages.
  rewrite firstn_map, firstn_seq_le, map_map by lia.
  reflexivity.
Qed.

Lemma nth_chunks (buf : bytes) (i : Z) :
  0 <= i < totalChunks buf ->
  nth (Z.to_nat i) (chunks buf) [] = chunkAt buf i.
Proof.
  intros Hi. unfold chunks.
  rewrite nth_indep with (d' := chunkAt buf (Z.of_nat 0))
    by (rewrite length_map, length_seq; lia).
  rewrite (map_nth (fun i => chunkAt buf (Z.of_nat i))).
  rewrite seq_nth by lia. f_equal. lia.
Qed.

(** The stream of the empty asset: metadata, then [complete] at once. *)
Lemma stream_empty (e0 : env) (evs : list event) :
  steady e0 ->
  sent (stream [] e0 evs) = [MsgMetadata 0 0 CHUNK_SIZE; MsgComplete]
  /\ armed (stream [] e0 evs) = None
  /\ chunkIndex (stream [] e0 evs) = 0.
Proof.
  intros (Hr & Hc & Ht). unfold stream.
  assert (Hs : onopen (FileRead []) e0 initial =
               {| streamingActive := false; chunkTimeoutId := None;
                  chunkIndex := 0; armed := None; nextTimerId := 1;
                  sent := [MsgMetadata 0 0 CHUNK_SIZE; MsgComplete];
                  channelClosed := false |}).
  { unfold onopen, sendChunk, dc_send. rewrite Ht, Hr, Hc. reflexivity. }
  rewrite Hs. clear Hs.
  set (s0 := {| streamingActive := false; chunkTimeoutId := None;
                chunkIndex := 0; armed := None; nextTimerId := 1;
                sent := [MsgMetadata 0 0 CHUNK_SIZE; MsgComplete];
                channelClosed := false |}).
  assert (Hfix : forall ev, handle [] ev s0 = s0).
  { intros [e| | |e]; cbn; try reflexivity.
    unfold onstatechange. destruct (not_open (readyState e)); reflexivity. }
  assert (Hrun : run [] evs s0 = s0).
  { induction evs as [|ev evs IH]; [reflexivity|].
    cbn [run fold_left]. rewrite Hfix. exact IH. }
  rewrite Hrun. repeat split; reflexivity.
Qed.

(** Shape of every uninterrupted stream of a non-empty asset. *)
Lemma stream_nonempty (buf : bytes) (e0 : env) (evs : list event) :
  buf <> [] -> steady e0 -> Forall uninterrupted evs ->
  after_chunks buf
    (Nat.min (Z.to_nat (totalChunks buf)) (sends_allowed (TimerFires e0 :: evs)))
    (stream buf e0 evs).
Proof.
  intros Hne He Hevs.
  pose proof (onopen_nonempty buf e0 Hne He) as H0.
  pose proof (run_uninterrupted buf evs Hevs _ _ H0) as H1.
  rewrite cursor_after_min in H1 by (destruct H0 as [H0 _]; exact H0).
  unfold stream.
  replace (sends_allowed (TimerFires e0 :: evs))
    with (advance buf 0 e0 + sends_allowed evs)%nat; [exact H1|].
  cbn [sends_allowed]. unfold advance.
  assert (0 < totalChunks buf).
  { pose proof (totalChunks_nonneg buf).
    assert (totalChunks buf <> 0) by (rewrite totalChunks_zero_iff; exact Hne).
    lia. }
  replace (Z.of_nat 0 <? totalChunks buf) with true
    by (symmetry; apply Z.ltb_lt; lia).
  cbn [andb]. destruct (gauge_below e0); reflexivity.
Qed.


Lemma firstn_add_skipn {A : Type} (a b : nat) :
  forall l : list A, firstn (a + b) l = firstn a l ++ firstn b (skipn a l).
Proof.
  induction a as [|a IH]; intros l; [reflexivity|].
  destruct l as [|x l]; cbn [Nat.add firstn skipn app].
  - rewrite firstn_nil. reflexivity.
  - f_equal. apply IH.
Qed.

Lemma concat_chunks_prefix (buf : bytes) (n : nat) :
  Z.of_nat n <= totalChunks buf ->
  concat (map (fun i => chunkAt buf (Z.of_nat i)) (seq 0 n))
  = firstn (Z.to_nat (Z.min (Z.of_nat n * CHUNK_SIZE) (byteLength buf))) buf.
Proof.
  induction n as [|n IH]; intros Hn.
  { pose proof (byteLength_nonneg buf).
    rewrite Z.min_l by (cbn; lia). reflexivity. }
  rewrite seq_S, map_app, concat_app, IH by lia. cbn [map concat Nat.add].
  rewrite app_nil_r.
  pose proof (chunk_start_in_range buf (Z.of_nat n) ltac:(lia)) as Hs.
  unfold chunkAt, slice. cbv zeta.
  rewrite Z.min_l by lia.
  rewrite <- firstn_add_skipn. f_equal. unfold CHUNK_SIZE in *. lia.
Qed.

(** Bounds that make [totalChunks] the ceiling of [byteLength / CHUNK_SIZE]. *)
Lemma totalChunks_bounds (buf : bytes) :
  (totalChunks buf - 1) * CHUNK_SIZE < byteLength buf
  <= totalChunks buf * CHUNK_SIZE.
Proof.
  rewrite totalChunks_eq. unfold CHUNK_SIZE.
  pose proof (Z.div_mod (byteLength buf + 65535) 65536 ltac:(lia)).
  pose proof (Z.mod_pos_bound (byteLength buf + 65535) 65536 ltac:(lia)).
  lia.
Qed.

(** The chunks, concatenated in index order, are the asset. *)
Lemma concat_chunks (buf : bytes) : concat (chunks buf) = buf.
Proof.
  unfold chunks. pose proof (totalChunks_nonneg buf) as H0.
  rewrite concat_chunks_prefix by lia.
  apply firstn_all2.
  pose proof (totalChunks_bounds buf) as Ht.
  unfold byteLength, CHUNK_SIZE in *. lia.
Qed.

(** No uninterrupted stream of a non-empty asset ever carries [complete]:
    the callback that would send it is never scheduled. *)
Lemma nonempty_stream_never_completes (buf : bytes) (e0 : env)
      (evs : list event) :
  buf <> [] -> steady e0 -> Forall uninterrupted evs ->
  ~ In MsgComplete (sent (stream buf e0 evs)).
Proof.
  intros Hne He Hevs.
  destruct (stream_nonempty buf e0 evs Hne He Hevs)
    as (_ & _ & _ & Hs & _).
  rewrite Hs. unfold chunk_messages. intros [H|H]; [discriminate|].
  apply in_map_iff in H. destruct H as (i & H & _). discriminate.
Qed.


Lemma sent_uninterrupted (buf : bytes) (e0 : env) (evs : list event) :
  steady e0 -> Forall uninterrupted evs ->
  let k := Nat.min (Z.to_nat (totalChunks buf))
                   (sends_allowed (TimerFires e0 :: evs)) in
  sent (stream buf e0 evs)
  = MsgMetadata (byteLength buf) (totalChunks buf) CHUNK_SIZE
    :: map MsgChunk (firstn k (chunks buf))
    ++ (if totalChunks buf =? 0 then [MsgComplete] else [])
  /\ chunkIndex (stream buf e0 evs) = Z.of_nat k.
Proof.
  intros He Hevs k. destruct buf as [|b buf].
  - destruct (stream_empty e0 evs He) as (Hs & _ & Hi).
    rewrite Hs, Hi. split; reflexivity.
  - set (asset := b :: buf) in *.
    assert (Hne : asset <> []) by discriminate.
    destruct (stream_nonempty asset e0 evs Hne He Hevs)
      as (Hk & _ & Hi & Hs & _).
    fold k in Hk, Hi, Hs. rewrite Hs, Hi, firstn_chunks by exact Hk.
    assert (Ht : totalChunks asset <> 0)
      by (rewrite totalChunks_zero_iff; exact Hne).
    apply Z.eqb_neq in Ht. rewrite Ht, app_nil_r. split; reflexivity.
Qed.

(** C5.  In an uninterrupted stream the sender first sends one metadata
    message with [totalSize] the asset's byte count, [totalChunks] the
    ceiling of [totalSize / 65536] and [chunkSize = 65536]; the binary
    messages that follow are the chunks of index [0, 1, ..., k-1] in that
    order, each once, where [k] is the number of [sendChunk] calls that
    found the gauge below the mark (at most [totalChunks], and all of them
    once there were that many such calls).  Chunk [i] is the slice
    [i*65536, min((i+1)*65536, totalSize)), and the chunks put together are
    the asset.  An asset of 200000 bytes has 4 chunks, of 65536, 65536,
    65536 and 3392 bytes. *)
Theorem metadata_then_chunks_in_order
        (buf : bytes) (e0 : env) (evs : list event) :
  steady e0 -> Forall uninterrupted evs ->
  let total := totalChunks buf in
  let k := Nat.min (Z.to_nat total) (sends_allowed (TimerFires e0 :: evs)) in
  (total - 1) * 65536 < byteLength buf <= total * 65536
  /\ sent (stream buf e0 evs)
     = MsgMetadata (byteLength buf) total 65536
       :: map MsgChunk (firstn k (chunks buf))
       ++ (if total =? 0 then [MsgComplete] else [])
  /\ chunkIndex (stream buf e0 evs) = Z.of_nat k
  /\ List.length (chunks buf) = Z.to_nat total
  /\ (forall i : Z, 0 <= i < total ->
        nth (Z.to_nat i) (chunks buf) []
        = slice buf (i * 65536) (Z.min ((i + 1) * 65536) (byteLength buf)))
  /\ List.concat (chunks buf) = buf
  /\ (byteLength buf = 200000 ->
        total = 4
        /\ map (fun c => Z.of_nat (List.length c)) (chunks buf)
           = [65536; 65536; 65536; 3392]).
Proof.
  intros He Hevs total k.
  split; [exact (totalChunks_bounds buf)|].
  destruct (sent_uninterrupted buf e0 evs He Hevs) as [Hs Hi].
  split; [exact Hs|]. split; [exact Hi|].
  split; [unfold chunks; rewrite length_map, length_seq; reflexivity|].
  split.
  { intros i Hi'. rewrite nth_chunks by exact Hi'.
    unfold chunkAt, CHUNK_SIZE. cbv zeta. f_equal. f_equal. lia. }
  split; [apply concat_chunks|].
  intros Hlen.
  assert (Ht : total = 4).
  { unfold total. rewrite totalChunks_eq, Hlen. reflexivity. }
  split; [exact Ht|].
  unfold chunks. fold total. rewrite Ht.
  change (seq 0 (Z.to_nat 4)) with [0; 1; 2; 3]%nat.
  cbn [map].
  rewrite !length_chunkAt by (fold total; rewrite Ht; lia).
  rewrite Hlen. reflexivity.
Qed.

Lemma metadata_then_chunks_in_order_witness :
  sent (stream abc idle_env [TimerFires idle_env])
  = [MsgMetadata 3 1 65536; MsgChunk abc].
Proof.
  assert (H0 : steady idle_env) by (repeat split).
  assert (H1 : Forall uninterrupted [TimerFires idle_env])
    by (constructor; [exact H0 | constructor]).
  destruct (metadata_then_chunks_in_order abc idle_env
              [TimerFires idle_env] H0 H1) as (_ & Hs & _).
  exact Hs.
Defined.

Lemma byteLength_asset_200000 : byteLength asset_200000 = 200000.
Proof.
  unfold byteLength, asset_200000. rewrite repeat_length. reflexivity.
Qed.

(** C1 (what the code does).  The 200000-byte asset is streamed over a
    channel that stays open, with an empty gauge and no failing send.
    After the fourth (final) chunk the session holds no armed timer, so
    [sendChunk] is never called again: the messages sent are the metadata
    and the four chunks, and no [complete] message is among them. *)
Theorem complete_not_sent_after_final_chunk :
  let s := stream asset_200000 idle_env (repeat (TimerFires idle_env) 10) in
  sent s = MsgMetadata 200000 4 65536 :: map MsgChunk (chunks asset_200000)
  /\ ~ In MsgComplete (sent s)
  /\ chunkIndex s = totalChunks asset_200000
  /\ armed s = None
  /\ (forall e : env, timer_fires asset_200000 e s = s).
Proof.
  intros s.
  assert (H0 : steady idle_env) by (repeat split).
  assert (H1 : Forall uninterrupted (repeat (TimerFires idle_env) 10))
    by (repeat constructor).
  assert (Hne : asset_200000 <> []).
  { intros H. pose proof byteLength_asset_200000 as L.
    rewrite H in L. discriminate L. }
  assert (Ht : totalChunks asset_200000 = 4).
  { rewrite totalChunks_eq, byteLength_asset_200000. reflexivity. }
  pose proof (stream_nonempty _ _ _ Hne H0 H1) as Hs.
  rewrite Ht in Hs.
  change (Nat.min _ _) with 4%nat in Hs.
  destruct Hs as (_ & _ & Hi & Hs & _ & Ha). fold s in Hi, Hs, Ha.
  rewrite Ht in Ha. change (Z.of_nat 4 <? 4) with false in Ha.
  assert (Hc : chunk_messages asset_200000 4
               = map MsgChunk (chunks asset_200000)).
  { rewrite <- firstn_chunks by (rewrite Ht; reflexivity).
    unfold chunks. rewrite Ht.
    rewrite firstn_all2 by (rewrite length_map, length_seq; reflexivity).
    reflexivity. }
  split; [rewrite Hs, Hc, byteLength_asset_200000, Ht; reflexivity|].
  split; [exact (nonempty_stream_never_completes _ _ _ Hne H0 H1)|].
  split; [rewrite Hi, Ht; reflexivity|].
  split; [exact Ha|].
  intros e. unfold timer_fires. rewrite Ha. reflexivity.
Qed.


(** At or above the mark [sendChunk] sends no chunk and leaves the cursor,
    in any session and however the call ends. *)
Lemma sendChunk_gated (buf : bytes) (e : env) (s : session) :
  HIGH_WATER_MARK <= bufferedAmount e ->
  let s' := final (sendChunk buf e s) in
  (sent s' = sent s \/ sent s' = sent s ++ [MsgComplete])
  /\ chunkIndex s' = chunkIndex s.
Proof.
  intros Hg. unfold sendChunk.
  destruct (negb (streamingActive s) || not_open (readyState e)
            || connection_down (connectionState e)).
  - unfold clear_timeout. destruct (chunkTimeoutId s); cbn; auto.
  - destruct (totalChunks buf <=? chunkIndex s).
    + unfold dc_send. destruct (sendThrows e); cbn; auto.
    + replace (bufferedAmount e <? HIGH_WATER_MARK) with false
        by (symmetry; apply Z.ltb_ge; exact Hg).
      destruct ((chunkIndex s <? totalChunks buf) && streamingActive s);
        cbn; auto.
Qed.

Lemma firstn_chunks_seq (buf : bytes) (k : nat) :
  Z.of_nat k <= totalChunks buf ->
  firstn k (chunks buf) = map (fun i => chunkAt buf (Z.of_nat i)) (seq 0 k).
Proof.
  intros Hk. unfold chunks. rewrite firstn_map, firstn_seq_le by lia.
  reflexivity.
Qed.

Lemma payloads_app (l1 l2 : list message) :
  payloads (l1 ++ l2) = payloads l1 ++ payloads l2.
Proof. unfold payloads. apply flat_map_app. Qed.

Lemma in_order_ext (buf : bytes) (s s' : session) :
  chunkIndex s' = chunkIndex s -> payloads (sent s') = payloads (sent s) ->
  in_order buf s -> in_order buf s'.
Proof. unfold in_order. intros -> ->. auto. Qed.

Lemma in_order_clear_timeout (buf : bytes) (s : session) :
  in_order buf s -> in_order buf (clear_timeout s).
Proof.
  apply in_order_ext; unfold clear_timeout;
    destruct (chunkTimeoutId s); reflexivity.
Qed.

(** Whatever the environment and however the call ends, [sendChunk] keeps
    the payloads sent in step with the cursor. *)
Lemma sendChunk_in_order (buf : bytes) (e : env) (s : session) :
  in_order buf s -> in_order buf (final (sendChunk buf e s)).
Proof.
  intros Hs. unfold sendChunk.
  destruct (negb (streamingActive s) || not_open (readyState e)
            || connection_down (connectionState e)).
  { apply in_order_clear_timeout. exact Hs. }
  destruct (totalChunks buf <=? chunkIndex s) eqn:E.
  { unfold dc_send. destruct (sendThrows e); cbn [final]; [exact Hs|].
    revert Hs. apply in_order_ext; cbn; [reflexivity|].
    rewrite payloads_app. cbn. apply app_nil_r. }
  assert (Hadv : in_order buf
            {| streamingActive := streamingActive s;
               chunkTimeoutId := chunkTimeoutId s;
               chunkIndex := chunkIndex s + 1; armed := armed s;
               nextTimerId := nextTimerId s;
               sent := sent s ++ [MsgChunk (chunkAt buf (chunkIndex s))];
               channelClosed := channelClosed s |}).
  { destruct Hs as [Hi Hp]. unfold in_order. cbn [chunkIndex sent].
    split; [lia|]. rewrite payloads_app, Hp. cbn [payloads flat_map app].
    replace (Z.to_nat (chunkIndex s + 1)) with (S (Z.to_nat (chunkIndex s)))
      by lia.
    rewrite !firstn_chunks_seq by lia.
    rewrite seq_S, map_app. cbn [map Nat.add]. do 3 f_equal. lia. }
  unfold dc_send.
  destruct (bufferedAmount e <? HIGH_WATER_MARK).
  - destruct (sendThrows e).
    + cbn [final]. revert Hs. apply in_order_ext; reflexivity.
    + cbn [set_chunkIndex chunkIndex streamingActive chunkTimeoutId armed
           nextTimerId sent channelClosed].
      destruct (_ && _); cbn [final]; [|exact Hadv].
      revert Hadv. apply in_order_ext; reflexivity.
  - destruct (_ && _); cbn [final]; [|exact Hs].
    revert Hs. apply in_order_ext; reflexivity.
Qed.

Lemma dc_send_text_in_order (buf : bytes) (e : env) (m : message)
      (s : session) :
  payloads [m] = [] ->
  in_order buf s -> in_order buf (final (dc_send e m s)).
Proof.
  intros Hm. unfold dc_send. destruct (sendThrows e); cbn [final]; [auto|].
  apply in_order_ext; cbn [chunkIndex sent]; [reflexivity|].
  rewrite payloads_app, Hm. apply app_nil_r.
Qed.

Lemma onopen_catch_in_order (buf : bytes) (e : env) (msg : string)
      (s : session) :
  in_order buf s -> in_order buf (onopen_catch e msg s).
Proof.
  intros Hs. unfold onopen_catch.
  assert (H1 : in_order buf (clear_timeout (set_active false s))).
  { apply in_order_clear_timeout. revert Hs.
    apply in_order_ext; reflexivity. }
  apply (dc_send_text_in_order buf e (MsgError msg)) in H1; [|reflexivity].
  revert H1. apply in_order_ext; reflexivity.
Qed.

(** In every stream, interrupted or not, the payloads sent are the chunks
    below the cursor, each once and in index order. *)
Lemma stream_in_order (buf : bytes) (e0 : env) (evs : list event) :
  in_order buf (stream buf e0 evs).
Proof.
  unfold stream.
  pose proof (totalChunks_nonneg buf) as Hn.
  assert (H0 : in_order buf (onopen (FileRead buf) e0 initial)).
  { assert (Hi : in_order buf initial) by (split; [cbn; lia | reflexivity]).
    unfold onopen, dc_send at 1. destruct (sendThrows e0) eqn:Et.
    - apply onopen_catch_in_order. exact Hi.
    - set (s1 := set_chunkIndex 0 _).
      assert (H1 : in_order buf s1) by (split; [cbn; lia | reflexivity]).
      pose proof (sendChunk_in_order buf e0 s1 H1) as H2.
      destruct (sendChunk buf e0 s1) as [s'|msg s']; cbn [final] in H2.
      + exact H2.
      + apply onopen_catch_in_order. exact H2. }
  revert H0. generalize (onopen (FileRead buf) e0 initial).
  induction evs as [|ev evs IH]; intros s Hs; [exact Hs|].
  cbn [run fold_left]. apply IH.
  destruct ev as [e| | |e]; cbn [handle].
  - unfold timer_fires. destruct (armed s); [|exact Hs].
    apply sendChunk_in_order. revert Hs. apply in_order_ext; reflexivity.
  - apply in_order_clear_timeout. revert Hs. apply in_order_ext; reflexivity.
  - apply in_order_clear_timeout. revert Hs. apply in_order_ext; reflexivity.
  - unfold onstatechange. destruct (not_open (readyState e)); [|exact Hs].
    apply in_order_clear_timeout. revert Hs. apply in_order_ext; reflexivity.
Qed.

(** C7.  Flow control in an uninterrupted stream.  When the callback runs
    with the gauge at or above 262144 it sends nothing, leaves the cursor
    where it is and, while chunks remain, arms the 50 ms timer again; when
    it runs with the gauge below the mark and chunks remain, it sends the
    chunk at the cursor (the deferred one) and moves the cursor by one.
    In every stream, interrupted or not, the payloads sent so far are the
    chunks [0 .. cursor-1] in order: no index is skipped or sent twice.
    In any session, whatever its state and however the call ends,
    [sendChunk] sends no chunk and leaves the cursor when the gauge is at
    or above the mark. *)
Theorem flow_control_defers_same_chunk
        (buf : bytes) (e0 : env) (evs : list event) (e : env) :
  steady e0 -> Forall uninterrupted evs -> steady e ->
  let s := stream buf e0 evs in
  let s' := timer_fires buf e s in
  (262144 <= bufferedAmount e ->
     sent s' = sent s /\ chunkIndex s' = chunkIndex s
     /\ (chunkIndex s < totalChunks buf ->
         exists id : nat,
           armed s' = Some {| timer_id := id; timer_delay := 50 |}))
  /\ (bufferedAmount e < 262144 -> chunkIndex s < totalChunks buf ->
       sent s' = sent s ++ [MsgChunk (chunkAt buf (chunkIndex s))]
       /\ chunkIndex s' = chunkIndex s + 1)
  /\ (forall (e1 : env) (evs1 : list event),
        let s1 := stream buf e1 evs1 in
        0 <= chunkIndex s1 <= totalChunks buf
        /\ payloads (sent s1)
           = firstn (Z.to_nat (chunkIndex s1)) (chunks buf))
  /\ (forall (s1 : session) (e1 : env),
        262144 <= bufferedAmount e1 ->
        let s2 := final (sendChunk buf e1 s1) in
        (sent s2 = sent s1 \/ sent s2 = sent s1 ++ [MsgComplete])
        /\ chunkIndex s2 = chunkIndex s1).
Proof.
  intros He0 Hevs He s s'.
  assert (Hgen : forall (s1 : session) (e1 : env),
             262144 <= bufferedAmount e1 ->
             let s2 := final (sendChunk buf e1 s1) in
             (sent s2 = sent s1 \/ sent s2 = sent s1 ++ [MsgComplete])
             /\ chunkIndex s2 = chunkIndex s1)
    by (intros s1 e1; apply sendChunk_gated).
  destruct buf as [|b buf].
  - destruct (stream_empty e0 evs He0) as (Hs & Ha & Hi). fold s in Hs, Ha, Hi.
    assert (Hs' : s' = s) by (unfold s', timer_fires; rewrite Ha; reflexivity).
    rewrite Hs', Hi.
    change (totalChunks []) with 0.
    split; [|split; [|split]]; [repeat split; lia | lia | | exact Hgen].
    intros e1 evs1. apply stream_in_order.
  - set (asset := b :: buf) in *.
    assert (Hne : asset <> []) by discriminate.
    pose proof (stream_nonempty asset e0 evs Hne He0 Hevs) as Hk.
    fold s in Hk.
    set (k := Nat.min _ _) in Hk.
    pose proof (timer_step asset k e s Hk He) as Hk'. fold s' in Hk'.
    destruct Hk as (Hle & _ & Hi & Hs & _ & _).
    destruct Hk' as (_ & _ & Hi' & Hs' & _ & Ha').
    unfold advance, gauge_below, HIGH_WATER_MARK in Hi', Hs', Ha'.
    split; [|split; [|split]].
    + intros Hg.
      replace (bufferedAmount e <? 256 * 1024) with false in *
        by (symmetry; apply Z.ltb_ge; lia).
      rewrite andb_false_r in *.
      rewrite Hs, Hs', Hi, Hi'. repeat split.
      intros Hlt. apply Z.ltb_lt in Hlt. rewrite Hlt in Ha'.
      exact (let '(ex_intro _ id (conj H _)) := Ha' in ex_intro _ id H).
    + intros Hg Hlt. rewrite Hi in Hlt.
      replace (bufferedAmount e <? 256 * 1024) with true in *
        by (symmetry; apply Z.ltb_lt; lia).
      apply Z.ltb_lt in Hlt. rewrite Hlt in *. cbn [andb] in *.
      rewrite Hs, Hs', Hi, Hi', chunk_messages_S. split; [reflexivity|lia].
    + intros e1 evs1. apply stream_in_order.
    + exact Hgen.
Qed.

Lemma flow_control_defers_same_chunk_witness :
  let s := stream abc busy_env [TimerFires busy_env] in
  sent (timer_fires abc busy_env s) = sent s
  /\ sent (timer_fires abc idle_env s) = sent s ++ [MsgChunk abc].
Proof.
  assert (Hb : steady busy_env) by (repeat split).
  assert (Hi : steady idle_env) by (repeat split).
  assert (H1 : Forall uninterrupted [TimerFires busy_env])
    by (constructor; [exact Hb | constructor]).
  split.
  - destruct (flow_control_defers_same_chunk abc busy_env
                [TimerFires busy_env] busy_env Hb H1 Hb) as (H & _).
    destruct (H ltac:(cbn; lia)) as (Hs & _). exact Hs.
  - destruct (flow_control_defers_same_chunk abc busy_env
                [TimerFires busy_env] idle_env Hb H1 Hi) as (_ & H & _).
    destruct (H ltac:(cbn; lia) ltac:(reflexivity)) as (Hs & _). exact Hs.
Defined.

End SenderFacts.

(** * Facts about the connection lifecycle *)

Module ConnectionFacts.
Import Connection.

(** The delay before retry number [n]: one second doubled [n - 1] times,
    capped at five seconds. *)
Lemma backoff_delay_values :
  backoff_delay 1 = 1000 /\ backoff_delay 2 = 2000
  /\ backoff_delay 3 = 4000 /\ backoff_delay 4 = 5000.
Proof. repeat split; reflexivity. Qed.

Lemma backoff_delay_at_least_1000 (attempt : Z) :
  1 <= attempt -> 1000 <= backoff_delay attempt.
Proof.
  intros H. unfold backoff_delay.
  assert (0 < 2 ^ (attempt - 1)) by (apply Z.pow_pos_nonneg; lia).
  lia.
Qed.

(** A retry is scheduled, on an auto-triggered failure, as long as the
    counter is below the maximum: the counter goes up by one and the delay
    is that of the new count. *)
Lemma handleReconnect_auto (cfg : config) (c : conn) :
  manualDisconnect c = false ->
  reconnectAttempt c < maxReconnectAttempts cfg ->
  let c' := handleReconnect cfg true c in
  let timer := {| retry_id := S (List.length (scheduled c));
                  retry_delay := backoff_delay (reconnectAttempt c + 1) |} in
  reconnectAttempt c' = reconnectAttempt c + 1
  /\ reconnectTimeout c' = Some timer
  /\ pendingTimers c' = pendingTimers c ++ [timer]
  /\ scheduled c' = scheduled c ++ [backoff_delay (reconnectAttempt c + 1)].
Proof.
  intros Hm Hlt. unfold handleReconnect. rewrite Hm.
  apply Z.ltb_lt in Hlt. rewrite Hlt. cbn. auto.
Qed.

Lemma lifecycle_snoc (cfg : config) (evs : list conn_event)
      (ev : conn_event) (c : conn) :
  lifecycle cfg (evs ++ [ev]) c = react cfg ev (lifecycle cfg evs c).
Proof. unfold lifecycle. rewrite fold_left_app. reflexivity. Qed.

Lemma connect_keeps_counter (isAuto : bool) (c : conn) :
  reconnectAttempt (connect isAuto c) = reconnectAttempt c.
Proof. unfold connect. destruct (is_connected _); reflexivity. Qed.

Lemma handleReconnect_counter (cfg : config) (isAuto : bool) (c : conn) :
  reconnectAttempt c <= reconnectAttempt (handleReconnect cfg isAuto c).
Proof.
  unfold handleReconnect. destruct (manualDisconnect c); [lia|].
  destruct (_ && _); cbn; lia.
Qed.

Lemma error_if_exhausted_counter (cfg : config) (msg : string) (c : conn) :
  reconnectAttempt (error_if_exhausted cfg msg c) = reconnectAttempt c.
Proof. unfold error_if_exhausted. destruct (_ <=? _); reflexivity. Qed.

(** Nothing but the opening of the data channel lowers the counter. *)
Lemma counter_lowered_by_open_only (cfg : config) (ev : conn_event)
      (c : conn) :
  ev <> DataChannelOpen ->
  reconnectAttempt c <= reconnectAttempt (react cfg ev c).
Proof.
  intros Hev. destruct ev as [isAuto| |p| | | |id|]; cbn [react].
  - rewrite connect_keeps_counter. lia.
  - unfold connect_catch. rewrite error_if_exhausted_counter.
    apply (handleReconnect_counter cfg _ (set_flags false false c)).
  - unfold onconnectionstatechange. cbv zeta.
    destruct p; cbn [set_pc_state reconnectAttempt]; try lia;
      try (rewrite error_if_exhausted_counter;
           exact (handleReconnect_counter cfg _
                    (set_flags false false (set_pc_state _ c)))).
    destruct (negb _); [|cbn; lia].
    rewrite error_if_exhausted_counter.
    exact (handleReconnect_counter cfg _
             (set_flags false false (set_pc_state PcClosed c))).
  - congruence.
  - unfold dataChannel_onerror. rewrite error_if_exhausted_counter.
    apply (handleReconnect_counter cfg _ (set_flags false (isConnecting c) c)).
  - unfold retry_timer_fires. destruct (reconnectTimeout c); [|lia].
    unfold pending_timer_fires. destruct (is_pending _ _); [|lia].
    rewrite connect_keeps_counter. cbn. lia.
  - unfold pending_timer_fires. destruct (is_pending _ _); [|lia].
    rewrite connect_keeps_counter. cbn. lia.
  - cbn. lia.
Qed.

(** Once the counter has reached the maximum, or for a session that was
    not auto-triggered, nothing is scheduled. *)
Lemma handleReconnect_no_retry (cfg : config) (isAuto : bool) (c : conn) :
  maxReconnectAttempts cfg <= reconnectAttempt c \/ isAuto = false ->
  handleReconnect cfg isAuto c = c.
Proof.
  intros H. unfold handleReconnect. destruct (manualDisconnect c); auto.
  destruct H as [H| ->].
  - apply Z.ltb_ge in H. rewrite H. reflexivity.
  - rewrite andb_false_r. reflexivity.
Qed.

(** C2 (what the code does).  An auto-triggered session with
    [maxReconnectAttempts = 3] whose connection fails three times in a row:
    the retries are scheduled after 1000, 2000 and 4000 ms, not after 500,
    1000 and 2000 ms, and the counter stands at 3 (the third failure has
    already reported an error, with its retry pending).  The fourth
    failure schedules nothing, leaves the counter at 3 and reports the
    error. *)
Theorem three_failures_schedule_1000_2000_4000 :
  let c0 := connect true fresh in
  let c3 := lifecycle default_config (failures 3) c0 in
  let c4 := lifecycle default_config (failures 4) c0 in
  scheduled c3 = [1000; 2000; 4000]
  /\ reconnectAttempt c3 = 3
  /\ reconnectTimeout c3 = Some {| retry_id := 3; retry_delay := 4000 |}
  /\ pendingTimers c3 = [{| retry_id := 3; retry_delay := 4000 |}]
  /\ scheduled c4 = [1000; 2000; 4000]
  /\ reconnectAttempt c4 = 3
  /\ reconnectTimeout c4 = None
  /\ pendingTimers c4 = []
  /\ errors c3 = ["Connection lost. Please try again."%string]
  /\ errors c4 = ["Connection lost. Please try again."%string;
                  "Connection lost. Please try again."%string].
Proof. cbv zeta. repeat split; reflexivity. Qed.

(** C4 as stated fails: a manual disconnect after one failed auto attempt
    leaves the counter at 1. *)
Lemma disconnect_keeps_counter :
  let c := lifecycle default_config [Connect true; ConnectionState PcFailed] fresh in
  reconnectAttempt c = 1
  /\ reconnectAttempt (disconnect c) = 1
  /\ reconnectAttempt (disconnect c) <> 0.
Proof.
  cbv zeta. split; [reflexivity|]. split; [reflexivity|]. discriminate.
Qed.

(** C4 (amended).  Whatever happened before, the counter is 0 right
    after the data channel opens; a manual disconnect does not reset it
    but leaves it at the value it has. *)
Theorem counter_reset_on_open_kept_on_disconnect
        (cfg : config) (evs : list conn_event) (c : conn) :
  reconnectAttempt (lifecycle cfg (evs ++ [DataChannelOpen]) c) = 0
  /\ reconnectAttempt (lifecycle cfg (evs ++ [Disconnect]) c)
     = reconnectAttempt (lifecycle cfg evs c).
Proof. rewrite !lifecycle_snoc. split; reflexivity. Qed.

End ConnectionFacts.

(** * Facts about the progressive decoder *)

Module DecoderFacts.
Import Decoder.

Lemma fold_sizes (chunks : list bytes) :
  forall a : Z,
    fold_left (fun sum chunk => sum + Z.of_nat (List.length chunk)) chunks a
    = a + Z.of_nat (List.length (List.concat chunks)).
Proof.
  induction chunks as [|c chunks IH]; intros a; cbn [fold_left List.concat].
  - cbn. lia.
  - rewrite IH, length_app. lia.
Qed.

(** The byte count [accumulateChunks] reports is the size of its buffer. *)
Lemma accumulateChunks_size (chunks : list bytes) :
  snd (accumulateChunks chunks)
  = Z.of_nat (List.length (fst (accumulateChunks chunks))).
Proof. unfold accumulateChunks. cbn [fst snd]. rewrite fold_sizes. lia. Qed.

Lemma In_without {A : Type} (x : A) (i : nat) (l : list A) :
  In x (without i l) -> In x l.
Proof.
  revert i. induction l as [|a l IH]; intros i H.
  - unfold without in H. rewrite firstn_nil, skipn_nil in H. exact H.
  - destruct i as [|i].
    + right. exact H.
    + unfold without in H. cbn [firstn skipn app] in H.
      destruct H as [H|H]; [left; exact H|right; exact (IH i H)].
Qed.

Lemma without_single {A : Type} (i : nat) (l : list A) (x : A) :
  (List.length l <= 1)%nat -> nth_error l i = Some x -> without i l = [].
Proof.
  intros Hl Hn. destruct l as [|a [|b l]]; cbn in Hl; try lia.
  - destruct i; discriminate Hn.
  - destruct i as [|i]; [reflexivity|]. destruct i; discriminate Hn.
Qed.

Lemma tryDecode_submit_keeps (forceMode : bool) (d : decoder) :
  let d' := fst (tryDecode_submit forceMode d) in
  lastDecodedBytes d' = lastDecodedBytes d
  /\ decodedBuffers d' = decodedBuffers d
  /\ rawChunks d' = rawChunks d
  /\ accumulatedBuffer d' = accumulatedBuffer d.
Proof.
  unfold tryDecode_submit.
  destruct (audioContext d), (accumulatedBuffer d) eqn:Eb, (isDecoding d);
    cbv zeta; try destruct (negb _); cbn; auto.
Qed.

(** The synchronous part of [tryDecode] leaves the decoded unit and the
    baseline alone. *)
Lemma tryDecode_begin_keeps (forceMode : bool) (ensure : option ensure_outcome)
      (d : decoder) :
  let d' := fst (tryDecode_begin forceMode ensure d) in
  lastDecodedBytes d' = lastDecodedBytes d
  /\ decodedBuffers d' = decodedBuffers d
  /\ rawChunks d' = rawChunks d
  /\ accumulatedBuffer d' = accumulatedBuffer d.
Proof.
  unfold tryDecode_begin.
  destruct (negb (is_some (audioContext d)) && is_some (accumulatedBuffer d));
    [destruct ensure as [[ctx|]|]|]; cbn [fst]; auto;
    try apply tryDecode_submit_keeps.
  apply (tryDecode_submit_keeps forceMode (set_audioContext ctx d)).
Qed.

(** What a settled decode does to the decoder. *)
Lemma tryDecode_finish_cases (i : nat) (o : decode_outcome) (d : decoder) :
  match nth_error (inFlight d) i, o with
  | None, _ => tryDecode_finish i o d = (d, Ok None)
  | Some (_, size), Decoded audioBuffer =>
      tryDecode_finish i o d =
      ({| bufferedSeconds := duration audioBuffer; rawChunks := rawChunks d;
          accumulatedBuffer := accumulatedBuffer d;
          decodedBuffers := [audioBuffer]; isDecoding := false;
          lastDecodedBytes := size; audioContext := audioContext d;
          inFlight := without i (inFlight d) |}, Ok (Some audioBuffer))
  | Some _, DecodeFails _ =>
      tryDecode_finish i o d =
      ({| bufferedSeconds := bufferedSeconds d; rawChunks := rawChunks d;
          accumulatedBuffer := accumulatedBuffer d;
          decodedBuffers := decodedBuffers d; isDecoding := false;
          lastDecodedBytes := lastDecodedBytes d;
          audioContext := audioContext d;
          inFlight := without i (inFlight d) |}, Ok None)
  end.
Proof.
  unfold tryDecode_finish.
  destruct (nth_error (inFlight d) i) as [[snapshot size]|]; [|reflexivity].
  destruct o; reflexivity.
Qed.

Lemma events_snoc (d : decoder) (evs : list decoder_event)
      (ev : decoder_event) :
  events_from d (evs ++ [ev]) = step ev (events_from d evs).
Proof. unfold events_from. rewrite fold_left_app. reflexivity. Qed.

Lemma session_snoc (evs : list decoder_event) (ev : decoder_event) :
  after_events (evs ++ [ev]) = step ev (after_events evs).
Proof. apply events_snoc. Qed.

(** ** What every history keeps *)

Lemma well_formed_ext (d d' : decoder) :
  rawChunks d' = rawChunks d ->
  accumulatedBuffer d' = accumulatedBuffer d ->
  lastDecodedBytes d' = lastDecodedBytes d ->
  inFlight d' = inFlight d -> isDecoding d' = isDecoding d ->
  well_formed d -> well_formed d'.
Proof.
  intros H1 H2 H3 H4 H5. unfold well_formed.
  rewrite H1, H2, H3, H4, H5. auto.
Qed.

Lemma well_formed_submit (forceMode : bool) (d : decoder) :
  well_formed d -> well_formed (fst (tryDecode_submit forceMode d)).
Proof.
  intros Hd. unfold tryDecode_submit.
  destruct (audioContext d) as [ctx|]; [|exact Hd].
  destruct (accumulatedBuffer d) as [buffer|] eqn:Eb; [|exact Hd].
  destruct (isDecoding d) eqn:Ed; [exact Hd|].
  cbv zeta. destruct (negb _); [exact Hd|]. cbn [fst].
  destruct Hd as (Hl & Hb & Hf & Hi).
  unfold well_formed.
  cbn [rawChunks lastDecodedBytes accumulatedBuffer inFlight isDecoding].
  split; [exact Hl|].
  split; [intros b0 H0; injection H0 as <-; exact (Hb _ Eb)|].
  split.
  - intros snapshot size Hin. apply in_app_or in Hin.
    destruct Hin as [Hin|[Hin|[]]]; [exact (Hf _ _ Hin)|].
    injection Hin as <- <-. reflexivity.
  - intros _ H. apply app_eq_nil in H. destruct H as [_ H]. discriminate H.
Qed.

Lemma well_formed_begin (forceMode : bool) (ensure : option ensure_outcome)
      (d : decoder) :
  well_formed d -> well_formed (fst (tryDecode_begin forceMode ensure d)).
Proof.
  intros Hd. unfold tryDecode_begin.
  destruct (negb (is_some (audioContext d)) && is_some (accumulatedBuffer d));
    [destruct ensure as [[ctx|]|]|]; cbn [fst]; auto;
    apply well_formed_submit; auto.
Qed.

Lemma well_formed_finish (i : nat) (o : decode_outcome) (d : decoder) :
  well_formed d -> well_formed (fst (tryDecode_finish i o d)).
Proof.
  intros Hd. pose proof Hd as (Hl & Hb & Hf & Hi).
  pose proof (tryDecode_finish_cases i o d) as Hc.
  destruct (nth_error (inFlight d) i) as [[snapshot size]|] eqn:Ei.
  - pose proof (Hf _ _ (nth_error_In _ _ Ei)) as Hsz.
    destruct o; rewrite Hc; cbn [fst]; unfold well_formed;
      cbn [rawChunks lastDecodedBytes accumulatedBuffer inFlight isDecoding];
      (split; [lia|]); (split; [exact Hb|]);
      (split; [intros s0 z0 Hin; exact (Hf _ _ (In_without _ _ _ Hin))
              |discriminate]).
  - rewrite Hc. exact Hd.
Qed.

Lemma well_formed_accumulate (arrayBuffer : bytes) (d : decoder) :
  well_formed d ->
  well_formed (fst (performAccumulation (push_chunk arrayBuffer d))).
Proof.
  intros (Hl & Hb & Hf & Hi). unfold performAccumulation, accumulateChunks.
  cbn [fst push_chunk rawChunks]. unfold well_formed.
  cbn [rawChunks lastDecodedBytes accumulatedBuffer inFlight isDecoding
       push_chunk].
  split; [exact Hl|]. split; [|split; [exact Hf|exact Hi]].
  intros buffer Hbuf. injection Hbuf as <-. reflexivity.
Qed.

Lemma well_formed_addChunk (arrayBuffer : bytes)
      (ensure : option ensure_outcome) (d : decoder) :
  well_formed d -> well_formed (addChunk arrayBuffer ensure d).
Proof.
  intros Hd. pose proof (well_formed_accumulate arrayBuffer d Hd) as H1.
  unfold addChunk.
  destruct (performAccumulation (push_chunk arrayBuffer d)) as [d1 totalBytes].
  cbn [fst] in H1. cbv zeta.
  set (d2 := if is_empty (decodedBuffers d1)
             then setBufferedSeconds (estimateBufferedDuration totalBytes) d1
             else d1).
  assert (H2 : well_formed d2)
    by (unfold d2; destruct (is_empty (decodedBuffers d1)); exact H1).
  destruct (_ && negb (isDecoding d2)); [|exact H2].
  apply well_formed_begin. exact H2.
Qed.

Lemma well_formed_reset (d : decoder) : well_formed d -> well_formed (reset d).
Proof.
  intros (Hl & Hb & Hf & Hi). unfold well_formed, reset. cbn.
  split; [lia|]. split; [discriminate|]. split; [exact Hf|discriminate].
Qed.

Lemma well_formed_step (ev : decoder_event) (d : decoder) :
  well_formed d -> well_formed (step ev d).
Proof.
  intros Hd. destruct ev as [c e|f e|i o|]; cbn [step].
  - apply well_formed_addChunk. exact Hd.
  - apply well_formed_begin. exact Hd.
  - apply well_formed_finish. exact Hd.
  - apply well_formed_reset. exact Hd.
Qed.

Lemma well_formed_history (evs : list decoder_event) :
  well_formed (after_events evs).
Proof.
  induction evs as [|ev evs IH] using rev_ind.
  - unfold well_formed. cbn. split; [lia|]. split; [discriminate|].
    split; [intros s z []|discriminate].
  - rewrite session_snoc. apply well_formed_step. exact IH.
Qed.

(** ** What a session keeps that began with no decode in flight *)

Lemma consistent_reset (d : decoder) : inFlight d = [] -> consistent (reset d).
Proof.
  intros H. unfold consistent, reset. cbn. rewrite H.
  split; [lia|]. split; [discriminate|]. split; [intros s z []|].
  split; [cbn; lia|discriminate].
Qed.

Lemma consistent_idle (d : decoder) :
  consistent d -> isDecoding d = false -> inFlight d = [].
Proof.
  intros (_ & _ & Hf & _ & _) Hd.
  destruct (inFlight d) as [|[snapshot size] l]; [reflexivity|].
  destruct (Hf snapshot size (or_introl eq_refl)) as (_ & _ & H).
  congruence.
Qed.

Lemma tryDecode_submit_consistent (forceMode : bool) (d : decoder) :
  consistent d -> consistent (fst (tryDecode_submit forceMode d)).
Proof.
  intros Hd. unfold tryDecode_submit.
  destruct (audioContext d) as [ctx|]; [|exact Hd].
  destruct (accumulatedBuffer d) as [buffer|] eqn:Eb; [|exact Hd].
  destruct (isDecoding d) eqn:Ed; [exact Hd|].
  cbv zeta. destruct (negb _); [exact Hd|]. cbn [fst].
  pose proof (consistent_idle d Hd Ed) as Hidle.
  destruct Hd as (Hl & Hb & Hf & Hn & Hi).
  unfold consistent.
  cbn [rawChunks lastDecodedBytes accumulatedBuffer inFlight isDecoding].
  rewrite Hidle. cbn [app].
  split; [exact Hl|].
  split; [intros b0 H0; injection H0 as <-; exact (Hb _ Eb)|].
  split; [|split; [cbn; lia|discriminate]].
  intros snapshot size [Hin|[]]. injection Hin as <- <-.
  rewrite (Hb _ Eb). repeat split; lia.
Qed.

Lemma tryDecode_begin_consistent (forceMode : bool)
      (ensure : option ensure_outcome) (d : decoder) :
  consistent d -> consistent (fst (tryDecode_begin forceMode ensure d)).
Proof.
  intros Hd. unfold tryDecode_begin.
  destruct (negb (is_some (audioContext d)) && is_some (accumulatedBuffer d));
    [destruct ensure as [[ctx|]|]|]; cbn [fst]; auto;
    apply tryDecode_submit_consistent; auto.
Qed.

Lemma tryDecode_finish_consistent (i : nat) (o : decode_outcome)
      (d : decoder) :
  consistent d ->
  consistent (fst (tryDecode_finish i o d))
  /\ lastDecodedBytes d <= lastDecodedBytes (fst (tryDecode_finish i o d)).
Proof.
  intros Hd. pose proof Hd as (Hl & Hb & Hf & Hn & Hi).
  pose proof (tryDecode_finish_cases i o d) as Hc.
  destruct (nth_error (inFlight d) i) as [[snapshot size]|] eqn:Ei.
  - destruct (Hf _ _ (nth_error_In _ _ Ei)) as (Hsz & Hle & _).
    pose proof (without_single i (inFlight d) _ Hn Ei) as Hw.
    destruct o; rewrite Hc; cbn [fst]; unfold consistent;
      cbn [rawChunks lastDecodedBytes accumulatedBuffer inFlight isDecoding];
      rewrite Hw;
      (split; [|lia]); (split; [lia|]); (split; [exact Hb|]);
      (split; [intros s0 z0 []|]); (split; [cbn; lia|discriminate]).
  - rewrite Hc. cbn [fst]. split; [exact Hd|lia].
Qed.

Lemma performAccumulation_push_consistent (arrayBuffer : bytes) (d : decoder) :
  consistent d ->
  let d1 := fst (performAccumulation (push_chunk arrayBuffer d)) in
  consistent d1 /\ lastDecodedBytes d1 = lastDecodedBytes d.
Proof.
  intros (Hl & Hb & Hf & Hn & Hi). unfold performAccumulation, accumulateChunks.
  cbn [fst push_chunk rawChunks]. cbv zeta. split; [|reflexivity].
  assert (Hgrow : Z.of_nat (List.length (List.concat (rawChunks d)))
                  <= Z.of_nat (List.length
                                 (List.concat (rawChunks d ++ [arrayBuffer])))).
  { rewrite concat_app, length_app. lia. }
  unfold consistent.
  cbn [rawChunks lastDecodedBytes accumulatedBuffer inFlight isDecoding
       push_chunk].
  split; [lia|]. split; [|split; [|split; [exact Hn|exact Hi]]].
  - intros buffer Hbuf. injection Hbuf as <-. reflexivity.
  - intros snapshot size Hin. destruct (Hf _ _ Hin) as (? & ? & ?).
    repeat split; auto; lia.
Qed.

Lemma addChunk_consistent (arrayBuffer : bytes)
      (ensure : option ensure_outcome) (d : decoder) :
  consistent d ->
  consistent (addChunk arrayBuffer ensure d)
  /\ lastDecodedBytes (addChunk arrayBuffer ensure d) = lastDecodedBytes d.
Proof.
  intros Hd.
  destruct (performAccumulation_push_consistent arrayBuffer d Hd) as [H1 H2].
  unfold addChunk.
  destruct (performAccumulation (push_chunk arrayBuffer d)) as [d1 totalBytes].
  cbn [fst] in H1, H2. cbv zeta.
  set (d2 := if is_empty (decodedBuffers d1)
             then setBufferedSeconds (estimateBufferedDuration totalBytes) d1
             else d1).
  assert (H3 : consistent d2 /\ lastDecodedBytes d2 = lastDecodedBytes d).
  { unfold d2. destruct (is_empty (decodedBuffers d1)); split; auto. }
  destruct H3 as [H3 H4].
  destruct (_ && negb (isDecoding d2)).
  - split; [apply tryDecode_begin_consistent; exact H3|].
    destruct (tryDecode_begin_keeps false ensure d2) as [H _].
    cbv zeta in H. rewrite H. exact H4.
  - split; assumption.
Qed.

(** Every step of such a session keeps the decoder consistent and does
    not lower the baseline. *)
Lemma handle_consistent (ev : decoder_event) (d : decoder) :
  is_reset ev = false ->
  consistent d ->
  consistent (step ev d)
  /\ lastDecodedBytes d <= lastDecodedBytes (step ev d).
Proof.
  intros Hev Hd. destruct ev as [c e|f e|i o|]; cbn [step];
    [| | |discriminate Hev].
  - destruct (addChunk_consistent c e d Hd) as [H1 H2]. split; [exact H1|lia].
  - split; [apply tryDecode_begin_consistent; exact Hd|].
    destruct (tryDecode_begin_keeps f e d) as [H _]. cbv zeta in H. lia.
  - apply tryDecode_finish_consistent. exact Hd.
Qed.

Lemma session_consistent (d : decoder) (evs : list decoder_event) :
  consistent d -> one_session evs -> consistent (events_from d evs).
Proof.
  intros Hd Hs. induction evs as [|ev evs IH] using rev_ind; [exact Hd|].
  apply Forall_app in Hs. destruct Hs as [Hs Hev].
  rewrite events_snoc. apply handle_consistent; [|exact (IH Hs)].
  inversion Hev; assumption.
Qed.

(** C9 as stated fails: three bytes are submitted for decoding and the
    decoder is reset before the decode settles.  In the session that
    follows the reset, that decode succeeds and sets [lastDecodedBytes] to
    3; then the one byte of the new session is decoded, and
    [lastDecodedBytes] goes down to 1. *)
Lemma stale_decode_lowers_baseline :
  let before := after_events reset_in_flight in
  let after :=
    after_events (reset_in_flight ++ [DecodeSettles 0 (Decoded decoded_1s)]) in
  one_session [DecodeSettles 0 (Decoded decoded_3s); AddChunk ["x"%byte] None;
           TryDecode true None; DecodeSettles 0 (Decoded decoded_1s)]
  /\ lastDecodedBytes before = 3
  /\ lastDecodedBytes after = 1
  /\ ~ lastDecodedBytes before <= lastDecodedBytes after.
Proof.
  cbv zeta. split; [repeat constructor|].
  split; [reflexivity|]. split; [reflexivity|].
  change (~ 3 <= 1). lia.
Qed.

(** C9 (amended).  At any point of any history: a decode that succeeds
    makes the new result the one decoded unit and sets [lastDecodedBytes]
    to the byte size of the snapshot it was given; a decode that fails
    leaves the decoded unit and [lastDecodedBytes] as they were and gives
    [null] to its caller, not an exception; a call of [tryDecode] that
    submits nothing changes neither.  In a session that began (at the
    mounting, or at a reset) with no decode in flight, no event lowers
    [lastDecodedBytes]. *)
Theorem decode_success_replaces_failure_keeps
        (evs : list decoder_event) (idle : decoder)
        (events : list decoder_event) :
  let d := after_events evs in
  (forall (i : nat) (snapshot : bytes) (size : Z) (audioBuffer : AudioBuffer),
      nth_error (inFlight d) i = Some (snapshot, size) ->
      let d' := fst (tryDecode_finish i (Decoded audioBuffer) d) in
      decodedBuffers d' = [audioBuffer]
      /\ getDecodedBuffer d' = Some audioBuffer
      /\ lastDecodedBytes d' = Z.of_nat (List.length snapshot)
      /\ snd (tryDecode_finish i (Decoded audioBuffer) d)
         = Ok (Some audioBuffer))
  /\ (forall (i : nat) (msg : string),
        let d' := fst (tryDecode_finish i (DecodeFails msg) d) in
        decodedBuffers d' = decodedBuffers d
        /\ lastDecodedBytes d' = lastDecodedBytes d
        /\ snd (tryDecode_finish i (DecodeFails msg) d) = Ok None)
  /\ (forall (forceMode : bool) (ensure : option ensure_outcome),
        let d' := fst (tryDecode_begin forceMode ensure d) in
        decodedBuffers d' = decodedBuffers d
        /\ lastDecodedBytes d' = lastDecodedBytes d)
  /\ (inFlight idle = [] -> one_session events ->
      forall ev : decoder_event,
        is_reset ev = false ->
        lastDecodedBytes (events_from (reset idle) events)
        <= lastDecodedBytes (events_from (reset idle) (events ++ [ev]))).
Proof.
  intros d. pose proof (well_formed_history evs) as Hd. fold d in Hd.
  split; [|split; [|split]].
  - intros i snapshot size audioBuffer Hin.
    pose proof (tryDecode_finish_cases i (Decoded audioBuffer) d) as Hc.
    rewrite Hin in Hc. rewrite Hc.
    cbn [fst snd decodedBuffers lastDecodedBytes].
    destruct Hd as (_ & _ & Hf & _).
    rewrite (Hf _ _ (nth_error_In _ _ Hin)). repeat split.
  - intros i msg.
    pose proof (tryDecode_finish_cases i (DecodeFails msg) d) as Hc.
    destruct (nth_error (inFlight d) i) as [[snapshot size]|]; rewrite Hc;
      repeat split; reflexivity.
  - intros forceMode ensure.
    destruct (tryDecode_begin_keeps forceMode ensure d) as (H1 & H2 & _).
    split; assumption.
  - intros Hidle Hs ev Hev. rewrite events_snoc.
    apply handle_consistent; [exact Hev|].
    apply session_consistent; [apply consistent_reset; exact Hidle|exact Hs].
Qed.

Lemma decode_success_replaces_failure_keeps_witness :
  let d := after_events awaiting_decode in
  let d' := fst (tryDecode_finish 0 (Decoded decoded_3s) d) in
  (decodedBuffers d' = [decoded_3s] /\ lastDecodedBytes d' = 3)
  /\ lastDecodedBytes (events_from (reset empty_decoder) awaiting_decode)
     <= lastDecodedBytes
          (events_from (reset empty_decoder)
             (awaiting_decode ++ [DecodeSettles 0 (Decoded decoded_3s)])).
Proof.
  destruct (decode_success_replaces_failure_keeps awaiting_decode
              empty_decoder awaiting_decode) as (H & _ & _ & Hm).
  destruct (H 0%nat ["a"%byte; "b"%byte; "c"%byte] 3 decoded_3s eq_refl)
    as (H1 & _ & H2 & _).
  split; [split; [exact H1 | exact H2]|].
  apply Hm; [reflexivity|repeat constructor|reflexivity].
Defined.

End DecoderFacts.

(** * Facts about playback *)

Module PlaybackFacts.
Import Playback.

Local Open Scope Q_scope.

Lemma Qltb_lt (x y : Q) : Qltb x y = true <-> x < y.
Proof.
  unfold Qltb. rewrite negb_true_iff. split.
  - intros H. apply Qnot_le_lt. intros Hle.
    apply Qle_bool_iff in Hle. congruence.
  - intros H. destruct (Qle_bool y x) eqn:E; [|reflexivity].
    apply Qle_bool_iff in E. exfalso. exact (Qlt_not_le _ _ H E).
Qed.

Lemma Qltb_ge (x y : Q) : Qltb x y = false <-> y <= x.
Proof.
  unfold Qltb. rewrite negb_false_iff. apply Qle_bool_iff.
Qed.

Lemma Qle_bool_false (x y : Q) : Qle_bool x y = false <-> y < x.
Proof.
  split.
  - intros H. apply Qnot_le_lt. intros Hle.
    apply Qle_bool_iff in Hle. congruence.
  - intros H. destruct (Qle_bool x y) eqn:E; [|reflexivity].
    apply Qle_bool_iff in E. exfalso. exact (Qlt_not_le _ _ H E).
Qed.

Lemma ensureContext_fields (p : playback) :
  exists c : AudioContext, ensureContext p = set_context (Some c) p.
Proof. unfold ensureContext. eexists. reflexivity. Qed.

Lemma source_tracked_initial : source_tracked mounted.
Proof. intros s H. discriminate H. Qed.

Lemma source_tracked_play (p : playback) (audioBuffer : option AudioBuffer)
      (resumeOffset : option Q) (now : Q) :
  source_tracked p ->
  source_tracked (fst (play audioBuffer resumeOffset now p)).
Proof.
  intros Hp. destruct audioBuffer as [ab|]; [|exact Hp].
  intros s Hs. cbn in Hs. injection Hs as <-. cbn. split; [reflexivity|lia].
Qed.

Lemma source_tracked_no_source (p : playback) :
  sourceNode p = None -> source_tracked p.
Proof. intros H s Hs. congruence. Qed.

Lemma source_tracked_onEnded (p : playback) (s : source) (now : Q) :
  source_tracked p -> source_tracked (onEnded s now p).
Proof.
  intros Hp. unfold onEnded.
  destruct (is_source s (sourceNode p)); [|exact Hp].
  destruct (context p); [destruct (Double.leb _ _)|];
    auto using source_tracked_no_source.
Qed.

(** In every reachable state the tracked duration is that of the buffer
    the active source was started with. *)
Lemma reachable_source_tracked (p : playback) :
  reachable p -> source_tracked p.
Proof.
  induction 1 as [|p ab ro now _ IH|p now _ IH|p _ IH|p s now _ IH
                  |p b _ IH|p _ IH|p _ IH|p _ IH].
  - exact source_tracked_initial.
  - apply source_tracked_play. exact IH.
  - unfold pause. destruct (sourceNode p) eqn:Es; [|exact IH].
    destruct (context p); [|exact IH].
    apply source_tracked_no_source. reflexivity.
  - apply source_tracked_no_source. reflexivity.
  - apply source_tracked_onEnded. exact IH.
  - exact IH.
  - exact IH.
  - exact IH.
  - exact IH.
Qed.

Lemma live_reachable (p : playback) : live p -> reachable p.
Proof.
  induction 1; [apply reach_initial|apply reach_play|apply reach_pause
               |apply reach_stop|apply reach_ended|apply reach_buffering
               |apply reach_gesture|apply reach_context]; assumption.
Qed.

Lemma onEnded_cases (s : source) (now : Q) (p : playback) :
  onEnded s now p = p \/ onEnded s now p = end_playback p.
Proof.
  unfold onEnded. destruct (is_source _ _); [|left; reflexivity].
  destruct (context p); [destruct (Double.leb _ _)|]; auto.
Qed.

(** While the hook is mounted, an active source has an audio context. *)
Lemma live_source_has_context (p : playback) :
  live p -> sourceNode p <> None -> context p <> None.
Proof.
  induction 1 as [|p ab ro now _ IH|p now _ IH|p _ IH|p s now _ IH
                  |p b _ IH|p _ IH|p _ IH]; intros Hs.
  - exfalso. apply Hs. reflexivity.
  - destruct ab as [ab|]; [|exact (IH Hs)]. cbn. discriminate.
  - assert (H : pause now p = p \/ sourceNode (pause now p) = None)
      by (unfold pause; destruct (sourceNode p); [destruct (context p)|];
          auto).
    destruct H as [E|E]; [rewrite E in *; exact (IH Hs)|contradiction].
  - exfalso. apply Hs. reflexivity.
  - destruct (onEnded_cases s now p) as [E|E]; rewrite E in *.
    + exact (IH Hs).
    + exfalso. apply Hs. reflexivity.
  - exact (IH Hs).
  - exact (IH Hs).
  - unfold ensureContext. cbn. discriminate.
Qed.


Lemma reachable_playing_8s : reachable playing_8s.
Proof. apply reach_play, reach_gesture, reach_initial. Qed.

Lemma live_playing_8s : live playing_8s.
Proof. apply live_play, live_gesture, live_initial. Qed.


Lemma shouldReplace_true (last currentDuration position : Double.double) :
  shouldReplace last currentDuration position = true
  <-> (Double.ltb (Double.of_Z 5) (Double.sub currentDuration position) = true
       \/ (Double.ltb (Double.mul last (Double.of_Q (11 # 10)))
                      currentDuration = true
           /\ Double.ltb (Double.add last (Double.of_Z 2)) currentDuration
              = true)).
Proof.
  unfold shouldReplace. cbv zeta.
  rewrite orb_true_iff, andb_true_iff. reflexivity.
Qed.

Lemma play_changes_state (audioBuffer : AudioBuffer) (resumeOffset : option Q)
      (now : Q) (p : playback) :
  fst (play (Some audioBuffer) resumeOffset now p) <> p.
Proof.
  intros H. apply (f_equal nextSourceId) in H. cbn in H. lia.
Qed.

(** C6.  While playback is active and a decoded unit exists, the effect
    replaces the playing buffer if and only if the unit's duration exceeds
    the baseline by more than 10% and, besides, either more than 5 seconds
    of it lie ahead of the current position or it exceeds the baseline by
    more than 2 seconds.  The three tests are those the source computes,
    in doubles: [duration > baseline * 1.1], [duration - position > 5]
    and [duration > baseline + 2].  A replacement starts a new source on
    that unit at the elapsed position of the source it replaces and makes
    the unit's duration the baseline; otherwise nothing changes.  A source
    of 8 s at position 3 s with a unit of 9.2 s is replaced at position
    3 s; with a unit of 8.3 s it is not.  At the edge the rounding of the
    product decides: against a baseline of 7 s a unit that lasts the
    double 7.7 is not taken to have grown by more than 10%, since
    [7 * 1.1] rounds to the next double above; a unit that lasts more than
    that is. *)
Theorem replacement_iff_grown
        (now last : Q) (d : Decoder.decoder) (currentBuffer : AudioBuffer)
        (p : playback) :
  isPlaying p = true ->
  Decoder.getDecodedBuffer d = Some currentBuffer ->
  let currentDuration := duration currentBuffer in
  let position := currentPosition now p in
  let replaced := fst (play (Some currentBuffer) None now p) in
  let grown :=
    Double.ltb (Double.mul (Double.of_Q last) (Double.of_Q (11 # 10)))
               (Double.of_Q currentDuration) = true
    /\ (Double.ltb (Double.of_Z 5)
                   (Double.sub (Double.of_Q currentDuration) position) = true
        \/ Double.ltb (Double.add (Double.of_Q last) (Double.of_Z 2))
                      (Double.of_Q currentDuration) = true) in
  (grown -> useBufferReplacement now d last p = (replaced, currentDuration))
  /\ (~ grown -> useBufferReplacement now d last p = (p, last))
  /\ (replaced <> p
      /\ isPlaying replaced = true
      /\ sourceNode replaced
         = Some {| source_id := nextSourceId p;
                   source_buffer := currentBuffer |}
      /\ currentBufferDuration replaced = currentDuration
      /\ startTime replaced = now
      /\ (sourceNode p <> None ->
          playbackOffset replaced = playbackOffset p + (now - startTime p)))
  /\ (currentPosition 103 playing_8s = Double.of_Z 3
      /\ useBufferReplacement 103 (decoded (92 # 10)) 8 playing_8s
         = (fst (play (Some (unit_of (92 # 10))) None 103 playing_8s), 92 # 10)
      /\ playbackOffset
           (fst (useBufferReplacement 103 (decoded (92 # 10)) 8 playing_8s))
         == 3
      /\ useBufferReplacement 103 (decoded (83 # 10)) 8 playing_8s
         = (playing_8s, 8))
  /\ (Double.of_Q double_7_7 = Double.of_Q (77 # 10)
      /\ Double.mul (Double.of_Z 7) (Double.of_Q (11 # 10))
         = Double.of_Q double_7_times_1_1
      /\ useBufferReplacement 101 (decoded double_7_7) 7 playing_8s
         = (playing_8s, 7)
      /\ fst (useBufferReplacement 101 (decoded (771 # 100)) 7 playing_8s)
         <> playing_8s).
Proof.
  intros Hpl Hbuf currentDuration position replaced grown.
  assert (Heff : useBufferReplacement now d last p
                 = if hasNewContent (Double.of_Q last)
                        (Double.of_Q currentDuration)
                      && shouldReplace (Double.of_Q last)
                           (Double.of_Q currentDuration) position
                   then (replaced, currentDuration) else (p, last)).
  { unfold useBufferReplacement, replacement_effect, replacement_due.
    rewrite Hpl, Hbuf. cbn [negb]. cbv zeta.
    fold currentDuration position replaced.
    destruct (hasNewContent _ _); cbn [andb];
      [destruct (shouldReplace _ _ _)|]; reflexivity. }
  split; [|split; [|split; [|split]]].
  - intros [H1 H2]. rewrite Heff. unfold hasNewContent.
    rewrite H1. cbn [andb].
    replace (shouldReplace (Double.of_Q last) (Double.of_Q currentDuration)
               position) with true; [reflexivity|].
    symmetry. apply shouldReplace_true.
    destruct H2 as [H2|H2]; [left; exact H2|right; split; assumption].
  - intros Hn. rewrite Heff. unfold hasNewContent.
    destruct (Double.ltb (Double.mul (Double.of_Q last)
                            (Double.of_Q (11 # 10)))
                (Double.of_Q currentDuration)) eqn:E1; [|reflexivity].
    cbn [andb].
    destruct (shouldReplace (Double.of_Q last) (Double.of_Q currentDuration)
                position) eqn:E2; [|reflexivity].
    exfalso. apply Hn. apply shouldReplace_true in E2.
    split; [reflexivity|]. destruct E2 as [E2|[_ E2]]; [left|right]; exact E2.
  - split; [apply play_changes_state|].
    unfold replaced. cbn.
    repeat split.
    intros Hs. destruct (sourceNode p); [reflexivity|congruence].
  - split; [vm_compute; reflexivity|]. split; [vm_compute; reflexivity|].
    split; [vm_compute; reflexivity|]. vm_compute. reflexivity.
  - split; [vm_compute; reflexivity|]. split; [vm_compute; reflexivity|].
    split; [vm_compute; reflexivity|].
    intros H. apply (f_equal nextSourceId) in H. vm_compute in H.
    discriminate H.
Qed.

Lemma replacement_iff_grown_witness :
  useBufferReplacement 103 (decoded (92 # 10)) 8 playing_8s
  = (fst (play (Some (unit_of (92 # 10))) None 103 playing_8s), 92 # 10).
Proof.
  destruct (replacement_iff_grown 103 8 (decoded (92 # 10))
              (unit_of (92 # 10)) playing_8s eq_refl eq_refl) as (H & _).
  apply H. split; [vm_compute; reflexivity|]. left. vm_compute. reflexivity.
Defined.


Lemma is_source_same (s : source) : is_source s (Some s) = true.
Proof. unfold is_source. apply Nat.eqb_refl. Qed.

(** C8.  While the hook is mounted, the end signal of a source ends
    playback (clears the active source, leaves the playing state, resets
    the offset) only when that source is the active one and the elapsed
    position, offset plus clock time since the start, is at least 99% of
    the duration of the buffer that source was started with; then it does
    end it.  Short of that the state is left as it is.  Position,
    threshold and comparison are those the source computes, in doubles.
    At 7.9 s of 8 s the signal is ignored; at 8 s it is honoured, and so
    it is at the double 7.92, which is what [8 * 0.99] rounds to. *)
Theorem ended_honoured_at_99_percent (s : source) (now : Q) (p : playback) :
  live p ->
  let position :=
    Double.add (Double.of_Q (playbackOffset p))
               (Double.sub (Double.of_Q now) (Double.of_Q (startTime p))) in
  let at_end (active : source) :=
    Double.leb (Double.mul (Double.of_Q (duration (source_buffer active)))
                           (Double.of_Q (99 # 100)))
               position in
  (onEnded s now p <> p ->
   exists active : source,
     sourceNode p = Some active /\ source_id active = source_id s
     /\ at_end active = true /\ onEnded s now p = end_playback p)
  /\ (forall active : source,
        sourceNode p = Some active -> source_id active = source_id s ->
        at_end active = true -> onEnded s now p = end_playback p)
  /\ (forall active : source,
        sourceNode p = Some active -> at_end active = false ->
        onEnded s now p = p)
  /\ (sourceNode (end_playback p) = None
      /\ isPlaying (end_playback p) = false
      /\ playbackOffset (end_playback p) = 0)
  /\ (onEnded source_8s (100 + (79 # 10)) playing_8s = playing_8s
      /\ onEnded source_8s 108 playing_8s = end_playback playing_8s
      /\ onEnded source_8s (792 # 100) from_0_8s = end_playback from_0_8s).
Proof.
  intros Hl position at_end.
  assert (Hcases : forall active : source,
             sourceNode p = Some active ->
             currentBufferDuration p = duration (source_buffer active)
             /\ exists c, context p = Some c).
  { intros active Ha.
    destruct (reachable_source_tracked p (live_reachable p Hl) active Ha)
      as [Hd _].
    split; [exact Hd|].
    destruct (context p) as [c|] eqn:Ec; [exists c; reflexivity|].
    exfalso. apply (live_source_has_context p Hl); [congruence|exact Ec]. }
  split; [|split; [|split; [|split]]].
  - intros Hne. unfold onEnded in *.
    destruct (sourceNode p) as [active|] eqn:Ea;
      [|exfalso; apply Hne; reflexivity].
    destruct (Hcases active eq_refl) as [Hd [c Hc]].
    destruct (is_source s (Some active)) eqn:Ei;
      [|exfalso; apply Hne; reflexivity].
    rewrite Hc in *. rewrite Hd in *. fold position in Hne |- *.
    fold (at_end active) in Hne |- *.
    destruct (at_end active) eqn:Ee; [|exfalso; apply Hne; reflexivity].
    exists active. split; [reflexivity|].
    split; [unfold is_source in Ei; apply Nat.eqb_eq in Ei; exact Ei|].
    split; [first [exact Ee | reflexivity]|reflexivity].
  - intros active Ha Hid He. unfold onEnded.
    destruct (Hcases active Ha) as [Hd [c Hc]].
    rewrite Ha. unfold is_source. rewrite Hid, Nat.eqb_refl.
    rewrite Hc, Hd. fold position. fold (at_end active). rewrite He.
    reflexivity.
  - intros active Ha He. unfold onEnded.
    destruct (Hcases active Ha) as [Hd [c Hc]].
    destruct (is_source s (sourceNode p)); [|reflexivity].
    rewrite Hc, Hd. fold position. fold (at_end active). rewrite He.
    reflexivity.
  - repeat split.
  - split; [vm_compute; reflexivity|].
    split; vm_compute; reflexivity.
Qed.

Lemma ended_honoured_at_99_percent_witness :
  onEnded source_8s (100 + (79 # 10)) playing_8s = playing_8s.
Proof.
  destruct (ended_honoured_at_99_percent source_8s (100 + (79 # 10))
              playing_8s live_playing_8s)
    as (_ & _ & H & _).
  apply (H source_8s); [reflexivity|].
  vm_compute. reflexivity.
Defined.

(** C10.  [getCurrentPlaybackPosition] gives 0 when no source is active or
    there is no audio context; otherwise it gives the smaller of the
    elapsed position (offset plus the context time since the start) and
    the tracked buffer duration, which in every reachable state is the
    duration of the unit the active source plays: the position reported
    never exceeds it. *)
Theorem position_is_clamped (now : Q) (p : playback) :
  (sourceNode p = None \/ context p = None ->
   getCurrentPlaybackPosition now p = 0)
  /\ (forall (s : source) (c : AudioContext),
        sourceNode p = Some s -> context p = Some c ->
        getCurrentPlaybackPosition now p
        = Qmin (playbackOffset p + (now - startTime p))
               (currentBufferDuration p)
        /\ getCurrentPlaybackPosition now p <= currentBufferDuration p
        /\ (reachable p ->
            getCurrentPlaybackPosition now p <= duration (source_buffer s))).
Proof.
  split.
  - intros [H|H]; unfold getCurrentPlaybackPosition; rewrite H;
      [reflexivity|]. destruct (sourceNode p); reflexivity.
  - intros s c Hs Hc. unfold getCurrentPlaybackPosition. rewrite Hs, Hc.
    cbv zeta. split; [reflexivity|].
    split; [apply Q.le_min_r|].
    intros Hr. destruct (reachable_source_tracked p Hr s Hs) as [Hd _].
    rewrite <- Hd. apply Q.le_min_r.
Qed.

Lemma position_is_clamped_witness :
  getCurrentPlaybackPosition 200 playing_8s <= 8
  /\ getCurrentPlaybackPosition 200 (pause 103 playing_8s) = 0.
Proof.
  destruct (position_is_clamped 200 playing_8s) as [_ H].
  destruct (H source_8s {| state := Running |} eq_refl eq_refl)
    as (_ & H1 & _).
  destruct (position_is_clamped 200 (pause 103 playing_8s)) as [H0 _].
  split; [exact H1 | apply H0; left; reflexivity].
Defined.

End PlaybackFacts.

(** * Facts about how a stream stops *)

Module SenderExtFacts.
Import Sender SenderExt SenderFacts.

Lemma timer_sound_unarmed (buf : bytes) (s : session) :
  armed s = None -> timer_sound buf s.
Proof. intros H t Ht. congruence. Qed.

Lemma armed_clear_timeout_none (s : session) :
  armed s = None -> armed (clear_timeout s) = None.
Proof.
  intros H. unfold clear_timeout.
  destruct (chunkTimeoutId s); cbn; rewrite H; reflexivity.
Qed.

(** [sendChunk], entered with no timer pending, leaves a sound timer. *)
Lemma sendChunk_timer_sound (buf : bytes) (e : env) (s : session) :
  armed s = None -> 0 <= chunkIndex s ->
  timer_sound buf (final (sendChunk buf e s)).
Proof.
  intros Ha Hi. unfold sendChunk.
  destruct (negb (streamingActive s) || not_open (readyState e)
            || connection_down (connectionState e)).
  { apply timer_sound_unarmed, armed_clear_timeout_none, Ha. }
  destruct (totalChunks buf <=? chunkIndex s) eqn:E.
  { apply timer_sound_unarmed. unfold dc_send.
    destruct (sendThrows e); cbn; exact Ha. }
  unfold dc_send.
  destruct (bufferedAmount e <? HIGH_WATER_MARK).
  - destruct (sendThrows e).
    + apply timer_sound_unarmed. exact Ha.
    + cbn [set_chunkIndex chunkIndex streamingActive chunkTimeoutId armed
           nextTimerId sent channelClosed].
      destruct (chunkIndex s + 1 <? totalChunks buf) eqn:E1; cbn [andb].
      * destruct (streamingActive s) eqn:Es; cbn [final].
        -- intros t Ht. cbn in Ht. injection Ht as <-. cbn.
           repeat split; auto; lia.
        -- apply timer_sound_unarmed. exact Ha.
      * apply timer_sound_unarmed. exact Ha.
  - destruct (chunkIndex s <? totalChunks buf) eqn:E1; cbn [andb].
    + destruct (streamingActive s) eqn:Es; cbn [final].
      * intros t Ht. cbn in Ht. injection Ht as <-. cbn.
        repeat split; auto; lia.
      * apply timer_sound_unarmed. exact Ha.
    + apply timer_sound_unarmed. exact Ha.
Qed.

(** The handlers that cancel the stream leave no timer pending. *)
Lemma onerror_unarmed (buf : bytes) (s : session) :
  timer_sound buf s -> armed (onerror s) = None.
Proof.
  intros Hs. unfold onerror, clear_timeout.
  cbn [set_active chunkTimeoutId armed].
  destruct (armed s) as [t|] eqn:Ea.
  - destruct (Hs t Ea) as (Hid & _). rewrite Hid. cbn.
    rewrite Nat.eqb_refl. reflexivity.
  - destruct (chunkTimeoutId s); cbn; rewrite ?Ea; reflexivity.
Qed.

Lemma onopen_catch_unarmed (e : env) (msg : string) (s : session) :
  armed s = None -> armed (onopen_catch e msg s) = None.
Proof.
  intros Ha. unfold onopen_catch, dc_send.
  assert (H1 : armed (clear_timeout (set_active false s)) = None)
    by (apply armed_clear_timeout_none; exact Ha).
  destruct (sendThrows e); cbn; exact H1.
Qed.

Lemma timer_sound_handle (buf : bytes) (ev : event) (s : session) :
  timer_sound buf s -> 0 <= chunkIndex s ->
  timer_sound buf (handle buf ev s) /\ 0 <= chunkIndex (handle buf ev s).
Proof.
  intros Hs Hi.
  assert (Hq : forall s', armed s' = None -> chunkIndex s' = chunkIndex s ->
                 timer_sound buf s' /\ 0 <= chunkIndex s').
  { intros s' H1 H2. split; [apply timer_sound_unarmed; exact H1|lia]. }
  assert (Hci : chunkIndex (onerror s) = chunkIndex s).
  { unfold onerror, clear_timeout. cbn. destruct (chunkTimeoutId s); reflexivity. }
  destruct ev as [e| | |e]; cbn [handle].
  - unfold timer_fires. destruct (armed s) eqn:Ea; [|split; assumption].
    split; [apply sendChunk_timer_sound; cbn; auto|].
    set (s0 := {| streamingActive := _ |}).
    unfold sendChunk.
    destruct (_ || _ || _).
    { unfold clear_timeout. destruct (chunkTimeoutId s0); cbn; exact Hi. }
    destruct (_ <=? _).
    { unfold dc_send. destruct (sendThrows e); cbn; exact Hi. }
    unfold dc_send.
    destruct (_ <? HIGH_WATER_MARK); [destruct (sendThrows e)|];
      cbn [set_chunkIndex chunkIndex streamingActive chunkTimeoutId armed
           nextTimerId sent channelClosed set_active];
      try destruct (_ && _); cbn; lia.
  - apply Hq; [apply (onerror_unarmed buf); exact Hs | exact Hci].
  - apply Hq; [apply (onerror_unarmed buf); exact Hs | exact Hci].
  - unfold onstatechange. destruct (not_open (readyState e));
      [|split; assumption].
    apply Hq; [apply (onerror_unarmed buf); exact Hs | exact Hci].
Qed.

Lemma timer_sound_onopen (buf : bytes) (e0 : env) :
  timer_sound buf (onopen (FileRead buf) e0 initial)
  /\ 0 <= chunkIndex (onopen (FileRead buf) e0 initial).
Proof.
  split; [|destruct (stream_in_order buf e0 []) as [H _]; unfold stream in H;
           cbn [run fold_left] in H; lia].
  unfold onopen, dc_send at 1. destruct (sendThrows e0) eqn:Et.
  - apply timer_sound_unarmed, onopen_catch_unarmed. reflexivity.
  - set (s1 := set_chunkIndex 0 _).
    pose proof (sendChunk_timer_sound buf e0 s1 eq_refl ltac:(cbn; lia)) as H.
    destruct (sendChunk buf e0 s1) as [s'|msg s'] eqn:Es; cbn [final] in H.
    + exact H.
    + apply timer_sound_unarmed, onopen_catch_unarmed.
      (* an exception leaves [sendChunk] only from the send of [complete] *)
      revert Es. unfold sendChunk.
      destruct (_ || _ || _); [discriminate|].
      destruct (_ <=? _).
      * unfold dc_send. rewrite Et. discriminate.
      * unfold dc_send. rewrite Et.
        destruct (_ <? HIGH_WATER_MARK); cbn; try destruct (_ && _);
          discriminate.
Qed.

Lemma timer_sound_run (buf : bytes) (evs : list event) :
  forall s : session,
    timer_sound buf s -> 0 <= chunkIndex s ->
    timer_sound buf (run buf evs s) /\ 0 <= chunkIndex (run buf evs s).
Proof.
  induction evs as [|ev evs IH]; intros s Hs Hi; [split; assumption|].
  cbn [run fold_left].
  destruct (timer_sound_handle buf ev s Hs Hi) as [H1 H2].
  apply IH; assumption.
Qed.


(** With no timer pending nothing drives the sender: whatever happens
    next, nothing is sent and no timer appears. *)
Lemma unarmed_stays_silent (buf : bytes) (evs : list event) :
  forall s : session,
    armed s = None ->
    sent (run buf evs s) = sent s /\ armed (run buf evs s) = None.
Proof.
  induction evs as [|ev evs IH]; intros s Ha; [split; [reflexivity|exact Ha]|].
  change (run buf (ev :: evs) s) with (run buf evs (handle buf ev s)).
  assert (He : sent (onerror s) = sent s /\ armed (onerror s) = None).
  { unfold onerror. split.
    - unfold clear_timeout. cbn. destruct (chunkTimeoutId s); reflexivity.
    - apply armed_clear_timeout_none. exact Ha. }
  assert (H : sent (handle buf ev s) = sent s /\ armed (handle buf ev s) = None).
  { destruct ev as [e| | |e]; cbn [handle]; auto.
    - unfold timer_fires. rewrite Ha. auto.
    - unfold onstatechange. destruct (not_open (readyState e)); auto. }
  destruct H as [H1 H2]. destruct (IH _ H2) as [H3 H4].
  split; [congruence|exact H4].
Qed.

Lemma stream_snoc (buf : bytes) (e0 : env) (evs : list event) (ev : event) :
  stream buf e0 (evs ++ [ev]) = handle buf ev (stream buf e0 evs).
Proof. unfold stream, run. rewrite fold_left_app. reflexivity. Qed.

Lemma stream_timer_sound (buf : bytes) (e0 : env) (evs : list event) :
  timer_sound buf (stream buf e0 evs) /\ 0 <= chunkIndex (stream buf e0 evs).
Proof.
  unfold stream. destruct (timer_sound_onopen buf e0) as [H1 H2].
  apply timer_sound_run; assumption.
Qed.

(** X1.  In every stream, interrupted or not, a pacing timer is pending
    only while streaming is active and chunks remain to be sent; it is the
    timer recorded in [chunkTimeoutId] and its delay is 50 ms. *)
Theorem timer_pending_only_while_chunks_remain
        (buf : bytes) (e0 : env) (evs : list event) (t : timer) :
  armed (stream buf e0 evs) = Some t ->
  chunkTimeoutId (stream buf e0 evs) = Some (timer_id t)
  /\ timer_delay t = 50
  /\ streamingActive (stream buf e0 evs) = true
  /\ 0 <= chunkIndex (stream buf e0 evs) < totalChunks buf.
Proof.
  intros Ha. destruct (stream_timer_sound buf e0 evs) as [H _].
  exact (H t Ha).
Qed.

Lemma timer_pending_only_while_chunks_remain_witness :
  chunkTimeoutId (stream abc busy_env []) = Some 1%nat
  /\ streamingActive (stream abc busy_env []) = true.
Proof.
  destruct (timer_pending_only_while_chunks_remain abc busy_env []
              {| timer_id := 1; timer_delay := 50 |} eq_refl)
    as (H1 & _ & H2 & _).
  split; [exact H1 | exact H2].
Defined.

(** X2.  A stream that is halted stays silent: the channel's error and
    close handlers, a change to a state other than open, and a timer
    callback that finds the channel not open, the connection down or whose
    send of a chunk throws, send nothing themselves and leave no timer
    pending; nothing that happens afterwards is sent, and no timer is
    armed again. *)
Theorem halted_stream_stays_silent
        (buf : bytes) (e0 : env) (evs1 : list event) (ev : event)
        (evs2 : list event) :
  halts ev = true ->
  let before := stream buf e0 evs1 in
  let s := stream buf e0 (evs1 ++ [ev]) in
  sent s = sent before
  /\ chunkIndex s = chunkIndex before
  /\ armed s = None
  /\ sent (run buf evs2 s) = sent before
  /\ armed (run buf evs2 s) = None.
Proof.
  intros Hh before s.
  destruct (stream_timer_sound buf e0 evs1) as [Hw Hi]. fold before in Hw, Hi.
  assert (Hs : s = handle buf ev before) by apply stream_snoc.
  assert (He : sent (onerror before) = sent before
               /\ chunkIndex (onerror before) = chunkIndex before
               /\ armed (onerror before) = None).
  { split; [|split; [|apply (onerror_unarmed buf); exact Hw]];
      unfold onerror, clear_timeout; cbn;
      destruct (chunkTimeoutId before); reflexivity. }
  assert (H : sent s = sent before /\ chunkIndex s = chunkIndex before
              /\ armed s = None).
  { rewrite Hs. destruct ev as [e| | |e]; cbn [handle halts] in *; auto.
    - unfold timer_fires. destruct (armed before) as [t|] eqn:Ea; [|auto].
      destruct (Hw t Ea) as (_ & _ & Hact & Hlt).
      set (s0 := {| streamingActive := _ |}).
      unfold sendChunk. cbn [streamingActive s0]. rewrite Hact. cbn [negb orb].
      destruct (not_open (readyState e) || connection_down (connectionState e))
        eqn:Estop.
      + unfold clear_timeout. cbn.
        destruct (chunkTimeoutId before); cbn; auto.
      + cbn [orb] in Hh. apply andb_true_iff in Hh. destruct Hh as [Ht Hg].
        unfold gauge_below in Hg. rewrite Hg. unfold dc_send. rewrite Ht.
        destruct (totalChunks buf <=? chunkIndex s0); cbn; auto.
    - unfold onstatechange. rewrite Hh. exact He. }
  destruct H as (H1 & H2 & H3).
  destruct (unarmed_stays_silent buf evs2 s H3) as [H4 H5].
  repeat split; auto; congruence.
Qed.

Lemma halted_stream_stays_silent_witness :
  sent (run abc [TimerFires idle_env]
          (stream abc busy_env ([] ++ [TimerFires broken_env])))
  = sent (stream abc busy_env []).
Proof.
  destruct (halted_stream_stays_silent abc busy_env [] (TimerFires broken_env)
              [TimerFires idle_env] eq_refl) as (_ & _ & _ & H & _).
  exact H.
Defined.


Lemma sendChunk_no_complete (buf : bytes) (e : env) (s : session) :
  chunkIndex s < totalChunks buf ->
  ~ In MsgComplete (sent s) ->
  ~ In MsgComplete (sent (final (sendChunk buf e s))).
Proof.
  intros Hlt Hn. unfold sendChunk.
  destruct (_ || _ || _).
  { unfold clear_timeout. destruct (chunkTimeoutId s); exact Hn. }
  destruct (totalChunks buf <=? chunkIndex s) eqn:E; [lia|].
  assert (Hn' : ~ In MsgComplete
                  (sent s ++ [MsgChunk (chunkAt buf (chunkIndex s))])).
  { intros H. apply in_app_or in H. destruct H as [H|[H|[]]];
      [exact (Hn H)|discriminate H]. }
  unfold dc_send.
  destruct (_ <? HIGH_WATER_MARK); [destruct (sendThrows e)|];
    cbn [set_chunkIndex chunkIndex streamingActive chunkTimeoutId armed
         nextTimerId sent channelClosed set_active];
    try destruct (_ && _); cbn [final set_timeout set_active sent]; auto.
Qed.

Lemma onopen_catch_no_complete (e : env) (msg : string) (s : session) :
  ~ In MsgComplete (sent s) -> ~ In MsgComplete (sent (onopen_catch e msg s)).
Proof.
  intros Hn. unfold onopen_catch, dc_send.
  assert (H1 : sent (clear_timeout (set_active false s)) = sent s).
  { unfold clear_timeout. cbn. destruct (chunkTimeoutId s); reflexivity. }
  destruct (sendThrows e); cbn; rewrite H1; [exact Hn|].
  intros H. apply in_app_or in H. destruct H as [H|[H|[]]];
    [exact (Hn H)|discriminate H].
Qed.

Lemma nonempty_never_completes (buf : bytes) (e0 : env) (evs : list event) :
  buf <> [] -> ~ In MsgComplete (sent (stream buf e0 evs)).
Proof.
  intros Hne.
  assert (Ht : 0 < totalChunks buf).
  { pose proof (totalChunks_nonneg buf).
    assert (totalChunks buf <> 0) by (rewrite totalChunks_zero_iff; exact Hne).
    lia. }
  induction evs as [|ev evs IH] using rev_ind.
  - unfold stream. cbn [run fold_left]. unfold onopen, dc_send at 1.
    destruct (sendThrows e0).
    + apply onopen_catch_no_complete. intros [].
    + set (s1 := set_chunkIndex 0 _).
      assert (H1 : ~ In MsgComplete (sent s1))
        by (cbn; intros [H|[]]; discriminate H).
      pose proof (sendChunk_no_complete buf e0 s1 Ht H1) as H2.
      destruct (sendChunk buf e0 s1) as [s'|msg s']; cbn [final] in H2;
        [exact H2|apply onopen_catch_no_complete; exact H2].
  - rewrite stream_snoc.
    destruct (stream_timer_sound buf e0 evs) as [Hw _].
    set (s := stream buf e0 evs) in *.
    assert (He : sent (onerror s) = sent s).
    { unfold onerror, clear_timeout. cbn.
      destruct (chunkTimeoutId s); reflexivity. }
    destruct ev as [e| | |e]; cbn [handle].
    + unfold timer_fires. destruct (armed s) as [t|] eqn:Ea; [|exact IH].
      destruct (Hw t Ea) as (_ & _ & _ & Hlt).
      apply sendChunk_no_complete; [cbn; lia|exact IH].
    + rewrite He. exact IH.
    + unfold onclose. rewrite He. exact IH.
    + unfold onstatechange. destruct (not_open (readyState e));
        [rewrite He|]; exact IH.
Qed.

(** X3.  The [complete] message is sent for the empty asset only: a
    stream of an asset with at least one byte, interrupted or not, never
    carries it. *)
Theorem complete_only_for_empty_asset
        (buf : bytes) (e0 : env) (evs : list event) :
  In MsgComplete (sent (stream buf e0 evs)) -> buf = [].
Proof.
  intros H. destruct buf as [|b buf]; [reflexivity|].
  exfalso. revert H. apply nonempty_never_completes. discriminate.
Qed.

Lemma complete_only_for_empty_asset_witness :
  In MsgComplete (sent (stream [] idle_env [])) /\ @nil byte = [].
Proof.
  assert (H : In MsgComplete (sent (stream [] idle_env [])))
    by (right; left; reflexivity).
  split; [exact H|].
  exact (complete_only_for_empty_asset [] idle_env [] H).
Defined.

(** X4.  When the asset cannot be had, [onopen] sends no metadata and no
    chunk: it sends one error message ("Audio file not found" when the file
    is missing, the exception's message when reading fails), or none when
    that send throws, and closes the channel; a failed read also turns
    streaming off.  Nothing is sent afterwards. *)
Theorem unavailable_asset_reports_and_closes
        (e : env) (buf : bytes) (evs : list event) :
  (let s := onopen FileMissing e initial in
   channelClosed s = true
   /\ sent s = (if sendThrows e then []
               else [MsgError "Audio file not found"])
   /\ sent (run buf evs s) = sent s)
  /\ (forall msg : string,
        let s := onopen (FileUnreadable msg) e initial in
        channelClosed s = true
        /\ streamingActive s = false
        /\ sent s = (if sendThrows e then [] else [MsgError msg])
        /\ sent (run buf evs s) = sent s).
Proof.
  split; [|intros msg]; cbv zeta.
  - assert (H : channelClosed (onopen FileMissing e initial) = true
                /\ sent (onopen FileMissing e initial)
                   = (if sendThrows e then []
                      else [MsgError "Audio file not found"])
                /\ armed (onopen FileMissing e initial) = None).
    { unfold onopen, onopen_catch, dc_send.
      destruct (sendThrows e) eqn:Et; cbn; rewrite ?Et; cbn; auto. }
    destruct H as (H1 & H2 & H3).
    destruct (unarmed_stays_silent buf evs _ H3) as [H4 _]. auto.
  - assert (H : channelClosed (onopen (FileUnreadable msg) e initial) = true
                /\ streamingActive (onopen (FileUnreadable msg) e initial)
                   = false
                /\ sent (onopen (FileUnreadable msg) e initial)
                   = (if sendThrows e then [] else [MsgError msg])
                /\ armed (onopen (FileUnreadable msg) e initial) = None).
    { unfold onopen, onopen_catch, dc_send.
      destruct (sendThrows e) eqn:Et; cbn; auto. }
    destruct H as (H1 & H2 & H3 & H4).
    destruct (unarmed_stays_silent buf evs _ H4) as [H5 _]. auto.
Qed.

End SenderExtFacts.

(** * Facts about retries *)

Module ConnectionExtFacts.
Import Connection ConnectionExt ConnectionFacts.

Lemma backoff_in_range (attempt : Z) :
  1 <= attempt -> in_backoff_range (backoff_delay attempt).
Proof.
  intros H. split; [apply backoff_delay_at_least_1000; exact H|].
  unfold backoff_delay. lia.
Qed.

(** X5.  The backoff delay, for retries numbered from 1, never decreases
    from one retry to the next, is one second doubled for each earlier
    retry up to the third, and is capped at five seconds from the fourth
    on. *)
Theorem backoff_doubles_up_to_cap (attempt : Z) :
  1 <= attempt ->
  backoff_delay attempt <= backoff_delay (attempt + 1)
  /\ 1000 <= backoff_delay attempt <= 5000
  /\ (attempt <= 3 -> backoff_delay attempt = 1000 * 2 ^ (attempt - 1))
  /\ (4 <= attempt -> backoff_delay attempt = 5000).
Proof.
  intros H. unfold backoff_delay.
  assert (Hp : 0 < 2 ^ (attempt - 1)) by (apply Z.pow_pos_nonneg; lia).
  assert (Hs : 2 ^ (attempt + 1 - 1) = 2 * 2 ^ (attempt - 1)).
  { replace (attempt + 1 - 1) with (Z.succ (attempt - 1)) by lia.
    apply Z.pow_succ_r. lia. }
  rewrite Hs. split; [lia|]. split; [lia|]. split.
  - intros H3.
    assert (Hc : attempt = 1 \/ attempt = 2 \/ attempt = 3) by lia.
    destruct Hc as [Hc|[Hc|Hc]]; subst attempt; reflexivity.
  - intros H4.
    assert (2 ^ 3 <= 2 ^ (attempt - 1)) by (apply Z.pow_le_mono_r; lia).
    change (2 ^ 3) with 8 in *. lia.
Qed.

Lemma backoff_doubles_up_to_cap_witness :
  backoff_delay 3 <= backoff_delay 4 /\ backoff_delay 7 = 5000.
Proof.
  destruct (backoff_doubles_up_to_cap 3 ltac:(lia)) as (H1 & _).
  destruct (backoff_doubles_up_to_cap 7 ltac:(lia)) as (_ & _ & _ & H2).
  split; [exact H1 | apply H2; lia].
Defined.

Section Bounds.

Variable cfg : config.
Hypothesis max_nonneg : 0 <= maxReconnectAttempts cfg.

Lemma bounded_ext (c c' : conn) :
  reconnectAttempt c' = reconnectAttempt c ->
  scheduled c' = scheduled c ->
  (reconnectTimeout c' = reconnectTimeout c \/ reconnectTimeout c' = None) ->
  incl (pendingTimers c') (pendingTimers c) ->
  bounded cfg c -> bounded cfg c'.
Proof.
  intros H1 H2 H3 H4 (Ha & Hs & Ht & Hp). unfold bounded.
  rewrite H1, H2. split; [exact Ha|]. split; [exact Hs|]. split.
  - intros t Hd. destruct H3 as [H3|H3]; rewrite H3 in Hd;
      [auto|discriminate].
  - exact (incl_Forall H4 Hp).
Qed.

Lemma bounded_cleanup (c : conn) : bounded cfg c -> bounded cfg (cleanup c).
Proof.
  apply bounded_ext; auto. cbn.
  destruct (reconnectTimeout c); [apply incl_filter|apply incl_refl].
Qed.

Lemma bounded_handleReconnect (isAuto : bool) (c : conn) :
  bounded cfg c -> bounded cfg (handleReconnect cfg isAuto c).
Proof.
  intros Hb. pose proof Hb as (Ha & Hs & Ht & Hp). unfold handleReconnect.
  destruct (manualDisconnect c); [exact Hb|].
  destruct (reconnectAttempt c <? maxReconnectAttempts cfg) eqn:E;
    [|exact Hb].
  destruct isAuto; [|exact Hb]. cbn [andb]. cbv zeta.
  assert (Hr : in_backoff_range (backoff_delay (reconnectAttempt c + 1)))
    by (apply backoff_in_range; lia).
  unfold bounded.
  cbn [reconnectAttempt scheduled reconnectTimeout pendingTimers errors].
  split; [lia|]. split; [|split].
  - apply Forall_app. split; [exact Hs|]. constructor; [exact Hr|constructor].
  - intros t Hd. injection Hd as <-. exact Hr.
  - apply Forall_app. split; [exact Hp|]. constructor; [exact Hr|constructor].
Qed.

Lemma bounded_error_if_exhausted (msg : string) (c : conn) :
  bounded cfg c -> bounded cfg (error_if_exhausted cfg msg c).
Proof.
  intros Hb. unfold error_if_exhausted. destruct (_ <=? _); [|exact Hb].
  revert Hb. apply bounded_ext; auto using incl_refl.
Qed.

Lemma bounded_connect (isAuto : bool) (c : conn) :
  bounded cfg c -> bounded cfg (connect isAuto c).
Proof.
  intros Hb. unfold connect. destruct (is_connected _); [exact Hb|].
  revert Hb. apply bounded_ext; auto. cbn.
  destruct (reconnectTimeout c); [apply incl_filter|apply incl_refl].
Qed.

Lemma bounded_timer_fires (id : nat) (c : conn) :
  bounded cfg c -> bounded cfg (pending_timer_fires id c).
Proof.
  intros Hb. unfold pending_timer_fires. destruct (is_pending id c); [|exact Hb].
  apply bounded_connect. revert Hb.
  apply bounded_ext; auto. apply incl_filter.
Qed.

Lemma bounded_react (ev : conn_event) (c : conn) :
  bounded cfg c -> bounded cfg (react cfg ev c).
Proof.
  intros Hb. destruct ev as [isAuto| |p| | | |id|]; cbn [react].
  - apply bounded_connect. exact Hb.
  - apply bounded_error_if_exhausted, bounded_handleReconnect.
    revert Hb. apply bounded_ext; auto using incl_refl.
  - assert (H1 : bounded cfg (set_pc_state p c))
      by (revert Hb; apply bounded_ext; auto using incl_refl).
    unfold onconnectionstatechange. cbv zeta.
    destruct p; try exact H1;
      try (apply bounded_error_if_exhausted, bounded_handleReconnect;
           revert H1; apply bounded_ext; auto using incl_refl).
    destruct (negb _).
    + apply bounded_error_if_exhausted, bounded_handleReconnect.
      revert H1. apply bounded_ext; auto using incl_refl.
    + revert H1. apply bounded_ext; auto using incl_refl.
  - destruct Hb as (Ha & Hs & Ht & Hp). unfold bounded, dataChannel_onopen.
    cbn. split; [lia|]. split; [exact Hs|]. split; [exact Ht|exact Hp].
  - apply bounded_error_if_exhausted, bounded_handleReconnect.
    revert Hb. apply bounded_ext; auto using incl_refl.
  - unfold retry_timer_fires. destruct (reconnectTimeout c); [|exact Hb].
    apply bounded_timer_fires. exact Hb.
  - apply bounded_timer_fires. exact Hb.
  - unfold disconnect.
    assert (H1 : bounded cfg (set_manualDisconnect true c))
      by (revert Hb; apply bounded_ext; auto using incl_refl).
    apply bounded_cleanup in H1. revert H1.
    apply bounded_ext; auto using incl_refl.
Qed.

Lemma bounded_lifecycle (evs : list conn_event) :
  forall c : conn, bounded cfg c -> bounded cfg (lifecycle cfg evs c).
Proof.
  induction evs as [|ev evs IH]; intros c Hb; [exact Hb|].
  cbn [lifecycle fold_left]. apply IH, bounded_react, Hb.
Qed.

End Bounds.

(** X6.  Whatever happens to a hook, the retry counter stays between 0 and
    [maxReconnectAttempts], every delay ever handed to [setTimeout] lies
    between one and five seconds, and so does the delay of the timer the
    ref holds and of every timer that is pending. *)
Theorem retries_are_bounded (cfg : config) (evs : list conn_event) :
  0 <= maxReconnectAttempts cfg ->
  let c := lifecycle cfg evs fresh in
  0 <= reconnectAttempt c <= maxReconnectAttempts cfg
  /\ Forall (fun d => 1000 <= d <= 5000) (scheduled c)
  /\ (forall t : retry_timer,
        reconnectTimeout c = Some t -> 1000 <= retry_delay t <= 5000)
  /\ Forall (fun t => 1000 <= retry_delay t <= 5000) (pendingTimers c).
Proof.
  intros Hm c.
  assert (Hb : bounded cfg fresh).
  { unfold bounded. cbn. split; [lia|]. split; [constructor|].
    split; [intros d H; discriminate H|constructor]. }
  destruct (bounded_lifecycle cfg Hm evs fresh Hb) as (H1 & H2 & H3 & H4).
  split; [exact H1|]. split; [exact H2|]. split; [exact H3|exact H4].
Qed.

Lemma retries_are_bounded_witness :
  reconnectAttempt (lifecycle default_config (Connect true :: failures 4) fresh)
  <= 3.
Proof.
  destruct (retries_are_bounded default_config (Connect true :: failures 4)
              ltac:(cbn; lia)) as ((_ & H) & _).
  exact H.
Defined.


Lemma manual_quiet_ext (c c' : conn) :
  sessionIsAuto c' = sessionIsAuto c ->
  reconnectAttempt c' = reconnectAttempt c ->
  scheduled c' = scheduled c ->
  reconnectTimeout c' = reconnectTimeout c ->
  pendingTimers c' = pendingTimers c ->
  errors c' = errors c ->
  manual_quiet c -> manual_quiet c'.
Proof. unfold manual_quiet. intros -> -> -> -> -> ->. auto. Qed.

Lemma manual_quiet_failure (cfg : config) (msg : string) (c : conn) :
  0 < maxReconnectAttempts cfg ->
  manual_quiet c ->
  error_if_exhausted cfg msg (handleReconnect cfg (sessionIsAuto c) c) = c.
Proof.
  intros Hm (Ha & Hn & _). rewrite Ha.
  rewrite handleReconnect_no_retry by (right; reflexivity).
  unfold error_if_exhausted. rewrite Hn.
  destruct (maxReconnectAttempts cfg <=? 0) eqn:E; [lia|reflexivity].
Qed.

Lemma manual_quiet_react (cfg : config) (ev : conn_event) (c : conn) :
  0 < maxReconnectAttempts cfg ->
  not_auto_connect ev ->
  manual_quiet c -> manual_quiet (react cfg ev c).
Proof.
  intros Hm Hev Hq. destruct ev as [isAuto| |p| | | |id|]; cbn [react].
  - destruct isAuto; [exfalso; apply Hev; reflexivity|].
    unfold connect. destruct (is_connected _); [exact Hq|].
    destruct Hq as (H1 & H2 & H3 & H4 & H5 & H6).
    unfold manual_quiet. cbn. rewrite H4, H5. auto 10.
  - unfold connect_catch.
    assert (H1 : manual_quiet (set_flags false false c))
      by (revert Hq; apply manual_quiet_ext; reflexivity).
    change (sessionIsAuto c) with (sessionIsAuto (set_flags false false c)).
    rewrite manual_quiet_failure by assumption. exact H1.
  - assert (H1 : manual_quiet (set_pc_state p c))
      by (revert Hq; apply manual_quiet_ext; reflexivity).
    assert (H2 : manual_quiet (set_flags false false (set_pc_state p c)))
      by (revert H1; apply manual_quiet_ext; reflexivity).
    unfold onconnectionstatechange. cbv zeta.
    destruct p; try exact H1.
    + change (sessionIsAuto (set_pc_state PcDisconnected c))
        with (sessionIsAuto
                (set_flags false false (set_pc_state PcDisconnected c))).
      rewrite manual_quiet_failure by assumption. exact H2.
    + change (sessionIsAuto (set_pc_state PcFailed c))
        with (sessionIsAuto
                (set_flags false false (set_pc_state PcFailed c))).
      rewrite manual_quiet_failure by assumption. exact H2.
    + destruct (negb _); [|exact H2].
      rewrite manual_quiet_failure by assumption. exact H2.
  - destruct Hq as (H1 & H2 & H3 & H4 & H5 & H6).
    unfold manual_quiet, dataChannel_onopen. cbn. auto 10.
  - unfold dataChannel_onerror.
    assert (H1 : manual_quiet (set_flags false (isConnecting c) c))
      by (revert Hq; apply manual_quiet_ext; reflexivity).
    change (sessionIsAuto c)
      with (sessionIsAuto (set_flags false (isConnecting c) c)).
    rewrite manual_quiet_failure by assumption. exact H1.
  - unfold retry_timer_fires. destruct Hq as (H1 & H2 & H3 & H4 & H5 & H6).
    rewrite H4. unfold manual_quiet. auto 10.
  - unfold pending_timer_fires, is_pending.
    destruct Hq as (H1 & H2 & H3 & H4 & H5 & H6).
    rewrite H5. cbn. unfold manual_quiet. auto 10.
  - destruct Hq as (H1 & H2 & H3 & H4 & H5 & H6).
    unfold manual_quiet, disconnect. cbn. rewrite H4, H5. auto 10.
Qed.

(** X7.  A hook on which [connect] is only ever called with
    [isAuto: false] never schedules a retry: whatever fails, the counter
    stays at 0 and no timer is set; and, [maxReconnectAttempts] being
    above 0, the handlers of connection-state changes, of data-channel
    errors and of a failed connect never call [onError]. *)
Theorem manual_session_never_retries (cfg : config) (evs : list conn_event) :
  0 < maxReconnectAttempts cfg ->
  Forall not_auto_connect evs ->
  let c := lifecycle cfg evs fresh in
  scheduled c = [] /\ reconnectTimeout c = None
  /\ pendingTimers c = []
  /\ reconnectAttempt c = 0 /\ errors c = [].
Proof.
  intros Hm Hevs c.
  assert (Hq : manual_quiet c).
  { unfold c. assert (H0 : manual_quiet fresh) by (repeat split).
    revert H0. generalize fresh.
    induction Hevs as [|ev evs Hev _ IH]; intros c0 H0; [exact H0|].
    cbn [lifecycle fold_left]. apply IH, manual_quiet_react; assumption. }
  destruct Hq as (_ & H2 & H3 & H4 & H5 & H6). auto 10.
Qed.

Lemma manual_session_never_retries_witness :
  errors (lifecycle default_config
            [Connect false; ConnectionState PcFailed; ConnectFails] fresh)
  = [].
Proof.
  apply (manual_session_never_retries default_config
           [Connect false; ConnectionState PcFailed; ConnectFails]).
  - cbn. lia.
  - repeat constructor; discriminate.
Defined.

Lemma disconnected_quiet_react (cfg : config) (delays : list Z)
      (ev : conn_event) (c : conn) :
  not_connect ev ->
  disconnected_quiet delays c -> disconnected_quiet delays (react cfg ev c).
Proof.
  intros Hev (Hm & Ht & Hp & Hs).
  assert (Hh : forall (isAuto : bool) (c' : conn),
             manualDisconnect c' = true ->
             handleReconnect cfg isAuto c' = c')
    by (intros isAuto c' H; unfold handleReconnect; rewrite H; reflexivity).
  assert (He : forall (msg : string) (c' : conn),
             disconnected_quiet delays c' ->
             disconnected_quiet delays (error_if_exhausted cfg msg c')).
  { intros msg c' H. unfold error_if_exhausted.
    destruct (_ <=? _); exact H. }
  destruct ev as [isAuto| |p| | | |id|]; cbn [react].
  - exfalso. exact (Hev isAuto eq_refl).
  - unfold connect_catch. rewrite Hh by exact Hm. apply He.
    repeat split; assumption.
  - unfold onconnectionstatechange. cbv zeta.
    destruct p; cbn [set_pc_state set_flags manualDisconnect negb];
      rewrite ?Hm; cbn [negb];
      try (rewrite Hh by exact Hm; apply He);
      repeat split; assumption.
  - repeat split; assumption.
  - unfold dataChannel_onerror. rewrite Hh by exact Hm. apply He.
    repeat split; assumption.
  - unfold retry_timer_fires. rewrite Ht. repeat split; assumption.
  - unfold pending_timer_fires, is_pending. rewrite Hp. cbn.
    repeat split; assumption.
  - unfold disconnected_quiet, disconnect. cbn. rewrite Ht, Hp. auto.
Qed.

Lemma clearTimeout_keeps (id : nat) (t : retry_timer)
      (timers : list retry_timer) :
  In t timers -> retry_id t <> id -> In t (clearTimeout id timers).
Proof.
  intros Hin Hne. unfold clearTimeout. apply filter_In. split; [exact Hin|].
  apply negb_true_iff, Nat.eqb_neq. exact Hne.
Qed.

(** X8.  [disconnect()] clears the timer the ref holds and no other: a
    timer whose id a later failure has overwritten in the ref stays
    pending, and when it fires it calls [connect({ isAuto: true })], which
    takes the manual flag back.  When the disconnect leaves no timer
    pending then, until [connect] is called again, nothing schedules a
    retry: the manual flag stays set, no timer is pending and nothing is
    added to the delays handed to [setTimeout]. *)
Theorem disconnect_suppresses_retries
        (cfg : config) (c : conn) (evs : list conn_event) :
  (pendingTimers (disconnect c) = [] ->
   Forall not_connect evs ->
   let c' := lifecycle cfg evs (disconnect c) in
   manualDisconnect c' = true
   /\ reconnectTimeout c' = None
   /\ pendingTimers c' = []
   /\ scheduled c' = scheduled c)
  /\ (forall t : retry_timer,
        left_over t c ->
        let c' := react cfg (TimerFires (retry_id t)) (disconnect c) in
        In t (pendingTimers (disconnect c))
        /\ manualDisconnect c' = false
        /\ isConnecting c' = true
        /\ sessionIsAuto c' = true).
Proof.
  split.
  - intros Hp Hevs c'.
    assert (H0 : disconnected_quiet (scheduled c) (disconnect c))
      by (repeat split; exact Hp).
    unfold c'. revert H0. generalize (disconnect c).
    induction Hevs as [|ev evs Hev _ IH]; intros c0 H0; [exact H0|].
    cbn [lifecycle fold_left].
    apply IH, disconnected_quiet_react; assumption.
  - intros t [Hin Hheld] c'.
    assert (Hin' : In t (pendingTimers (disconnect c))).
    { unfold disconnect. cbn.
      destruct (reconnectTimeout c) as [held|] eqn:Eh; [|exact Hin].
      apply clearTimeout_keeps; [exact Hin|].
      intros Heq. exact (Hheld held eq_refl (eq_sym Heq)). }
    split; [exact Hin'|].
    assert (Hpend : is_pending (retry_id t) (disconnect c) = true).
    { unfold is_pending. apply existsb_exists. exists t.
      split; [exact Hin'|apply Nat.eqb_refl]. }
    unfold c'. cbn [react]. unfold pending_timer_fires. rewrite Hpend.
    unfold connect, disconnect. cbn. auto.
Qed.

Lemma disconnect_suppresses_retries_witness :
  let c := lifecycle default_config
             [Connect true; ConnectionState PcFailed] fresh in
  let twice := lifecycle default_config
                 [Connect true; ConnectionState PcDisconnected;
                  ConnectionState PcFailed] fresh in
  scheduled (lifecycle default_config
               [ConnectionState PcClosed; DataChannelError; RetryTimerFires]
               (disconnect c))
  = [1000]
  /\ manualDisconnect
       (react default_config (TimerFires 1) (disconnect twice)) = false.
Proof.
  intros c twice.
  destruct (disconnect_suppresses_retries default_config c
              [ConnectionState PcClosed; DataChannelError; RetryTimerFires])
    as [H1 _].
  destruct (disconnect_suppresses_retries default_config twice [])
    as [_ H2].
  split.
  - apply H1; [reflexivity|].
    repeat constructor; intros isAuto H; discriminate H.
  - apply (H2 {| retry_id := 1; retry_delay := 1000 |}).
    split.
    + left. reflexivity.
    + intros held H. injection H as <-. discriminate.
Defined.

End ConnectionExtFacts.

(** * Facts about the control-message handler *)

Module MessagesFacts.
Import Messages.

Lemma invoke_shape (cb : callback) (a : action) :
  is_call a = true ->
  let '(done, went_on) := invoke cb a in
  (done = [] \/ done = [a])
  /\ (List.length (filter is_call done) <= 1)%nat
  /\ ~ In ChannelClosed done
  /\ (went_on = false -> cb = Given true).
Proof.
  intros Ha. destruct cb as [|[|]]; cbn; rewrite ?Ha; cbn;
    repeat split; auto; try lia; try discriminate;
    intros [H|[]]; subst a; discriminate Ha.
Qed.

(** X9.  [handleJsonMessage] never lets an exception out.  A text that
    does not parse, or that parses to [null], makes it do nothing and
    return [false].  It calls at most one callback, and it closes the
    channel only for a message of type "error", after [onError] has
    returned.  With callbacks that do not throw it returns [false] for
    those malformed texts only. *)
Theorem malformed_messages_are_swallowed
        (JSON_parse : string -> result json) (data : string)
        (cbs : callbacks) (hasChannel : bool) :
  let done := fst (handleJsonMessage JSON_parse data cbs hasChannel) in
  let returned := snd (handleJsonMessage JSON_parse data cbs hasChannel) in
  ((exists msg, JSON_parse data = Throw msg) \/ JSON_parse data = Ok JNull ->
   done = [] /\ returned = false)
  /\ (List.length (filter is_call done) <= 1)%nat
  /\ (In ChannelClosed done ->
      hasChannel = true /\ returned = true
      /\ exists message type,
          JSON_parse data = Ok message /\ get "type" message = Ok type
          /\ is_type "error" type = true)
  /\ (onMetadata cbs <> Given true -> onError cbs <> Given true ->
      onComplete cbs <> Given true ->
      returned = false ->
      (exists msg, JSON_parse data = Throw msg) \/ JSON_parse data = Ok JNull).
Proof.
  cbv zeta. unfold handleJsonMessage.
  destruct (JSON_parse data) as [message|msg] eqn:Ep.
  2:{ cbn. repeat split; eauto; try lia; try (intros []). }
  destruct (get "type" message) as [type|msg] eqn:Eg.
  2:{ assert (message = JNull) as ->
        by (destruct message; cbn in Eg; congruence).
      cbn. repeat split; eauto; try lia; try (intros []). }
  assert (Hnn : message <> JNull)
    by (intros ->; cbn in Eg; discriminate Eg).
  assert (Hbad : (exists msg, Ok message = Throw msg) \/ Ok message = Ok JNull
                 -> False).
  { intros [[msg H]|H]; [discriminate H|]. injection H as H. exact (Hnn H). }
  destruct (is_type "metadata" type) eqn:Em.
  { pose proof (invoke_shape (onMetadata cbs) (MetadataCalled message) eq_refl)
      as H.
    destruct (invoke _ _) as [done went_on]. destruct H as (_ & H1 & H2 & H3).
    cbn [fst snd]. split; [intros Hb; destruct (Hbad Hb)|].
    split; [exact H1|]. split; [intros Hc; destruct (H2 Hc)|].
    intros Hm _ _ Hr. destruct (Hm (H3 Hr)). }
  destruct (is_type "error" type) eqn:Ee.
  { set (text := match get "message" message with
                 | Ok (Some m) =>
                     if truthy (Some m) then m
                     else JString "An error occurred while streaming"
                 | _ => JString "An error occurred while streaming"
                 end).
    pose proof (invoke_shape (onError cbs) (ErrorCalled text) eq_refl) as H.
    destruct (invoke _ _) as [done went_on]. destruct H as (H0 & H1 & H2 & H3).
    destruct went_on; cbn [fst snd].
    - split; [intros Hb; destruct (Hbad Hb)|]. split.
      + rewrite filter_app, length_app.
        destruct hasChannel; cbn; lia.
      + split.
        * intros Hc. apply in_app_or in Hc. destruct Hc as [Hc|Hc];
            [destruct (H2 Hc)|].
          destruct hasChannel; [|destruct Hc].
          repeat split. exists message, type. auto.
        * intros _ _ _ Hr. discriminate Hr.
    - split; [intros Hb; destruct (Hbad Hb)|].
      split; [exact H1|]. split; [intros Hc; destruct (H2 Hc)|].
      intros _ He _ _. destruct (He (H3 eq_refl)). }
  destruct (is_type "complete" type) eqn:Ec.
  { pose proof (invoke_shape (onComplete cbs) CompleteCalled eq_refl) as H.
    destruct (invoke _ _) as [done went_on]. destruct H as (_ & H1 & H2 & H3).
    cbn [fst snd]. split; [intros Hb; destruct (Hbad Hb)|].
    split; [exact H1|]. split; [intros Hc; destruct (H2 Hc)|].
    intros _ _ Hm Hr. destruct (Hm (H3 Hr)). }
  cbn. split; [intros Hb; destruct (Hbad Hb)|].
  split; [lia|]. split; [intros []|]. intros _ _ _ Hr. discriminate Hr.
Qed.

Lemma malformed_messages_are_swallowed_witness :
  handleJsonMessage (fun _ => Throw "Unexpected token") "invalid json"
    plain_callbacks true
  = ([], false).
Proof.
  destruct (malformed_messages_are_swallowed
              (fun _ => Throw "Unexpected token") "invalid json"
              plain_callbacks true) as (H & _).
  destruct (H (or_introl (ex_intro _ "Unexpected token"%string eq_refl)))
    as [H1 H2].
  reflexivity.
Defined.

End MessagesFacts.

(** * Facts about accumulation and decode triggers *)

Module DecoderExtFacts.
Import Decoder DecoderExt DecoderFacts.

Local Open Scope Z_scope.

Lemma chunks_of_snoc (evs : list decoder_event) (ev : decoder_event) :
  chunks_of (evs ++ [ev])
  = match ev with
    | AddChunk arrayBuffer _ => chunks_of evs ++ [arrayBuffer]
    | Reset => []
    | _ => chunks_of evs
    end.
Proof. unfold chunks_of. rewrite fold_left_app. reflexivity. Qed.

Lemma tryDecode_finish_keeps (i : nat) (o : decode_outcome) (d : decoder) :
  rawChunks (fst (tryDecode_finish i o d)) = rawChunks d
  /\ accumulatedBuffer (fst (tryDecode_finish i o d)) = accumulatedBuffer d.
Proof.
  pose proof (tryDecode_finish_cases i o d) as H.
  destruct (nth_error (inFlight d) i) as [[snapshot size]|]; [destruct o|];
    rewrite H; split; reflexivity.
Qed.

Lemma addChunk_accumulates (arrayBuffer : bytes)
      (ensure : option ensure_outcome) (d : decoder) :
  rawChunks (addChunk arrayBuffer ensure d) = rawChunks d ++ [arrayBuffer]
  /\ accumulatedBuffer (addChunk arrayBuffer ensure d)
     = Some (List.concat (rawChunks d ++ [arrayBuffer])).
Proof.
  unfold addChunk, performAccumulation, accumulateChunks.
  cbn [push_chunk rawChunks]. cbv zeta.
  set (d1 := {| bufferedSeconds := bufferedSeconds (push_chunk arrayBuffer d);
                rawChunks := rawChunks d ++ [arrayBuffer] |}).
  set (d2 := if is_empty (decodedBuffers d1) then _ else d1).
  assert (H2 : rawChunks d2 = rawChunks d ++ [arrayBuffer]
               /\ accumulatedBuffer d2
                  = Some (List.concat (rawChunks d ++ [arrayBuffer]))).
  { unfold d2. destruct (is_empty (decodedBuffers d1)); split; reflexivity. }
  destruct (_ && negb (isDecoding d2)); [|exact H2].
  destruct (tryDecode_begin_keeps false ensure d2) as (_ & _ & H3 & H4).
  cbv zeta in H3, H4. rewrite H3, H4. exact H2.
Qed.

(** X10.  Whatever else happens, the chunks received since the last
    reset are kept in arrival order and the accumulated buffer is their
    concatenation in that order; it is absent until the first of them
    arrives. *)
Theorem accumulation_preserves_order (evs : list decoder_event) :
  let d := after_events evs in
  rawChunks d = chunks_of evs
  /\ accumulatedBuffer d
     = match chunks_of evs with
       | [] => None
       | _ => Some (List.concat (chunks_of evs))
       end.
Proof.
  induction evs as [|ev evs IH] using rev_ind; [split; reflexivity|].
  cbv zeta in *. rewrite session_snoc, chunks_of_snoc.
  destruct IH as [IH1 IH2]. destruct ev as [c e|f e|i o|]; cbn [step].
  - destruct (addChunk_accumulates c e (after_events evs)) as [H1 H2].
    rewrite H1, H2, IH1. split; [reflexivity|].
    destruct (chunks_of evs); reflexivity.
  - destruct (tryDecode_begin_keeps f e (after_events evs))
      as (_ & _ & H1 & H2).
    cbv zeta in H1, H2. rewrite H1, H2. split; assumption.
  - destruct (tryDecode_finish_keeps i o (after_events evs)) as [H1 H2].
    rewrite H1, H2. split; assumption.
  - split; reflexivity.
Qed.


(** The comparisons on seconds, as comparisons on byte counts. *)
Lemma threshold_reached (n : Z) :
  Qle_bool bufferThresholdSeconds (estimateBufferedDuration n)
  = (THRESHOLD_BYTES <=? n).
Proof.
  change THRESHOLD_BYTES with 122880.
  destruct (122880 <=? n) eqn:E;
    unfold Qle_bool, estimateBufferedDuration, bufferThresholdSeconds; cbn.
  - apply Z.leb_le. apply Z.leb_le in E. lia.
  - apply Z.leb_gt. apply Z.leb_gt in E. lia.
Qed.

Lemma grown_by_fifth (last size : Z) :
  Qltb (inject_Z last * (12 # 10)) (inject_Z size) = (6 * last <? 5 * size).
Proof.
  destruct (6 * last <? 5 * size) eqn:E; unfold Qltb, Qle_bool; cbn.
  - apply negb_true_iff, Z.leb_gt. apply Z.ltb_lt in E. lia.
  - apply negb_false_iff, Z.leb_le. apply Z.ltb_ge in E. lia.
Qed.

(** X11.  The estimate, [totalBytes / 12288] seconds, does not decrease
    when bytes are added, and it reaches the 10-second threshold exactly
    at 122880 bytes. *)
Theorem estimate_reaches_threshold_at_122880 (a b : Z) :
  a <= b ->
  (estimateBufferedDuration a <= estimateBufferedDuration b)%Q
  /\ ((bufferThresholdSeconds <= estimateBufferedDuration a)%Q
      <-> 122880 <= a)
  /\ (estimateBufferedDuration 122880 == bufferThresholdSeconds)%Q.
Proof.
  intros Hab. split; [|split].
  - unfold estimateBufferedDuration, Qle. cbn. lia.
  - rewrite <- Qle_bool_iff, threshold_reached. apply Z.leb_le.
  - reflexivity.
Qed.

Lemma estimate_reaches_threshold_at_122880_witness :
  (estimateBufferedDuration 65536 <= estimateBufferedDuration 131072)%Q.
Proof.
  apply (estimate_reaches_threshold_at_122880 65536 131072). lia.
Defined.

Lemma tryDecode_submit_busy (forceMode : bool) (d : decoder) :
  isDecoding d = true -> tryDecode_submit forceMode d = (d, ReturnedNull).
Proof.
  intros H. unfold tryDecode_submit. rewrite H.
  destruct (audioContext d), (accumulatedBuffer d); reflexivity.
Qed.

(** X12.  In a session that began with no decode in flight (at the
    mounting, or at a reset called while none was pending) decodes are
    serialized: at most one is in flight, and one is exactly when the busy
    flag is set.  While the flag is set, a call of [tryDecode], forced or
    not, returns [null] and a call of [addChunk] submits nothing; the
    decodes in flight stay as they were.  A reset called while a decode
    is in flight lifts the flag without cancelling the decode, and a
    second decode can then be submitted beside it. *)
Theorem one_decode_at_a_time (idle : decoder) (evs : list decoder_event) :
  inFlight idle = [] -> one_session evs ->
  let d := events_from (reset idle) evs in
  (isDecoding d = true <-> inFlight d <> [])
  /\ (List.length (inFlight d) <= 1)%nat
  /\ (isDecoding d = true ->
      forall (forceMode : bool) (ensure : option ensure_outcome)
             (arrayBuffer : bytes),
        snd (tryDecode_begin forceMode ensure d) = ReturnedNull
        /\ inFlight (fst (tryDecode_begin forceMode ensure d)) = inFlight d
        /\ inFlight (addChunk arrayBuffer ensure d) = inFlight d
        /\ isDecoding (addChunk arrayBuffer ensure d) = true)
  /\ (isDecoding (after_events (awaiting_decode ++ [Reset])) = false
      /\ List.length (inFlight (after_events (awaiting_decode ++ [Reset])))
         = 1%nat
      /\ List.length (inFlight (after_events second_decode)) = 2%nat).
Proof.
  intros Hidle Hs d.
  assert (Hc : consistent d)
    by (apply session_consistent; [apply consistent_reset; exact Hidle
                                  |exact Hs]).
  split; [|split; [|split]].
  - destruct Hc as (_ & _ & Hf & _ & Hi). split; [exact Hi|].
    intros Hne. destruct (inFlight d) as [|[snapshot size] l];
      [congruence|].
    destruct (Hf snapshot size (or_introl eq_refl)) as (_ & _ & H). exact H.
  - destruct Hc as (_ & _ & _ & Hn & _). exact Hn.
  - intros Hb forceMode ensure arrayBuffer.
    assert (H1 : snd (tryDecode_begin forceMode ensure d) = ReturnedNull
                 /\ inFlight (fst (tryDecode_begin forceMode ensure d))
                    = inFlight d).
    { unfold tryDecode_begin.
      destruct (_ && _); [destruct ensure as [[ctx|]|]|];
        rewrite ?tryDecode_submit_busy by exact Hb; auto. }
    destruct H1 as [H1 H2]. split; [exact H1|]. split; [exact H2|].
    unfold addChunk.
    destruct (performAccumulation (push_chunk arrayBuffer d))
      as [d1 total] eqn:Ep.
    unfold performAccumulation, accumulateChunks in Ep. injection Ep as <- _.
    cbv zeta. cbn [decodedBuffers push_chunk].
    destruct (is_empty (decodedBuffers d));
      cbn [isDecoding setBufferedSeconds push_chunk]; rewrite Hb;
      rewrite andb_false_r; split; reflexivity.
  - split; [reflexivity|]. split; reflexivity.
Qed.

Lemma one_decode_at_a_time_witness :
  inFlight (addChunk ["d"%byte] None
              (events_from (reset empty_decoder) awaiting_decode))
  = inFlight (events_from (reset empty_decoder) awaiting_decode).
Proof.
  destruct (one_decode_at_a_time empty_decoder awaiting_decode eq_refl
              ltac:(repeat constructor)) as (_ & _ & H & _).
  destruct (H eq_refl true None ["d"%byte]) as (_ & _ & H3 & _).
  exact H3.
Defined.


Lemma performAccumulation_push (arrayBuffer : bytes) (d : decoder) :
  performAccumulation (push_chunk arrayBuffer d)
  = ({| bufferedSeconds := bufferedSeconds d;
        rawChunks := rawChunks d ++ [arrayBuffer];
        accumulatedBuffer := Some (List.concat (rawChunks d ++ [arrayBuffer]));
        decodedBuffers := decodedBuffers d; isDecoding := isDecoding d;
        lastDecodedBytes := lastDecodedBytes d;
        audioContext := audioContext d; inFlight := inFlight d |},
     bytes_with arrayBuffer d).
Proof.
  unfold performAccumulation, accumulateChunks, bytes_with.
  cbn [push_chunk rawChunks bufferedSeconds decodedBuffers isDecoding
       lastDecodedBytes audioContext inFlight].
  rewrite fold_sizes. reflexivity.
Qed.

(** X13.  Before anything has been decoded, [addChunk] shows the estimate
    for the bytes accumulated and submits the first decode only once they
    are at least 122880: below that it submits nothing, whatever the audio
    context; from there on, with a context at hand or handed over by
    [ensureContextReady] and no decode in flight, it submits the whole
    accumulated buffer. *)
Theorem first_decode_waits_for_threshold
        (arrayBuffer : bytes) (ensure : option ensure_outcome) (d : decoder) :
  decodedBuffers d = [] -> isDecoding d = false -> inFlight d = [] ->
  let total := bytes_with arrayBuffer d in
  let d' := addChunk arrayBuffer ensure d in
  (total < 122880 ->
   inFlight d' = [] /\ isDecoding d' = false
   /\ bufferedSeconds d' = estimateBufferedDuration total)
  /\ (122880 <= total ->
      (audioContext d <> None
       \/ exists ctx, ensure = Some (ContextReady ctx)) ->
      inFlight d'
      = [(List.concat (rawChunks d ++ [arrayBuffer]), total)]
      /\ isDecoding d' = true
      /\ bufferedSeconds d' = estimateBufferedDuration total).
Proof.
  intros Hdec Hbusy Hfl total d'. unfold d', addChunk.
  rewrite performAccumulation_push. fold total. cbv zeta.
  cbn [decodedBuffers]. rewrite Hdec. cbn [is_empty negb andb orb].
  cbn [setBufferedSeconds isDecoding lastDecodedBytes decodedBuffers].
  rewrite threshold_reached, Hbusy, orb_false_r, andb_true_r.
  change THRESHOLD_BYTES with 122880.
  split.
  - intros Hlt. apply Z.leb_gt in Hlt. rewrite Hlt. cbn. auto.
  - rewrite Hfl. intros Hge Hctx. apply Z.leb_le in Hge. rewrite Hge.
    unfold tryDecode_begin. cbn [audioContext accumulatedBuffer is_some].
    assert (Hlen : Z.of_nat (List.length
                               (List.concat (rawChunks d ++ [arrayBuffer])))
                   = total) by reflexivity.
    destruct (audioContext d) as [ctx|] eqn:Ec.
    + cbn [is_some negb andb]. unfold tryDecode_submit.
      cbn [audioContext accumulatedBuffer isDecoding decodedBuffers].
      rewrite ?Ec, ?Hbusy. cbv zeta. cbn [is_empty orb negb fst].
      cbn. rewrite Hlen. auto.
    + destruct Hctx as [Hctx|[ctx ->]]; [congruence|].
      cbn [is_some negb andb]. unfold tryDecode_submit.
      cbn [set_audioContext audioContext accumulatedBuffer isDecoding
           decodedBuffers].
      rewrite ?Hbusy. cbv zeta. cbn [is_empty orb negb fst].
      cbn. rewrite Hlen. auto.
Qed.

Lemma first_decode_waits_for_threshold_witness :
  inFlight (addChunk ["a"%byte] None empty_decoder) = [].
Proof.
  destruct (first_decode_waits_for_threshold ["a"%byte] None empty_decoder
              eq_refl eq_refl eq_refl) as [H _].
  destruct (H ltac:(cbn; lia)) as [H1 _]. exact H1.
Defined.

(** X14.  With a context, an accumulated buffer and no decode in flight,
    [tryDecode] submits a decode exactly when it is forced, or nothing has
    been decoded yet, or the buffer has more than 1.2 times the bytes of
    the last successful decode (5 * size > 6 * last).  What it submits is
    the buffer as it is at that moment; the decoded unit and the baseline
    stay until the decode settles. *)
Theorem redecode_needs_growth
        (forceMode : bool) (d : decoder) (ctx : AudioContext)
        (buffer : bytes) :
  audioContext d = Some ctx -> accumulatedBuffer d = Some buffer ->
  isDecoding d = false ->
  let size := Z.of_nat (List.length buffer) in
  let d' := fst (tryDecode_submit forceMode d) in
  (snd (tryDecode_submit forceMode d) = Submitted
   <-> forceMode = true \/ decodedBuffers d = []
       \/ 6 * lastDecodedBytes d < 5 * size)
  /\ (snd (tryDecode_submit forceMode d) = Submitted ->
      inFlight d' = inFlight d ++ [(buffer, size)] /\ isDecoding d' = true)
  /\ (snd (tryDecode_submit forceMode d) = ReturnedNull -> d' = d)
  /\ decodedBuffers d' = decodedBuffers d
  /\ lastDecodedBytes d' = lastDecodedBytes d.
Proof.
  intros Hc Hb Hbusy size d'.
  destruct (tryDecode_submit_keeps forceMode d) as (Hk1 & Hk2 & _).
  cbv zeta in Hk1, Hk2. fold d' in Hk1, Hk2.
  assert (Hcond : forceMode || is_empty (decodedBuffers d)
                  || (6 * lastDecodedBytes d <? 5 * size) = true
                  <-> forceMode = true \/ decodedBuffers d = []
                      \/ 6 * lastDecodedBytes d < 5 * size).
  { rewrite !orb_true_iff, Z.ltb_lt.
    assert (is_empty (decodedBuffers d) = true <-> decodedBuffers d = [])
      by (destruct (decodedBuffers d); cbn; split; congruence).
    tauto. }
  unfold d', tryDecode_submit. rewrite Hc, Hb, Hbusy. cbv zeta.
  fold size. rewrite grown_by_fifth.
  destruct (forceMode || is_empty (decodedBuffers d)
            || (6 * lastDecodedBytes d <? 5 * size)) eqn:E;
    cbn [negb fst snd inFlight isDecoding decodedBuffers lastDecodedBytes].
  - split; [split; [intros _; apply Hcond; reflexivity|reflexivity]|].
    split; [intros _; split; reflexivity|].
    split; [discriminate|split; reflexivity].
  - split; [split; [discriminate|]|].
    + intros H. apply Hcond in H. discriminate H.
    + split; [discriminate|]. split; [reflexivity|split; reflexivity].
Qed.

Lemma redecode_needs_growth_witness :
  let d := fst (tryDecode_finish 0 (Decoded decoded_3s)
                  (after_events awaiting_decode)) in
  snd (tryDecode_submit false d) = ReturnedNull
  /\ snd (tryDecode_submit true d) = Submitted.
Proof.
  set (d := fst (tryDecode_finish 0 (Decoded decoded_3s)
                   (after_events awaiting_decode))).
  cbv zeta.
  destruct (redecode_needs_growth false d {| state := Running |}
              ["a"%byte; "b"%byte; "c"%byte] eq_refl eq_refl eq_refl)
    as (H1 & _).
  destruct (redecode_needs_growth true d {| state := Running |}
              ["a"%byte; "b"%byte; "c"%byte] eq_refl eq_refl eq_refl)
    as (H2 & _).
  split; [reflexivity|]. apply H2. left. reflexivity.
Defined.

(** X15.  [reset()] empties the accumulation, the decoded unit and the
    baseline, but it does not cancel a decode in flight: when that decode
    then succeeds, its result becomes the decoded unit and the size of its
    snapshot the baseline, with nothing accumulated. *)
Theorem reset_does_not_cancel_decode
        (d : decoder) (i : nat) (snapshot : bytes) (size : Z)
        (audioBuffer : AudioBuffer) :
  nth_error (inFlight d) i = Some (snapshot, size) ->
  let r := reset d in
  let d' := fst (tryDecode_finish i (Decoded audioBuffer) r) in
  (rawChunks r = [] /\ accumulatedBuffer r = None
   /\ getDecodedBuffer r = None /\ lastDecodedBytes r = 0
   /\ isDecoding r = false /\ inFlight r = inFlight d)
  /\ getDecodedBuffer d' = Some audioBuffer
  /\ lastDecodedBytes d' = size
  /\ bufferedSeconds d' = duration audioBuffer
  /\ rawChunks d' = [] /\ accumulatedBuffer d' = None.
Proof.
  intros Hin r d'. split; [repeat split|].
  pose proof (tryDecode_finish_cases i (Decoded audioBuffer) r) as H.
  assert (Hr : nth_error (inFlight r) i = Some (snapshot, size)) by exact Hin.
  rewrite Hr in H. unfold d'. rewrite H. repeat split.
Qed.

Lemma reset_does_not_cancel_decode_witness :
  getDecodedBuffer
    (fst (tryDecode_finish 0 (Decoded decoded_3s)
            (reset (after_events awaiting_decode))))
  = Some decoded_3s.
Proof.
  destruct (reset_does_not_cancel_decode (after_events awaiting_decode) 0
              ["a"%byte; "b"%byte; "c"%byte] 3 decoded_3s eq_refl)
    as (_ & H & _).
  exact H.
Defined.

End DecoderExtFacts.

(** * Facts about playback states *)

Module PlaybackExtFacts.
Import Playback PlaybackExt PlaybackFacts.

Local Open Scope Q_scope.

Lemma coherent_play (audioBuffer : option AudioBuffer)
      (resumeOffset : option Q) (now : Q) (p : playback) :
  coherent p -> coherent (fst (play audioBuffer resumeOffset now p)).
Proof.
  intros Hp. destruct audioBuffer as [ab|]; [|exact Hp].
  unfold coherent. cbn. split; [split|]; auto; discriminate.
Qed.

Lemma coherent_stopped (p : playback) :
  isPlaying p = false -> sourceNode p = None -> coherent p.
Proof.
  intros H1 H2. unfold coherent. rewrite H1, H2.
  split; [split|]; congruence.
Qed.

Lemma reachable_coherent (p : playback) : reachable p -> coherent p.
Proof.
  induction 1 as [|p ab ro now _ IH|p now _ IH|p _ IH|p s now _ IH
                  |p b _ IH|p _ IH|p _ IH|p _ IH].
  - apply coherent_stopped; reflexivity.
  - apply coherent_play. exact IH.
  - unfold pause. destruct (sourceNode p) eqn:Es; [|exact IH].
    destruct (context p); [|exact IH].
    apply coherent_stopped; reflexivity.
  - apply coherent_stopped; reflexivity.
  - unfold onEnded. destruct (is_source s (sourceNode p)); [|exact IH].
    destruct (context p); [destruct (Double.leb _ _)|];
      try exact IH; apply coherent_stopped; reflexivity.
  - exact IH.
  - exact IH.
  - exact IH.
  - exact IH.
Qed.

(** X16.  In every state the hook can reach, the playing flag is set
    exactly when a source is active, and playback is never playing and
    paused at once. *)
Theorem playing_iff_source_active (p : playback) :
  reachable p ->
  (isPlaying p = true <-> sourceNode p <> None)
  /\ (isPlaying p = true -> isPaused p = false).
Proof. exact (reachable_coherent p). Qed.

Lemma playing_iff_source_active_witness :
  isPlaying playing_8s = true <-> sourceNode playing_8s <> None.
Proof.
  destruct (playing_iff_source_active playing_8s reachable_playing_8s)
    as [H _].
  exact H.
Defined.

Lemma or_zero_eq (x : Q) : or_zero x == x.
Proof.
  unfold or_zero. destruct (Qeq_bool x 0) eqn:E; [|reflexivity].
  apply Qeq_bool_iff in E. symmetry. exact E.
Qed.

(** X17.  Pausing an active source records the clock time since that
    source was started and leaves the paused state with no source; the
    play that follows starts the new source at that recorded time.  When
    the paused source had itself been started at offset 0 this is the
    position at which it was paused; the offset a source was started at
    does not enter the recorded time. *)
Theorem resume_continues_from_pause
        (p : playback) (s : source) (c : AudioContext) (t t' : Q)
        (audioBuffer : AudioBuffer) :
  sourceNode p = Some s -> context p = Some c ->
  let paused := pause t p in
  let resumed := fst (play (Some audioBuffer) None t' paused) in
  (isPlaying paused = false /\ isPaused paused = true
   /\ sourceNode paused = None /\ pausedTime paused = t - startTime p)
  /\ (isPlaying resumed = true /\ isPaused resumed = false
      /\ startTime resumed = t')
  /\ playbackOffset resumed == t - startTime p
  /\ (playbackOffset p == 0 ->
      playbackOffset resumed == playbackOffset p + (t - startTime p)).
Proof.
  intros Hs Hc paused resumed.
  assert (Hp : paused =
               {| isPlaying := false; isPaused := true;
                  isBuffering := isBuffering p;
                  context := context p; sourceNode := None;
                  startTime := startTime p; pausedTime := t - startTime p;
                  playbackOffset := playbackOffset p;
                  hasUserGesture := hasUserGesture p;
                  currentBufferDuration := currentBufferDuration p;
                  nextSourceId := nextSourceId p |}).
  { unfold paused, pause. rewrite Hs, Hc. reflexivity. }
  assert (Ho : playbackOffset resumed == t - startTime p).
  { unfold resumed. rewrite Hp. cbn. apply or_zero_eq. }
  split; [rewrite Hp; repeat split|].
  split; [unfold resumed; cbn; repeat split|].
  split; [exact Ho|].
  intros H0. rewrite Ho, H0. ring.
Qed.

Lemma resume_continues_from_pause_witness :
  playbackOffset (fst (play (Some (unit_of 8)) None 200 (pause 103 playing_8s)))
  == 3.
Proof.
  destruct (resume_continues_from_pause playing_8s source_8s
              {| state := Running |} 103 200 (unit_of 8) eq_refl eq_refl)
    as (_ & _ & H & _).
  rewrite H. reflexivity.
Defined.

(** X18.  The auto-start effects start playback only from the buffering
    state, with the buffered seconds at or above the threshold, a decoded
    unit at hand and an interaction on record; with the buffered seconds
    below the threshold they change nothing at all. *)
Theorem autostart_needs_unit_threshold_and_gesture
        (now : Q) (d : Decoder.decoder) (p : playback) :
  (isPlaying p = false ->
   isPlaying (useAutoStartPlayback now d p) = true ->
   phase_of p = Buffering
   /\ bufferThresholdSeconds <= Decoder.bufferedSeconds d
   /\ hasUserGesture p = true
   /\ exists buffer, Decoder.getDecodedBuffer d = Some buffer
        /\ sourceNode (useAutoStartPlayback now d p)
           = Some {| source_id := nextSourceId p; source_buffer := buffer |})
  /\ (Decoder.bufferedSeconds d < bufferThresholdSeconds ->
      useAutoStartPlayback now d p = p).
Proof.
  split.
  - intros Hpl Hstart. unfold useAutoStartPlayback, autoStart_effect in *.
    destruct (shouldAutoStart d p) eqn:E.
    + unfold shouldAutoStart in E. apply andb_true_iff in E. destruct E as [E Hd].
      apply andb_true_iff in E. destruct E as [E Hg].
      apply andb_true_iff in E. destruct E as [E Ha].
      apply andb_true_iff in E. destruct E as [E _].
      apply andb_true_iff in E. destruct E as [Hb Ht].
      apply negb_true_iff in Ha.
      split; [unfold phase_of; rewrite Hpl, Ha, Hb; reflexivity|].
      split; [apply Qle_bool_iff; exact Ht|]. split; [exact Hg|].
      unfold Decoder.hasDecodedBuffer, Decoder.getDecodedBuffer in *.
      destruct (Decoder.decodedBuffers d) as [|buffer rest];
        [discriminate Hd|].
      exists buffer. split; [reflexivity|].
      unfold clearBuffering_effect. rewrite Ht, Hb, Hpl. cbn.
      rewrite Hg. reflexivity.
    + exfalso. unfold clearBuffering_effect in Hstart.
      destruct (_ && _ && _) in Hstart; [destruct (negb _) in Hstart|];
        cbn in Hstart; congruence.
  - intros Hlt. apply Qle_bool_false in Hlt.
    unfold useAutoStartPlayback, autoStart_effect, clearBuffering_effect,
      shouldAutoStart.
    rewrite Hlt. rewrite andb_false_r. reflexivity.
Qed.

Lemma autostart_needs_unit_threshold_and_gesture_witness :
  useAutoStartPlayback 0 (decoded (99 # 10))
    (setIsBuffering true (markUserGesture mounted))
  = setIsBuffering true (markUserGesture mounted).
Proof.
  destruct (autostart_needs_unit_threshold_and_gesture 0 (decoded (99 # 10))
              (setIsBuffering true (markUserGesture mounted))) as [_ H].
  apply H. reflexivity.
Defined.

(** X19.  While the same source plays, the reported position does not go
    back as the clock advances. *)
Theorem position_does_not_go_back (now now' : Q) (p : playback) :
  now <= now' ->
  getCurrentPlaybackPosition now p <= getCurrentPlaybackPosition now' p.
Proof.
  intros H. unfold getCurrentPlaybackPosition.
  destruct (sourceNode p); [|apply Qle_refl].
  destruct (context p); [|apply Qle_refl].
  cbv zeta. apply Q.min_le_compat_r.
  apply Qplus_le_compat; [apply Qle_refl|].
  apply Qplus_le_compat; [exact H|apply Qle_refl].
Qed.

Lemma position_does_not_go_back_witness :
  getCurrentPlaybackPosition 101 playing_8s
  <= getCurrentPlaybackPosition 103 playing_8s.
Proof.
  apply (position_does_not_go_back 101 103 playing_8s). discriminate.
Defined.

End PlaybackExtFacts.

(** * Facts about the audio context manager and the indicator *)

Module ContextManagerFacts.
Import ContextManager.

Lemma ensureContext_result (starts_suspended resume_ok : bool) (m : manager) :
  let c := snd (ensureContext starts_suspended resume_ok m) in
  current (fst (ensureContext starts_suspended resume_ok m)) = Some c
  /\ ctx_state c <> Closed
  /\ (resume_ok = true -> ctx_state c = Running)
  /\ (forall c0, current m = Some c0 -> ctx_state c0 <> Closed ->
                 ctx_id c = ctx_id c0
                 /\ constructed (fst (ensureContext starts_suspended
                                        resume_ok m)) = constructed m)
  /\ ((current m = None \/ exists c0, current m = Some c0
                                      /\ ctx_state c0 = Closed) ->
      ctx_id c = constructed m).
Proof.
  unfold ensureContext.
  destruct (current m) as [[i st]|]; [destruct st|];
    destruct starts_suspended, resume_ok; cbn;
    (split; [reflexivity|]); (split; [discriminate|]);
    (split; [intros H; first [reflexivity | discriminate H]|]);
    (split;
     [ intros c0 H Hc;
       first [ discriminate H
             | injection H as <-; cbn in Hc;
               first [ exfalso; apply Hc; reflexivity
                     | split; reflexivity ] ]
     | intros [H|(c0 & H & Hc)];
       first [ reflexivity
             | discriminate H
             | injection H as <-; cbn in Hc; discriminate Hc ] ]).
Qed.

Lemma ids_below_constructed (ks : list call) :
  forall c, current (after_calls ks) = Some c ->
            (ctx_id c < constructed (after_calls ks))%nat.
Proof.
  unfold after_calls.
  assert (H0 : forall c, current new_manager = Some c ->
                         (ctx_id c < constructed new_manager)%nat)
    by (intros c H; discriminate H).
  revert H0. generalize new_manager.
  induction ks as [|k ks IH]; intros m Hm; [exact Hm|].
  cbn [fold_left]. apply IH.
  destruct k as [ss ro| |]; cbn [perform].
  - unfold ensureContext.
    destruct (current m) as [[i st]|] eqn:Ec.
    + pose proof (Hm _ eq_refl) as Hi. cbn in Hi.
      destruct st, ss, ro; cbn; intros c H; injection H as <-; cbn; lia.
    + destruct ss, ro; cbn; intros c H; injection H as <-; cbn; lia.
  - unfold suspend. destruct (current m) as [[i st]|] eqn:Ec.
    + pose proof (Hm _ eq_refl) as Hi. cbn in Hi.
      destruct st; cbn; rewrite ?Ec; intros c H; injection H as <-;
        exact Hi.
    + rewrite Ec. intros c H. discriminate H.
  - unfold close. destruct (current m) as [c0|] eqn:Ec.
    + cbn. intros c H. discriminate H.
    + rewrite Ec. intros c H. discriminate H.
Qed.

(** X20.  [ensureContext] hands out the context the manager then holds,
    never a closed one, and a running one whenever [resume()] succeeds; as
    long as the held context is not closed every call gives that same
    context and constructs none.  After [close()] the manager holds no
    context and is not ready, and the next [ensureContext] constructs a
    context that is not the one closed. *)
Theorem manager_reuses_open_context
        (ks : list call) (s1 r1 s2 r2 : bool) :
  let m := after_calls ks in
  let m1 := fst (ensureContext s1 r1 m) in
  let c1 := snd (ensureContext s1 r1 m) in
  let c2 := snd (ensureContext s2 r2 m1) in
  let c3 := snd (ensureContext s2 r2 (close m1)) in
  getContext m1 = Some c1
  /\ ctx_state c1 <> Closed
  /\ (r1 = true -> ctx_state c1 = Running)
  /\ ctx_id c2 = ctx_id c1
  /\ constructed (fst (ensureContext s2 r2 m1)) = constructed m1
  /\ getContext (close m1) = None
  /\ isReady (close m1) = false
  /\ ctx_id c3 <> ctx_id c1.
Proof.
  intros m m1 c1 c2 c3.
  destruct (ensureContext_result s1 r1 m) as (H1 & H2 & H3 & _).
  fold m1 c1 in H1, H2, H3.
  destruct (ensureContext_result s2 r2 m1) as (_ & _ & _ & H4 & _).
  destruct (H4 c1 H1 H2) as [H5 H6]. fold c2 in H5.
  assert (Hc : current (close m1) = None)
    by (unfold close; rewrite H1; reflexivity).
  destruct (ensureContext_result s2 r2 (close m1)) as (_ & _ & _ & _ & H7).
  pose proof (H7 (or_introl Hc)) as H8. fold c3 in H8.
  assert (Hlt : (ctx_id c1 < constructed m1)%nat).
  { assert (Hm1 : after_calls (ks ++ [Ensure s1 r1]) = m1)
      by (unfold after_calls; rewrite fold_left_app; reflexivity).
    rewrite <- Hm1. apply ids_below_constructed. rewrite Hm1. exact H1. }
  repeat split; auto.
  - unfold isReady. rewrite Hc. reflexivity.
  - rewrite H8. unfold close. rewrite H1. cbn. lia.
Qed.

Lemma manager_reuses_open_context_witness :
  ctx_state (snd (ensureContext true true
                    (after_calls [Ensure false true; Close])))
  = Running.
Proof.
  destruct (manager_reuses_open_context [Ensure false true; Close]
              true true false false) as (_ & _ & H & _).
  exact (H eq_refl).
Defined.

End ContextManagerFacts.

Module IndicatorFacts.
Import Indicator.

Local Open Scope Q_scope.

Lemma percent_full_iff (b t : Q) :
  0 < t -> (100 <= (b / t) * 100 <-> t <= b).
Proof.
  intros Ht.
  assert (Ht' : ~ t == 0) by (intros H; rewrite H in Ht; discriminate Ht).
  split; intros H.
  - apply (Qmult_le_r _ _ (/ t * 100)).
    + apply Qmult_lt_0_compat; [apply Qinv_lt_0_compat; exact Ht|reflexivity].
    + setoid_replace (t * (/ t * 100)) with 100 by (field; exact Ht').
      setoid_replace (b * (/ t * 100)) with (b / t * 100)
        by (field; exact Ht').
      exact H.
  - apply (Qmult_le_r _ _ (/ t * 100)) in H.
    + setoid_replace (t * (/ t * 100)) with 100 in H by (field; exact Ht').
      setoid_replace (b * (/ t * 100)) with (b / t * 100) in H
        by (field; exact Ht').
      exact H.
    + apply Qmult_lt_0_compat; [apply Qinv_lt_0_compat; exact Ht|reflexivity].
Qed.

(** X21.  For a positive threshold and a buffered duration that is not
    negative, the indicator's percentage lies between 0 and 100, and it is
    100 exactly when the buffered duration has reached the threshold. *)
Theorem progress_is_a_percentage (bufferedSeconds thresholdSeconds : Q) :
  0 < thresholdSeconds -> 0 <= bufferedSeconds ->
  0 <= progress bufferedSeconds thresholdSeconds <= 100
  /\ (progress bufferedSeconds thresholdSeconds == 100
      <-> thresholdSeconds <= bufferedSeconds).
Proof.
  intros Ht Hb. unfold progress. split; [split|].
  - apply Q.min_glb; [|discriminate].
    apply Qmult_le_0_compat; [|discriminate].
    apply Qmult_le_0_compat; [exact Hb|].
    apply Qlt_le_weak, Qinv_lt_0_compat. exact Ht.
  - apply Q.le_min_r.
  - rewrite <- (percent_full_iff bufferedSeconds thresholdSeconds Ht).
    apply Q.min_r_iff.
Qed.

Lemma progress_is_a_percentage_witness :
  progress 12 10 == 100 /\ progress 5 10 <= 100.
Proof.
  destruct (progress_is_a_percentage 12 10 eq_refl ltac:(discriminate))
    as [_ H1].
  destruct (progress_is_a_percentage 5 10 eq_refl ltac:(discriminate))
    as [[_ H2] _].
  split; [apply H1; discriminate | exact H2].
Defined.

End IndicatorFacts.

(** * Facts about the player as a whole *)

Module AppFacts.
Import Playback App.

(** ** No operation of the playback hook forgets an interaction *)

Lemma gesture_ensureContext (p : playback) :
  hasUserGesture (ensureContext p) = hasUserGesture p.
Proof. reflexivity. Qed.







(** ** An interaction, once on record, stays on record *)












(** On a player that is neither buffering nor playing, and not
    connected, the effects do nothing but reset the baseline of the buffer
    replacement. *)
Lemma effects_when_idle (now : Q) (a : app) :
  isBuffering (audioPlayback a) = false ->
  isPlaying (audioPlayback a) = false ->
  Connection.isConnected (webrtc a) = false ->
  effects now a
  = with_lastBufferDuration 0 (with_playback (audioPlayback a) a).
Proof.
  intros Hb Hpl Hi. unfold effects. cbv zeta.
  assert (E1 : shouldAutoStart (audioDecoder a) (audioPlayback a) = false)
    by (unfold shouldAutoStart; rewrite Hb; reflexivity).
  rewrite E1.
  assert (E2 : clearBuffering_effect (audioPlayback a) (audioDecoder a)
                 (audioPlayback a) = audioPlayback a).
  { unfold clearBuffering_effect. rewrite Hb, andb_false_r. reflexivity. }
  rewrite E2.
  assert (E3 : replacement_due now (audioDecoder a)
                 (lastBufferDuration (with_playback (audioPlayback a) a))
                 (audioPlayback (with_playback (audioPlayback a) a)) = None).
  { unfold replacement_due. cbn [audioPlayback with_playback].
    rewrite Hpl. reflexivity. }
  rewrite E3, Hpl, Hi. reflexivity.
Qed.

Section Runs.

Variable JSON_parse : string -> result Messages.json.



(** ** Before any interaction nothing happens *)





End Runs.


Lemma stop_twice (p : playback) :
  setIsBuffering false (stop (setIsBuffering false (stop p)))
  = setIsBuffering false (stop p).
Proof.
  destruct p as [pl pa bu [[[]]|] sn st pt po hg cd ns]; reflexivity.
Qed.

(** X22.  [handleStop] leaves the playback idle with no source and the
    recorded interaction kept, the connection disconnected with the manual
    flag set and the timer of the ref cleared, the decoder without chunks
    or decoded unit, and no error.  It cancels nothing that is suspended:
    the tasks (a [handlePlay] or a [play] at an [await], the timeout of
    [retry]), the retry timers whose id the ref no longer holds and the
    decodes in flight all stay.  The effects that follow do nothing but
    reset the baseline of the buffer replacement, and a second
    [handleStop] changes nothing.  But a [play] that was suspended starts
    its source when it goes on after the stop, and the timeout of an
    earlier [retry] connects again. *)
Theorem stop_cancels_nothing_suspended (a : app) (now : Q) :
  let a' := handleStop a in
  (phase_of (audioPlayback a') = Idle
   /\ sourceNode (audioPlayback a') = None
   /\ hasUserGesture (audioPlayback a') = hasUserGesture (audioPlayback a))
  /\ (Connection.isConnected (webrtc a') = false
      /\ Connection.isConnecting (webrtc a') = false
      /\ Connection.manualDisconnect (webrtc a') = true
      /\ Connection.reconnectTimeout (webrtc a') = None
      /\ Connection.scheduled (webrtc a') = Connection.scheduled (webrtc a)
      /\ Connection.pendingTimers (webrtc a')
         = match Connection.reconnectTimeout (webrtc a) with
           | Some t => Connection.clearTimeout (Connection.retry_id t)
                         (Connection.pendingTimers (webrtc a))
           | None => Connection.pendingTimers (webrtc a)
           end)
  /\ (Decoder.rawChunks (audioDecoder a') = []
      /\ Decoder.accumulatedBuffer (audioDecoder a') = None
      /\ Decoder.getDecodedBuffer (audioDecoder a') = None
      /\ Decoder.bufferedSeconds (audioDecoder a') = 0%Q
      /\ Decoder.inFlight (audioDecoder a') = Decoder.inFlight (audioDecoder a))
  /\ error a' = None
  /\ tasks a' = tasks a
  /\ effects now a' = with_lastBufferDuration 0 a'
  /\ handleStop a' = a'
  /\ (forall (i : nat) (buffer : AudioBuffer),
        nth_error (tasks a) i = Some (Play_ensured buffer) ->
        isPlaying (audioPlayback (resume i now a')) = true
        /\ sourceNode (audioPlayback (resume i now a')) <> None)
  /\ (forall i : nat,
        nth_error (tasks a) i = Some Retry_timeout ->
        Connection.isConnecting (webrtc (resume i now a')) = true
        /\ Connection.manualDisconnect (webrtc (resume i now a')) = false).
Proof.
  intros a'. subst a'.
  destruct a as [p d c e last hc ts].
  split; [|split; [|split; [|split; [|split; [|split; [|split; [|split]]]]]]].
  - destruct p as [pl pa bu [[[]]|] sn st pt po hg cd ns]; repeat split.
  - repeat split.
  - repeat split.
  - reflexivity.
  - reflexivity.
  - rewrite effects_when_idle by reflexivity. reflexivity.
  - unfold handleStop. cbn [audioPlayback audioDecoder webrtc error
                            lastBufferDuration hasConnection tasks].
    rewrite stop_twice. reflexivity.
  - intros i buffer Hi. unfold resume, handleStop. cbn [tasks] in *.
    rewrite Hi. cbn. split; [reflexivity|discriminate].
  - intros i Hi. unfold resume, handleStop. cbn [tasks] in *.
    rewrite Hi. cbn. split; reflexivity.
Qed.

Lemma stop_cancels_nothing_suspended_witness :
  isPlaying
    (audioPlayback
       (resume 0 0 (handleStop
                      (suspend_task (Play_ensured (unit_of 8)) started))))
  = true.
Proof.
  destruct (stop_cancels_nothing_suspended
              (suspend_task (Play_ensured (unit_of 8)) started) 0)
    as (_ & _ & _ & _ & _ & _ & _ & H & _).
  destruct (H 0%nat (unit_of 8) eq_refl) as [H1 _]. exact H1.
Defined.

End AppFacts.
